(** * Session orchestration engine of [server.js]

    A shallow embedding of the quiz server: the session registry, the
    question/answer model, the message handlers, the CSV export and the
    keep-alive supervisor, followed by the properties the specification
    states about them, by further properties of the same code, and by the
    [.env] loader of the repository's static server with its properties.

    Conventions of the embedding.
    - JavaScript values that reach the handlers from a parsed message are
      [JS.jsval]; numbers are the integers (as [Z]) that print in plain
      decimal notation.
    - An object used as a dictionary ([students], [answers]) is a
      [JS.jsobj]: its own properties in the order in which [Object.values],
      [Object.entries] and [for..in] enumerate them. The registry
      [sessions] is never enumerated and is a [gmap].
    - A property read [obj[k]] sees the own properties first and then the
      names every object inherits from [Object.prototype]. Where a handler
      is handed such a built-in it throws, or assigns to the built-in: the
      handler then ends in a [Fault] and the run stops there.
    - The program is a state machine over [state]: the runtime delivers an
      [input] (a connection, a message, a pong, the close of a socket, a
      tick of the interval timer) and [step] runs the callback registered
      for it. What a callback reads from outside ([crypto.randomBytes], the
      clock) comes with the input, as an [env].
    - The [ws] library is the environment: a socket has a [readyState] and
      the flag [isAlive] the server keeps on it; what the server does to a
      socket ([send], [ping], [close], [terminate]) is appended to the log
      [wire]. *)

From Stdlib Require Import ZArith String Ascii List Lia DecimalString.
From Stdlib.Strings Require Import Byte.
From stdpp Require Import gmap strings list.

Open Scope string_scope.
Open Scope Z_scope.
Open Scope list_scope.

(** ** JavaScript values, strings and objects *)

Module JS.

Inductive jsval :=
  | JUndefined
  | JNull
  | JBool (b : bool)
  | JNum (n : Z)
  | JStr (s : string).

(** [ToBoolean]: [undefined], [null], [false], [0] and the empty string are
    falsy. *)
Definition truthy (v : jsval) : bool :=
  match v with
  | JUndefined | JNull => false
  | JBool b => b
  | JNum n => negb (n =? 0)
  | JStr s => negb (String.eqb s EmptyString)
  end.

(** [a || b] *)
Definition or (a b : jsval) : jsval := if truthy a then a else b.

(** [String(v)] *)
Definition toString (v : jsval) : string :=
  match v with
  | JUndefined => "undefined"
  | JNull => "null"
  | JBool true => "true"
  | JBool false => "false"
  | JNum n => NilZero.string_of_int (Z.to_int n)
  | JStr s => s
  end.

Definition dquote : ascii := "034"%char.

(** The replacement of every double quote of [s] by two of them (the
    global regular-expression [replace] of [generateCSV]). *)
Fixpoint double_quotes (s : string) : string :=
  match s with
  | EmptyString => EmptyString
  | String c r =>
      if Ascii.eqb c dquote
      then String dquote (String dquote (double_quotes r))
      else String c (double_quotes r)
  end.

(** [s.padStart(n, c)] for a one-character pad [c]. *)
Fixpoint replicate_char (n : nat) (c : ascii) : string :=
  match n with O => EmptyString | S k => String c (replicate_char k c) end.

Definition padStart (n : nat) (c : ascii) (s : string) : string :=
  replicate_char (n - String.length s) c +:+ s.

(** [s.toUpperCase()], on the ASCII letters. *)
Definition upper_char (c : ascii) : ascii :=
  let n := N_of_ascii c in
  if ((97 <=? n) && (n <=? 122))%N then ascii_of_N (n - 32) else c.

Fixpoint toUpperCase (s : string) : string :=
  match s with
  | EmptyString => EmptyString
  | String c r => String (upper_char c) (toUpperCase r)
  end.

(** [buf.toString("hex")]: two lower-case hexadecimal digits per byte. *)
Definition hex_digit (d : N) : ascii :=
  if (d <? 10)%N then ascii_of_N (48 + d) else ascii_of_N (87 + d).

Definition hex_byte (b : byte) : string :=
  let n := Byte.to_N b in
  String (hex_digit (n / 16)) (String (hex_digit (n mod 16)) EmptyString).

Definition hex (buf : list byte) : string :=
  String.concat EmptyString (map hex_byte buf).

(** The names every ordinary object inherits from [Object.prototype]. *)
Definition prototype_names : list string :=
  [ "constructor"; "__defineGetter__"; "__defineSetter__"; "hasOwnProperty";
    "__lookupGetter__"; "__lookupSetter__"; "isPrototypeOf";
    "propertyIsEnumerable"; "toString"; "valueOf"; "__proto__";
    "toLocaleString" ].

Definition inherited (k : string) : bool :=
  existsb (String.eqb k) prototype_names.

(** The result of a property read [obj[k]] on a dictionary object: an own
    property, a built-in reached through the prototype (a function, or
    [Object.prototype] itself for [__proto__]; always truthy), or
    [undefined]. *)
Inductive property (V : Type) :=
  | Own (v : V)
  | Builtin
  | Undefined.
Arguments Own {V} v.
Arguments Builtin {V}.
Arguments Undefined {V}.

Definition read {V} (own : option V) (k : string) : property V :=
  match own with
  | Some v => Own v
  | None => if inherited k then Builtin else Undefined
  end.

(** A key is an array index when it is the canonical decimal spelling of an
    integer below [2^32 - 1]; such keys are enumerated first, in ascending
    numeric order, before all other keys, which keep insertion order. *)
Definition array_index (k : string) : option N :=
  match NilZero.uint_of_string k with
  | Some u =>
      let n := N.of_uint u in
      if String.eqb (NilZero.string_of_uint (N.to_uint n)) k && (n <? 4294967295)%N
      then Some n else None
  | None => None
  end.

Definition jsobj (V : Type) := list (string * V).

Section Obj.
Context {V : Type}.

Fixpoint own (o : jsobj V) (k : string) : option V :=
  match o with
  | [] => None
  | (k', v) :: r => if String.eqb k' k then Some v else own r k
  end.

Definition get (o : jsobj V) (k : string) : property V := read (own o k) k.

Definition keys (o : jsobj V) : list string := map fst o.
Definition values (o : jsobj V) : list V := map snd o.

Fixpoint replace (k : string) (v : V) (o : jsobj V) : jsobj V :=
  match o with
  | [] => []
  | (k', v') :: r =>
      if String.eqb k' k then (k, v) :: r else (k', v') :: replace k v r
  end.

Fixpoint insert_index (n : N) (k : string) (v : V) (o : jsobj V) : jsobj V :=
  match o with
  | [] => [(k, v)]
  | (k', v') :: r =>
      match array_index k' with
      | Some n' =>
          if (n <? n')%N then (k, v) :: o
          else (k', v') :: insert_index n k v r
      | None => (k, v) :: o
      end
  end.

(** [o[k] = v] for a key that is not an accessor of the prototype. *)
Definition set (k : string) (v : V) (o : jsobj V) : jsobj V :=
  match own o k with
  | Some _ => replace k v o
  | None =>
      match array_index k with
      | Some n => insert_index n k v o
      | None => o ++ [(k, v)]
      end
  end.
End Obj.

End JS.

Import JS.

(** ** Data model (the comment above [sessions] in the source) *)

(** A connection is the index of its socket. *)
Abbreviation conn := nat.

Inductive session_stage := WAITING | MCQ | EXPLANATION | STOPPED.
Inductive question_stage := QMCQ | QEXPLANATION | QDONE.

Record Answer := {
  username : jsval;
  mcqAnswer : jsval;
  explanation : jsval
}.

Record Question := {
  questionNumber : Z;
  questionText : jsval;
  mcqOptions : jsval;
  qstage : question_stage;
  answers : jsobj Answer
}.

Record Student := {
  stu_username : jsval;
  stu_ws : conn
}.

(** [ident] is the identity of the Session object (the reference the
    registry holds): the object literal of TEACHER_CREATE_SESSION makes a new
    object each time it runs. No handler reads it. *)
Record Session := {
  ident : nat;
  teacher : option conn;
  stage : session_stage;
  currentQuestionIndex : Z;
  questions : list Question;
  students : jsobj Student
}.

Definition set_qstage (x : question_stage) (q : Question) : Question :=
  {| questionNumber := questionNumber q; questionText := questionText q;
     mcqOptions := mcqOptions q; qstage := x; answers := answers q |}.

Definition set_answers (x : jsobj Answer) (q : Question) : Question :=
  {| questionNumber := questionNumber q; questionText := questionText q;
     mcqOptions := mcqOptions q; qstage := qstage q; answers := x |}.

Definition set_mcqAnswer (x : jsval) (a : Answer) : Answer :=
  {| username := username a; mcqAnswer := x; explanation := explanation a |}.

Definition set_explanation (x : jsval) (a : Answer) : Answer :=
  {| username := username a; mcqAnswer := mcqAnswer a; explanation := x |}.

Definition set_teacher (x : option conn) (s : Session) : Session :=
  {| ident := ident s; teacher := x; stage := stage s;
     currentQuestionIndex := currentQuestionIndex s;
     questions := questions s; students := students s |}.

Definition set_stage (x : session_stage) (s : Session) : Session :=
  {| ident := ident s; teacher := teacher s; stage := x;
     currentQuestionIndex := currentQuestionIndex s;
     questions := questions s; students := students s |}.

Definition set_currentQuestionIndex (x : Z) (s : Session) : Session :=
  {| ident := ident s; teacher := teacher s; stage := stage s;
     currentQuestionIndex := x;
     questions := questions s; students := students s |}.

Definition set_questions (x : list Question) (s : Session) : Session :=
  {| ident := ident s; teacher := teacher s; stage := stage s;
     currentQuestionIndex := currentQuestionIndex s;
     questions := x; students := students s |}.

Definition set_students (x : jsobj Student) (s : Session) : Session :=
  {| ident := ident s; teacher := teacher s; stage := stage s;
     currentQuestionIndex := currentQuestionIndex s;
     questions := questions s; students := x |}.

(** ** Messages *)

(** Inbound commands, decoded: a message that parses and whose payload has
    the fields its type needs; [sessionCode] and [studentId] are the
    property keys the handlers index with. [OTHER_TYPE] stands for every
    type no branch of the handler matches. *)
Inductive message :=
  | TEACHER_CREATE_SESSION
  | TEACHER_START_MCQ (sessionCode : string) (questionText options : jsval)
  | TEACHER_NEXT_EXPLANATION (sessionCode : string)
  | TEACHER_STOP_QUIZ (sessionCode : string)
  | TEACHER_CLOSE_PAGE (sessionCode : string)
  | TEACHER_DOWNLOAD_CSV (sessionCode : string)
  | TEACHER_REJOIN_SESSION (sessionCode : string)
  | STUDENT_JOIN_SESSION (sessionCode : string) (username : jsval)
  | STUDENT_SUBMIT_MCQ (sessionCode studentId : string) (answer : jsval)
  | STUDENT_EXPLANATION_UPDATE (sessionCode studentId : string) (explanation : jsval)
  | OTHER_TYPE.

(** Outbound events. *)
Inductive event :=
  | SESSION_CREATED (sessionCode : string)
  | MCQ_STARTED (questionText options : jsval)
  | SHOW_EXPLANATION_INPUT
  | QUIZ_STOPPED
  | JOINED_SESSION (studentId sessionCode : string) (stage : session_stage)
  | TEACHER_VIEW_UPDATE (sessionCode : string) (stage : session_stage)
      (questionText mcqOptions : jsval) (answers : list Answer)
      (studentNames : list jsval)
  | CSV_DATA (csv filename : string)
  | ERROR (message : string).

(** ** Sockets and the server state *)

Inductive ready_state := OPEN | CLOSING | CLOSED.

Record WebSocket := {
  readyState : ready_state;
  isAlive : bool
}.

(** What the server does to a socket. *)
Inductive action :=
  | Send (data : event)
  | Ping
  | Close
  | Terminate.

(** [sockets] holds every socket the server accepted, a connection being its
    index; [wss.clients] are those not yet [CLOSED]. [allocated] counts the
    Session objects made so far. [wire] is the log of socket actions. *)
Record state := {
  sessions : gmap string Session;
  allocated : nat;
  sockets : list WebSocket;
  totalUptime : Z;
  keepAliveInterval : bool;
  wire : list (conn * action)
}.

Definition set_sessions (x : gmap string Session) (st : state) : state :=
  {| sessions := x; allocated := allocated st; sockets := sockets st;
     totalUptime := totalUptime st; keepAliveInterval := keepAliveInterval st;
     wire := wire st |}.

Definition set_allocated (x : nat) (st : state) : state :=
  {| sessions := sessions st; allocated := x; sockets := sockets st;
     totalUptime := totalUptime st; keepAliveInterval := keepAliveInterval st;
     wire := wire st |}.

Definition set_sockets (x : list WebSocket) (st : state) : state :=
  {| sessions := sessions st; allocated := allocated st; sockets := x;
     totalUptime := totalUptime st; keepAliveInterval := keepAliveInterval st;
     wire := wire st |}.

Definition set_totalUptime (x : Z) (st : state) : state :=
  {| sessions := sessions st; allocated := allocated st; sockets := sockets st;
     totalUptime := x; keepAliveInterval := keepAliveInterval st;
     wire := wire st |}.

Definition set_keepAliveInterval (x : bool) (st : state) : state :=
  {| sessions := sessions st; allocated := allocated st; sockets := sockets st;
     totalUptime := totalUptime st; keepAliveInterval := x;
     wire := wire st |}.

Definition emit (ws : conn) (a : action) (st : state) : state :=
  {| sessions := sessions st; allocated := allocated st; sockets := sockets st;
     totalUptime := totalUptime st; keepAliveInterval := keepAliveInterval st;
     wire := wire st ++ [(ws, a)] |}.

Definition initial : state :=
  {| sessions := ∅; allocated := 0%nat; sockets := []; totalUptime := 0;
     keepAliveInterval := true; wire := [] |}.

(** What a handler reads from outside the program. *)
Record Date := {
  getFullYear : Z;
  getMonth : Z;
  getDate : Z;
  getHours : Z;
  getMinutes : Z;
  getSeconds : Z
}.

Record env := {
  randomBytes : byte * byte * byte;   (* crypto.randomBytes(3) *)
  now : Date                          (* new Date() *)
}.

(** A handler either returns or leaves the model: a [TypeError] nobody
    catches, or an assignment to a property of a built-in object. *)
Inductive fault := UncaughtTypeError | BuiltinWrite.

Inductive result (A : Type) :=
  | Ok (a : A)
  | Fault (f : fault).
Arguments Ok {A} a.
Arguments Fault {A} f.

(** ** The [ws] socket operations *)

Definition ready (st : state) (ws : conn) : ready_state :=
  match sockets st !! ws with
  | Some s => readyState s
  | None => CLOSED
  end.

Definition is_open (st : state) (ws : conn) : bool :=
  match ready st ws with OPEN => true | _ => false end.

(** [ws.close()]: an open socket starts the closing handshake. *)
Definition closing (s : WebSocket) : WebSocket :=
  match readyState s with
  | OPEN => {| readyState := CLOSING; isAlive := isAlive s |}
  | _ => s
  end.

Definition ws_close (ws : conn) (st : state) : state :=
  emit ws Close (set_sockets (alter closing ws (sockets st)) st).

(** [ws.terminate()]: the socket is destroyed without a handshake. *)
Definition ws_terminate (ws : conn) (st : state) : state :=
  emit ws Terminate (set_sockets (alter closing ws (sockets st)) st).

(** [ws.ping()] reaches the peer of an open socket only. *)
Definition ws_ping (ws : conn) (st : state) : state :=
  if is_open st ws then emit ws Ping st else st.

Definition set_isAlive (b : bool) (s : WebSocket) : WebSocket :=
  {| readyState := readyState s; isAlive := b |}.

(** ** The functions of server.js *)

(** Generate a 6-char uppercase hex code. *)
Definition generateSessionCode (e : env) : string :=
  let '(a, b, c) := randomBytes e in toUpperCase (hex [a; b; c]).

Definition generateStudentId (e : env) : string :=
  let '(a, b, c) := randomBytes e in hex [a; b; c].

(** Safely send JSON via WebSocket. *)
Definition sendJSON (ws : option conn) (data : event) (st : state) : state :=
  match ws with
  | Some w => if is_open st w then emit w (Send data) st else st
  | None => st
  end.

(** Broadcast to teacher + all students in a session. The handlers call it
    with the code of a session they found. *)
Definition broadcastToSession (sessionCode : string) (data : event) (st : state) : state :=
  match sessions st !! sessionCode with
  | None => st
  | Some session =>
      let st := sendJSON (teacher session) data st in
      fold_left (fun st stu => sendJSON (Some (stu_ws stu)) data st)
                (values (students session)) st
  end.

(** Gets the current question object (if any) in the session; the source
    takes the code and reads [sessions[sessionCode]] again, which is the
    session its callers hold. *)
Definition getCurrentQuestion (session : Session) : option Question :=
  let idx := currentQuestionIndex session in
  if (idx <? 0) || (idx >=? Z.of_nat (length (questions session))) then None
  else questions session !! Z.to_nat idx.

(** An assignment through the reference [getCurrentQuestion] returned. *)
Definition update_current (f : Question -> Question) (session : Session) : Session :=
  set_questions
    (alter f (Z.to_nat (currentQuestionIndex session)) (questions session))
    session.

Definition broadcastTeacherView (sessionCode : string) (st : state) : state :=
  match sessions st !! sessionCode with
  | None => st
  | Some session =>
      match teacher session with
      | None => st
      | Some _ =>
          let currentQ := getCurrentQuestion session in
          let questionText :=
            match currentQ with Some q => questionText q | None => JStr EmptyString end in
          let mcqOptions :=
            match currentQ with Some q => mcqOptions q | None => JNum 0 end in
          let answersArr :=
            match currentQ with Some q => values (answers q) | None => [] end in
          let studentNames := map stu_username (values (students session)) in
          sendJSON (teacher session)
            (TEACHER_VIEW_UPDATE sessionCode (stage session) questionText
               mcqOptions answersArr studentNames) st
      end
  end.

(** Create CSV with columns: Question#, QuestionText, Username, MCQAnswer,
    Explanation. The [for..in] over [q.answers] visits the own properties in
    enumeration order, [ans] being the value of each. *)
Definition csv_header : list jsval :=
  [JStr "Question #"; JStr "Question Text"; JStr "Username";
   JStr "MCQ Answer"; JStr "Explanation"].

Definition csv_field (val : jsval) : string :=
  String dquote (double_quotes (toString val) +:+ String dquote EmptyString).

Definition newline : string := String "010"%char EmptyString.

Definition generateCSV (session : Session) : string :=
  let rows := [csv_header] in
  let rows :=
    fold_left (fun rows q =>
      let qNum := JNum (questionNumber q) in
      let qTxt := questionText q in
      fold_left (fun rows '(studentId, ans) =>
        rows ++ [[qNum; qTxt;
                  JS.or (username ans) (JStr EmptyString);
                  JS.or (mcqAnswer ans) (JStr EmptyString);
                  JS.or (explanation ans) (JStr EmptyString)]])
        (answers q) rows)
      (questions session) rows in
  String.concat newline
    (map (fun r => String.concat "," (map csv_field r)) rows).

(** Simple timestamp for filename, e.g. 20230310-150501 *)
Definition getTimestampString (d : Date) : string :=
  let yyyy := toString (JNum (getFullYear d)) in
  let mm := padStart 2 "0" (toString (JNum (getMonth d + 1))) in
  let dd := padStart 2 "0" (toString (JNum (getDate d))) in
  let HH := padStart 2 "0" (toString (JNum (getHours d))) in
  let MM := padStart 2 "0" (toString (JNum (getMinutes d))) in
  let SS := padStart 2 "0" (toString (JNum (getSeconds d))) in
  yyyy +:+ mm +:+ dd +:+ "-" +:+ HH +:+ MM +:+ SS.

(** ** The message handlers *)

(** [sessions[sessionCode]] *)
Definition lookup_session (st : state) (sessionCode : string) : property Session :=
  read (sessions st !! sessionCode) sessionCode.

Definition store (sessionCode : string) (session : Session) (st : state) : state :=
  set_sessions (<[sessionCode := session]> (sessions st)) st.

(** The answer slot a question gets for a student. *)
Definition empty_slot (username : jsval) : Answer :=
  {| username := username; mcqAnswer := JNull; explanation := JStr EmptyString |}.

Definition new_session (id : nat) (ws : conn) : Session :=
  {| ident := id; teacher := Some ws; stage := WAITING;
     currentQuestionIndex := -1; questions := []; students := [] |}.

(** TEACHER_START_MCQ, on the session found. [questionObj] is the object
    pushed onto [questions]; its slots are filled by the loop over
    [Object.entries(session.students)]. *)
Definition start_mcq (questionText options : jsval) (session : Session) : Session :=
  let session := set_stage MCQ session in
  let session :=
    if 0 <=? currentQuestionIndex session then
      match getCurrentQuestion session with
      | Some prevQ =>
          match qstage prevQ with
          | QEXPLANATION => update_current (set_qstage QDONE) session
          | _ => session
          end
      | None => session
      end
    else session in
  let newQnum := Z.of_nat (length (questions session)) + 1 in
  let questionObj :=
    {| questionNumber := newQnum;
       questionText := JS.or questionText (JStr EmptyString);
       mcqOptions := options;
       qstage := QMCQ;
       answers :=
         fold_left (fun slots '(stuId, stu) =>
                      JS.set stuId (empty_slot (stu_username stu)) slots)
                   (students session) [] |} in
  let session := set_questions (questions session ++ [questionObj]) session in
  set_currentQuestionIndex (Z.of_nat (length (questions session)) - 1) session.

(** TEACHER_NEXT_EXPLANATION, on the session found. *)
Definition next_explanation (session : Session) : Session :=
  let session := set_stage EXPLANATION session in
  match getCurrentQuestion session with
  | Some curQ =>
      match qstage curQ with
      | QMCQ => update_current (set_qstage QEXPLANATION) session
      | _ => session
      end
  | None => session
  end.

(** STUDENT_JOIN_SESSION, on the session found. *)
Definition join (studentId : string) (username : jsval) (ws : conn)
    (session : Session) : Session :=
  let session :=
    set_students
      (JS.set studentId {| stu_username := username; stu_ws := ws |}
              (students session)) session in
  match getCurrentQuestion session with
  | Some curQ =>
      update_current
        (fun q => set_answers (JS.set studentId (empty_slot username) (answers q)) q)
        session
  | None => session
  end.

(** The common shape of STUDENT_SUBMIT_MCQ and STUDENT_EXPLANATION_UPDATE on
    the session found: [None] where the handler returns early, and a fault
    where [curQ.answers[studentId]] is a built-in, whose property the
    handler then assigns. *)
Definition submit (write : Answer -> Answer) (studentId : string)
    (session : Session) : result (option Session) :=
  match getCurrentQuestion session with
  | None => Ok None
  | Some curQ =>
      match JS.get (answers curQ) studentId with
      | Builtin => Fault BuiltinWrite
      | Own slot =>
          Ok (Some (update_current
                      (fun q => set_answers (JS.set studentId (write slot) (answers q)) q)
                      session))
      | Undefined =>
          (* Student joined late *)
          match JS.own (students session) studentId with
          | None => Ok None
          | Some stuInfo =>
              Ok (Some (update_current
                          (fun q => set_answers
                                      (JS.set studentId
                                         (write (empty_slot (stu_username stuInfo)))
                                         (answers q)) q)
                          session))
          end
      end
  end.

Definition close_students (session : Session) (st : state) : state :=
  fold_left (fun st stu => ws_close (stu_ws stu) st)
            (values (students session)) st.

(** The body of [ws.on("message", ...)] for a decoded message arriving on
    [ws]. A session code that names a built-in makes every handler throw
    when it reads [questions] or [students] of it. *)
Definition handle (ws : conn) (e : env) (m : message) (st : state) : result state :=
  match m with
  | TEACHER_CREATE_SESSION =>
      let code := generateSessionCode e in
      let st := store code (new_session (allocated st) ws) st in
      let st := set_allocated (S (allocated st)) st in
      Ok (sendJSON (Some ws) (SESSION_CREATED code) st)
  | TEACHER_START_MCQ sessionCode questionText options =>
      match lookup_session st sessionCode with
      | Undefined => Ok st
      | Builtin => Fault UncaughtTypeError
      | Own session =>
          let st := store sessionCode (start_mcq questionText options session) st in
          let st := broadcastToSession sessionCode
                      (MCQ_STARTED (JS.or questionText (JStr EmptyString)) options) st in
          Ok (broadcastTeacherView sessionCode st)
      end
  | TEACHER_NEXT_EXPLANATION sessionCode =>
      match lookup_session st sessionCode with
      | Undefined => Ok st
      | Builtin => Fault UncaughtTypeError
      | Own session =>
          let st := store sessionCode (next_explanation session) st in
          let st := broadcastToSession sessionCode SHOW_EXPLANATION_INPUT st in
          Ok (broadcastTeacherView sessionCode st)
      end
  | TEACHER_STOP_QUIZ sessionCode =>
      match lookup_session st sessionCode with
      | Undefined => Ok st
      | Builtin => Fault UncaughtTypeError
      | Own session =>
          let st := store sessionCode (set_stage STOPPED session) st in
          let st := broadcastToSession sessionCode QUIZ_STOPPED st in
          (* close student websockets *)
          let st := close_students session st in
          Ok (broadcastTeacherView sessionCode st)
      end
  | TEACHER_CLOSE_PAGE sessionCode =>
      match lookup_session st sessionCode with
      | Undefined => Ok st
      | Builtin => Fault UncaughtTypeError
      | Own session =>
          let st := store sessionCode (set_stage STOPPED session) st in
          let st := broadcastToSession sessionCode QUIZ_STOPPED st in
          (* close all students *)
          let st := close_students session st in
          Ok (set_sessions (delete sessionCode (sessions st)) st)
      end
  | TEACHER_DOWNLOAD_CSV sessionCode =>
      match lookup_session st sessionCode with
      | Undefined => Ok (sendJSON (Some ws) (ERROR "No such session.") st)
      | Builtin => Fault UncaughtTypeError
      | Own session =>
          let csvStr := generateCSV session in
          let ts := getTimestampString (now e) in
          let filename := "quiz_data_" +:+ sessionCode +:+ "_" +:+ ts +:+ ".csv" in
          Ok (sendJSON (Some ws) (CSV_DATA csvStr filename) st)
      end
  | TEACHER_REJOIN_SESSION sessionCode =>
      match lookup_session st sessionCode with
      | Undefined => Ok (sendJSON (Some ws) (ERROR "Session code not found") st)
      | Builtin => Fault UncaughtTypeError
      | Own session =>
          let st := store sessionCode (set_teacher (Some ws) session) st in
          Ok (broadcastTeacherView sessionCode st)
      end
  | STUDENT_JOIN_SESSION sessionCode username =>
      match lookup_session st sessionCode with
      | Undefined => Ok (sendJSON (Some ws) (ERROR "Invalid session code") st)
      | Builtin => Fault UncaughtTypeError
      | Own session =>
          let studentId := generateStudentId e in
          let st := store sessionCode (join studentId username ws session) st in
          let st := sendJSON (Some ws)
                      (JOINED_SESSION studentId sessionCode (stage session)) st in
          Ok (broadcastTeacherView sessionCode st)
      end
  | STUDENT_SUBMIT_MCQ sessionCode studentId answer =>
      match lookup_session st sessionCode with
      | Undefined => Ok st
      | Builtin => Fault UncaughtTypeError
      | Own session =>
          match submit (set_mcqAnswer answer) studentId session with
          | Fault f => Fault f
          | Ok None => Ok st
          | Ok (Some session) =>
              Ok (broadcastTeacherView sessionCode (store sessionCode session st))
          end
      end
  | STUDENT_EXPLANATION_UPDATE sessionCode studentId explanation =>
      match lookup_session st sessionCode with
      | Undefined => Ok st
      | Builtin => Fault UncaughtTypeError
      | Own session =>
          match submit (set_explanation explanation) studentId session with
          | Fault f => Fault f
          | Ok None => Ok st
          | Ok (Some session) =>
              Ok (broadcastTeacherView sessionCode (store sessionCode session st))
          end
      end
  | OTHER_TYPE => Ok st
  end.

(** ** The keep-alive supervisor *)

Definition KEEP_ALIVE_INTERVAL : Z := 30000.      (* 30s *)
Definition MAX_DURATION : Z := 60 * 60000.        (* 60 min *)

(** [wss.clients], in the order the connections were accepted. *)
Definition clients (st : state) : list conn :=
  List.filter (fun ws => match ready st ws with CLOSED => false | _ => true end)
              (seq 0 (length (sockets st))).

Definition probe (st : state) (ws : conn) : state :=
  match sockets st !! ws with
  | None => st
  | Some s =>
      if negb (isAlive s) then ws_terminate ws st
      else ws_ping ws (set_sockets (alter (set_isAlive false) ws (sockets st)) st)
  end.

(** The callback of [setInterval]. *)
Definition keepAlive (st : state) : state :=
  let st := set_totalUptime (totalUptime st + KEEP_ALIVE_INTERVAL) st in
  if totalUptime st >=? MAX_DURATION then
    (* forcibly close all websockets *)
    let st := fold_left (fun st ws => ws_close ws st) (clients st) st in
    set_keepAliveInterval false st
  else fold_left probe (clients st) st.

(** ** The event loop *)

(** What the runtime delivers to the program: a new connection, a message
    on a socket, a pong, the close of a socket, a tick of the interval. *)
Inductive input :=
  | Connection
  | Message (ws : conn) (e : env) (m : message)
  | Pong (ws : conn)
  | Closed (ws : conn)
  | Interval.

(** A new socket is open and marked alive; messages and pongs are
    delivered on sockets that are not closed. *)
Definition step (st : state) (i : input) : result state :=
  match i with
  | Connection =>
      Ok (set_sockets (sockets st ++ [{| readyState := OPEN; isAlive := true |}]) st)
  | Message ws e m =>
      match ready st ws with
      | CLOSED => Ok st
      | _ => handle ws e m st
      end
  | Pong ws =>
      match ready st ws with
      | CLOSED => Ok st
      | _ => Ok (set_sockets (alter (set_isAlive true) ws (sockets st)) st)
      end
  | Closed ws =>
      Ok (set_sockets
            (alter (fun s => {| readyState := CLOSED; isAlive := isAlive s |}) ws
                   (sockets st)) st)
  | Interval =>
      if keepAliveInterval st then Ok (keepAlive st) else Ok st
  end.

Fixpoint run (st : state) (inputs : list input) : result state :=
  match inputs with
  | [] => Ok st
  | i :: inputs =>
      match step st i with
      | Ok st => run st inputs
      | Fault f => Fault f
      end
  end.

Inductive reachable : state -> Prop :=
  | reachable_initial : reachable initial
  | reachable_step st i st' :
      reachable st -> step st i = Ok st' -> reachable st'.

(** * The static server and its [.env] loader

    The second program of the repository ([src/unnamed/part_000]) serves
    the static pages; before it starts it loads [.env] into [process.env].
    Strings are sequences of code units below 256; [process.env] is a
    dictionary of strings with case-sensitive names (as on POSIX systems)
    that, like every object, inherits the names of [Object.prototype]. *)

(** ** String methods *)

(** The white space [trim] removes, among the code units below 256: tab,
    line feed, vertical tab, form feed, carriage return, space, no-break
    space. *)
Definition is_space (c : ascii) : bool :=
  let n := N_of_ascii c in
  ((9 <=? n) && (n <=? 13) || (n =? 32) || (n =? 160))%N.

Fixpoint trimStart (s : string) : string :=
  match s with
  | EmptyString => EmptyString
  | String c r => if is_space c then trimStart r else s
  end.

Fixpoint trimEnd (s : string) : string :=
  match s with
  | EmptyString => EmptyString
  | String c r =>
      match trimEnd r with
      | EmptyString => if is_space c then EmptyString else String c EmptyString
      | r' => String c r'
      end
  end.

(** [s.trim()] *)
Definition trim (s : string) : string := trimEnd (trimStart s).

(** [s.slice(0, n)] and [s.slice(n)], for [n] within the string. *)
Fixpoint take (n : nat) (s : string) : string :=
  match n, s with
  | S k, String c r => String c (take k r)
  | _, _ => EmptyString
  end.

Fixpoint drop (n : nat) (s : string) : string :=
  match n, s with
  | S k, String c r => drop k r
  | _, _ => s
  end.

(** [s.startsWith(c)] and [s.endsWith(c)] for a one-character [c]. *)
Definition startsWith (c : ascii) (s : string) : bool :=
  match s with
  | String c' _ => Ascii.eqb c' c
  | EmptyString => false
  end.

Fixpoint endsWith (c : ascii) (s : string) : bool :=
  match s with
  | EmptyString => false
  | String c' EmptyString => Ascii.eqb c' c
  | String _ r => endsWith c r
  end.

(** [s.indexOf(c)] for a one-character [c]; [None] stands for -1. *)
Fixpoint indexOf (c : ascii) (s : string) : option nat :=
  match s with
  | EmptyString => None
  | String c' r => if Ascii.eqb c' c then Some 0%nat else S <$> indexOf c r
  end.

Definition LF : ascii := "010"%char.
Definition CR : ascii := "013"%char.
Definition squote : ascii := "039"%char.

(** [raw.split(/\r?\n/)]: a line ends at a line feed, which takes a carriage
    return right before it along. *)
Fixpoint split_lines (raw : string) : list string :=
  match raw with
  | EmptyString => [EmptyString]
  | String c r =>
      let continue :=
        match split_lines r with
        | line :: lines => String c line :: lines
        | [] => [String c EmptyString]
        end in
      if Ascii.eqb c LF then EmptyString :: split_lines r
      else if Ascii.eqb c CR then
        match r with
        | String c' r' =>
            if Ascii.eqb c' LF then EmptyString :: split_lines r' else continue
        | EmptyString => continue
        end
      else continue
  end.

(** ** [loadEnvFile] *)

(** The callback of [forEach]: what one line does to [process.env]. *)
Definition loadEnvLine (process_env : gmap string string) (line : string)
  : gmap string string :=
  let trimmed := trim line in
  if String.eqb trimmed EmptyString || startsWith "#" trimmed then process_env
  else
    match indexOf "=" trimmed with
    | None => process_env
    | Some idx =>
        let key := trim (take idx trimmed) in
        if String.eqb key EmptyString then process_env
        else
          let value := trim (drop (S idx) trimmed) in
          let value :=
            if startsWith dquote value && endsWith dquote value
               || startsWith squote value && endsWith squote value
            then take (String.length value - 2) (drop 1 value)
            else value in
          match JS.read (process_env !! key) key with
          | Undefined => <[key := value]> process_env
          | _ => process_env
          end
    end.

(** [file] is what [fs.readFileSync] returns, [None] when it throws: the
    [catch] ignores a missing or unreadable file. *)
Definition loadEnvFile (file : option string) (process_env : gmap string string)
  : gmap string string :=
  match file with
  | Some raw => fold_left loadEnvLine (split_lines raw) process_env
  | None => process_env
  end.

(** * Vocabulary of the properties

    Invariants, observations and concrete runs the properties below are
    stated with. *)

(** ** Enumeration order of a dictionary *)

(** The order in which the own keys of a dictionary are enumerated: every
    array index before every other key, the array indices ascending. *)
Definition precedes (k k' : string) : Prop :=
  match array_index k, array_index k' with
  | Some n, Some n' => (n <= n')%N
  | Some _, None => True
  | None, Some _ => False
  | None, None => True
  end.

Fixpoint enumeration_order (l : list string) : Prop :=
  match l with
  | [] => True
  | k :: r => (forall k', k' ∈ r -> precedes k k') /\ enumeration_order r
  end.

(** ** The CSV export *)








(** The file name of an export. *)
Definition csv_filename (sessionCode : string) (e : env) : string :=
  "quiz_data_" +:+ sessionCode +:+ "_" +:+ getTimestampString (now e) +:+ ".csv".

(** ** Invariants *)

Definition question_ok (studs : jsobj Student) (q : Question) : Prop :=
  NoDup (keys (answers q)) /\
  enumeration_order (keys (answers q)) /\
  (forall k, k ∈ keys (answers q) -> k ∈ keys studs).

Record session_ok (s : Session) : Prop := {
  ok_index : currentQuestionIndex s = Z.of_nat (length (questions s)) - 1;
  ok_numbers :
    forall i q, questions s !! i = Some q -> questionNumber q = Z.of_nat i + 1;
  ok_students_nodup : NoDup (keys (students s));
  ok_students_order : enumeration_order (keys (students s));
  ok_questions : Forall (question_ok (students s)) (questions s);
  ok_current :
    forall q k, getCurrentQuestion s = Some q ->
                k ∈ keys (students s) -> k ∈ keys (answers q)
}.

(** The slots TEACHER_START_MCQ gives the new question: one per student. *)
Definition fill_slots (studs : jsobj Student) (slots : jsobj Answer) : jsobj Answer :=
  fold_left (fun slots '(stuId, stu) =>
               JS.set stuId (empty_slot (stu_username stu)) slots) studs slots.

Record state_ok (st : state) : Prop := {
  ok_sessions : forall c s, sessions st !! c = Some s -> session_ok s;
  ok_codes : forall c s, sessions st !! c = Some s -> inherited c = false;
  ok_allocated : forall c s, sessions st !! c = Some s -> (ident s < allocated st)%nat;
  ok_ident :
    forall c c' s s', sessions st !! c = Some s -> sessions st !! c' = Some s' ->
                      ident s = ident s' -> c = c'
}.

(** ** What a handler does *)

(** Sending touches nothing but the wire. *)
Definition only_wire (st st' : state) : Prop :=
  sessions st' = sessions st /\ allocated st' = allocated st /\
  sockets st' = sockets st /\ totalUptime st' = totalUptime st /\
  keepAliveInterval st' = keepAliveInterval st.

(** The session code a message names. *)
Definition target (m : message) : option string :=
  match m with
  | TEACHER_CREATE_SESSION | OTHER_TYPE => None
  | TEACHER_START_MCQ c _ _ | TEACHER_NEXT_EXPLANATION c | TEACHER_STOP_QUIZ c
  | TEACHER_CLOSE_PAGE c | TEACHER_DOWNLOAD_CSV c | TEACHER_REJOIN_SESSION c
  | STUDENT_JOIN_SESSION c _ | STUDENT_SUBMIT_MCQ c _ _
  | STUDENT_EXPLANATION_UPDATE c _ _ => Some c
  end.

(** The session a handler stores in place of the one it found. *)
Definition session_update (ws : conn) (e : env) (m : message) (s s' : Session) : Prop :=
  match m with
  | TEACHER_START_MCQ _ questionText options => s' = start_mcq questionText options s
  | TEACHER_NEXT_EXPLANATION _ => s' = next_explanation s
  | TEACHER_STOP_QUIZ _ => s' = set_stage STOPPED s
  | TEACHER_REJOIN_SESSION _ => s' = set_teacher (Some ws) s
  | STUDENT_JOIN_SESSION _ username => s' = join (generateStudentId e) username ws s
  | STUDENT_SUBMIT_MCQ _ studentId answer =>
      submit (set_mcqAnswer answer) studentId s = Ok (Some s')
  | STUDENT_EXPLANATION_UPDATE _ studentId explanation =>
      submit (set_explanation explanation) studentId s = Ok (Some s')
  | _ => False
  end.

Inductive registry_change (ws : conn) (e : env) (m : message) (st st' : state) : Prop :=
  | change_none :
      sessions st' = sessions st -> allocated st' = allocated st ->
      registry_change ws e m st st'
  | change_create :
      m = TEACHER_CREATE_SESSION ->
      sessions st' =
        <[generateSessionCode e := new_session (allocated st) ws]> (sessions st) ->
      allocated st' = S (allocated st) ->
      registry_change ws e m st st'
  | change_delete c s :
      m = TEACHER_CLOSE_PAGE c -> sessions st !! c = Some s ->
      sessions st' = delete c (sessions st) -> allocated st' = allocated st ->
      registry_change ws e m st st'
  | change_update c s s' :
      target m = Some c -> sessions st !! c = Some s ->
      session_update ws e m s s' ->
      sessions st' = <[c := s']> (sessions st) -> allocated st' = allocated st ->
      registry_change ws e m st st'.

(** The snapshot [broadcastTeacherView] builds from a session. *)
Definition teacher_view (sessionCode : string) (session : Session) : event :=
  match getCurrentQuestion session with
  | Some q =>
      TEACHER_VIEW_UPDATE sessionCode (stage session) (questionText q) (mcqOptions q)
        (values (answers q)) (map stu_username (values (students session)))
  | None =>
      TEACHER_VIEW_UPDATE sessionCode (stage session) (JStr EmptyString) (JNum 0) []
        (map stu_username (values (students session)))
  end.

(** ** The supervisor and the sockets *)

(** What one probing cycle does to a client's socket. *)
Definition probe_socket (s : WebSocket) : WebSocket :=
  if negb (isAlive s) then closing s else set_isAlive false s.

(** The wire only grows. *)
Definition wire_grows (st st' : state) : Prop :=
  exists more, wire st' = wire st ++ more.

(** An action put on the wire between two states. *)
Definition sent_since (st st' : state) (x : conn * action) : Prop :=
  exists more, wire st' = wire st ++ more /\ x ∈ more.

(** The supervisor's own actions on the wire. *)
Definition is_probe (x : conn * action) : bool :=
  match snd x with
  | Ping | Terminate => true
  | _ => false
  end.

Definition probes (st : state) : list (conn * action) :=
  List.filter is_probe (wire st).

(** What a message handler leaves to the supervisor: the uptime and the
    timer are untouched, sockets are at most closed, no probe is sent. *)
Record handler_frame (st st' : state) : Prop := {
  frame_uptime : totalUptime st' = totalUptime st;
  frame_timer : keepAliveInterval st' = keepAliveInterval st;
  frame_sockets :
    forall w, sockets st' !! w = sockets st !! w \/
              sockets st' !! w = closing <$> sockets st !! w;
  frame_probes : probes st' = probes st
}.

(** For a socket that exists: if the supervisor has stopped, the socket is
    not open. *)
Definition swept (st : state) (ws : conn) : Prop :=
  exists s, sockets st !! ws = Some s /\
            (keepAliveInterval st = false -> readyState s <> OPEN).

(** Not open, or marked not alive: kept by every input but the socket's own
    pong. *)
Definition unconfirmed (st : state) (ws : conn) : Prop :=
  exists s, sockets st !! ws = Some s /\
            (readyState s <> OPEN \/ isAlive s = false).

(** The uptime is a whole number of intervals, the supervisor runs below
    the ceiling and has stopped exactly at it. *)
Definition uptime_ok (st : state) : Prop :=
  exists n, 0 <= n <= 120 /\ totalUptime st = n * KEEP_ALIVE_INTERVAL /\
            (keepAliveInterval st = true <-> n < 120).

(** ** The start-question commands of a session *)

Definition is_start (m : message) : bool :=
  match m with
  | TEACHER_START_MCQ _ _ _ => true
  | _ => false
  end.

(** 1 when the input is a TEACHER_START_MCQ handled on the session object of
    identity [id], else 0. *)
Definition started (st : state) (inp : input) (id : nat) : nat :=
  match inp with
  | Message ws e m =>
      match ready st ws with
      | CLOSED => 0
      | _ =>
          match target m with
          | Some c =>
              match sessions st !! c with
              | Some s => if Nat.eqb (ident s) id && is_start m then 1 else 0
              | None => 0
              end
          | None => 0
          end
      end
  | _ => 0
  end%nat.

(** The number of start-question commands a run handles on a session. *)
Fixpoint starts (st : state) (inputs : list input) (id : nat) : nat :=
  match inputs with
  | [] => 0
  | inp :: inputs =>
      started st inp id +
      match step st inp with
      | Ok st' => starts st' inputs id
      | Fault _ => 0
      end
  end%nat.

(** ** The participants of a question *)





(** ** Concrete runs *)

(** The state a run from the initial state ends in. *)
Definition final (inputs : list input) : state :=
  match run initial inputs with
  | Ok st => st
  | Fault _ => initial
  end.

(** The session the registry of a run's final state holds under a code. *)
Definition session_at (r : result state) (sessionCode : string) : option Session :=
  match r with
  | Ok st => sessions st !! sessionCode
  | Fault _ => None
  end.


Definition mcq_answers (s : Session) : list (list (string * jsval)) :=
  map (fun q => map (fun '(k, a) => (k, mcqAnswer a)) (answers q)) (questions s).

Definition example_date : Date :=
  {| getFullYear := 2023; getMonth := 2; getDate := 10;
     getHours := 15; getMinutes := 5; getSeconds := 1 |}.

Definition with_bytes (a b c : byte) : env :=
  {| randomBytes := (a, b, c); now := example_date |}.

(** One open connection and nothing else. *)
Definition one_connection : state :=
  set_sockets [{| readyState := OPEN; isAlive := true |}] initial.

(** A connection that is accepted and never answers: two ticks. *)
Definition silent_peer : state :=
  match run one_connection [Interval; Interval] with
  | Ok st => st
  | Fault _ => one_connection
  end.

(** A teacher (connection 0) creates a session and starts a question; Sam
    (connection 1) joins and gets the id abcdef; Bob (connection 2) joins
    after Sam and gets the id 123456. *)
Definition sam_joins : list input :=
  [ Connection; Connection; Connection;
    Message 0%nat (with_bytes xab x12 xc3) TEACHER_CREATE_SESSION;
    Message 0%nat (with_bytes x00 x00 x00)
      (TEACHER_START_MCQ "AB12C3" (JStr "2+2?") (JNum 4));
    Message 1%nat (with_bytes xab xcd xef)
      (STUDENT_JOIN_SESSION "AB12C3" (JStr "Sam")) ].

Definition bob_joins : list input :=
  [ Message 2%nat (with_bytes x12 x34 x56)
      (STUDENT_JOIN_SESSION "AB12C3" (JStr "Bob")) ].

(** The session after Sam and Bob joined. *)
Definition sam_and_bob : Session :=
  {| ident := 0; teacher := Some 0%nat; stage := MCQ; currentQuestionIndex := 0;
     questions :=
       [ {| questionNumber := 1; questionText := JStr "2+2?"; mcqOptions := JNum 4;
            qstage := QMCQ;
            answers := [ ("123456", empty_slot (JStr "Bob"));
                         ("abcdef", empty_slot (JStr "Sam")) ] |} ];
     students := [ ("123456", {| stu_username := JStr "Bob"; stu_ws := 2%nat |});
                   ("abcdef", {| stu_username := JStr "Sam"; stu_ws := 1%nat |}) ] |}.



(** A teacher creates a session and starts a question in it; a second
    teacher then creates a session and [crypto.randomBytes] returns the same
    three bytes. *)
Definition first_teacher : list input :=
  [ Connection; Connection;
    Message 0%nat (with_bytes xab x12 xc3) TEACHER_CREATE_SESSION;
    Message 0%nat (with_bytes x00 x00 x00)
      (TEACHER_START_MCQ "AB12C3" (JStr "2+2?") (JNum 4)) ].

Definition second_teacher : list input :=
  [ Message 1%nat (with_bytes xab x12 xc3) TEACHER_CREATE_SESSION ].

(** A quiz with one question and one student, stopped by the teacher. *)
Definition stopped_quiz : list input :=
  [ Connection; Connection; Connection;
    Message 0%nat (with_bytes xab x12 xc3) TEACHER_CREATE_SESSION;
    Message 1%nat (with_bytes xab xcd xef)
      (STUDENT_JOIN_SESSION "AB12C3" (JStr "Sam"));
    Message 0%nat (with_bytes x00 x00 x00)
      (TEACHER_START_MCQ "AB12C3" (JStr "2+2?") (JNum 4));
    Message 0%nat (with_bytes x00 x00 x00) (TEACHER_STOP_QUIZ "AB12C3") ].

(** After the stop: a student joins on the still open connection 2 and
    submits an answer, and the teacher starts another question. *)
Definition after_stop_join : list input :=
  [ Message 2%nat (with_bytes x12 x34 x56)
      (STUDENT_JOIN_SESSION "AB12C3" (JStr "Bob")) ].

Definition after_stop_submit : list input :=
  [ Message 2%nat (with_bytes x00 x00 x00)
      (STUDENT_SUBMIT_MCQ "AB12C3" "123456" (JNum 3)) ].

Definition after_stop_start : list input :=
  [ Message 0%nat (with_bytes x00 x00 x00)
      (TEACHER_START_MCQ "AB12C3" (JStr "3+3?") (JNum 4)) ].

(** ** Reading a generated code back *)

Definition is_upper_hex (c : ascii) : bool :=
  let n := N_of_ascii c in
  ((48 <=? n) && (n <=? 57) || (65 <=? n) && (n <=? 70))%N.

Definition is_lower_hex (c : ascii) : bool :=
  let n := N_of_ascii c in
  ((48 <=? n) && (n <=? 57) || (97 <=? n) && (n <=? 102))%N.

Fixpoint all_chars (p : ascii -> bool) (s : string) : bool :=
  match s with
  | EmptyString => true
  | String c r => p c && all_chars p r
  end.

(** The value of a hexadecimal digit of either case. *)
Definition hex_value (c : ascii) : option N :=
  let n := N_of_ascii c in
  if ((48 <=? n) && (n <=? 57))%N then Some (n - 48)%N
  else if ((97 <=? n) && (n <=? 102))%N then Some (n - 87)%N
  else if ((65 <=? n) && (n <=? 70))%N then Some (n - 55)%N
  else None.

Definition unhex_byte (hi lo : ascii) : option byte :=
  match hex_value hi, hex_value lo with
  | Some h, Some l => Byte.of_N (16 * h + l)
  | _, _ => None
  end.

(** The three bytes a six-digit code spells. *)
Definition unhex3 (s : string) : option (byte * byte * byte) :=
  match s with
  | String a1 (String a2 (String b1 (String b2 (String c1 (String c2 EmptyString))))) =>
      match unhex_byte a1 a2, unhex_byte b1 b2, unhex_byte c1 c2 with
      | Some a, Some b, Some c => Some (a, b, c)
      | _, _, _ => None
      end
  | _ => None
  end.

(** The two digits [buf.toString] spells a byte with. *)
Definition hi_digit (b : byte) : ascii := hex_digit (Byte.to_N b / 16).
Definition lo_digit (b : byte) : ascii := hex_digit (Byte.to_N b mod 16).


(** ** Who a handler writes to *)

(** The sockets of the students of a session, in enumeration order. *)
Definition student_sockets (s : Session) : list conn :=
  map stu_ws (values (students s)).

(** The connections of a session: its teacher, then its students. *)
Definition members (s : Session) : list conn :=
  match teacher s with Some w => [w] | None => [] end ++ student_sockets s.

(** The wire grows by entries that all satisfy [P]. *)
Definition writes (P : conn * action -> Prop) (st st' : state) : Prop :=
  exists more, wire st' = wire st ++ more /\ Forall P more.

(** What the handler of message [m], arrived on [ws] in state [st], may put
    on the wire: an event for the caller or for a member of the session the
    message names, on a socket that is open; the closing of a student of
    the session a stop or close-page names. *)
Definition addressee (st : state) (ws : conn) (m : message) (x : conn * action) : Prop :=
  match snd x with
  | Send _ =>
      is_open st (fst x) = true /\
      (fst x = ws \/
       exists c s, target m = Some c /\ sessions st !! c = Some s /\ fst x ∈ members s)
  | Close =>
      exists c s, (m = TEACHER_STOP_QUIZ c \/ m = TEACHER_CLOSE_PAGE c) /\
                  sessions st !! c = Some s /\ fst x ∈ student_sockets s
  | Ping | Terminate => False
  end.

(** ** The roster of a question *)

(** The ids of a dictionary of answer records, or of students, each with
    the user name it carries, in enumeration order. *)
Definition relabel {V W} (g : V -> W) (o : jsobj V) : jsobj W :=
  map (fun '(k, v) => (k, g v)) o.

Definition answer_names (o : jsobj Answer) : jsobj jsval := relabel username o.

Definition student_names (o : jsobj Student) : jsobj jsval := relabel stu_username o.

(** The answer records of the current question are those of the students. *)
Definition roster_ok (s : Session) : Prop :=
  forall q, getCurrentQuestion s = Some q ->
            answer_names (answers q) = student_names (students s).

(** ** The history of a question *)

Definition stage_rank (x : question_stage) : nat :=
  match x with
  | QMCQ => 0
  | QEXPLANATION => 1
  | QDONE => 2
  end.

(** [s'] continues [s]: no question is removed or moved; a question keeps
    its number, text and options, and its stage only advances; a question
    that is not the last one of [s] is unchanged, answers included. *)
Definition continues (s s' : Session) : Prop :=
  forall i q, questions s !! i = Some q ->
    exists q', questions s' !! i = Some q' /\
      questionNumber q' = questionNumber q /\
      questionText q' = questionText q /\
      mcqOptions q' = mcqOptions q /\
      (stage_rank (qstage q) <= stage_rank (qstage q'))%nat /\
      (S i < length (questions s) -> q' = q)%nat.

(** A quiz of two questions: Sam and Bob join the first, then the teacher
    starts a second one. *)
Definition two_questions : list input :=
  sam_joins ++ bob_joins ++ after_stop_start.

(** ** The inputs that concern a session code *)

(** A message that names the code, or a creation that generates it. *)
Definition touches (c : string) (i : input) : bool :=
  match i with
  | Message ws e m =>
      match target m with
      | Some c' => String.eqb c' c
      | None =>
          match m with
          | TEACHER_CREATE_SESSION => String.eqb (generateSessionCode e) c
          | _ => false
          end
      end
  | _ => false
  end.

(** A TEACHER_CLOSE_PAGE for the code. *)
Definition closes (c : string) (i : input) : bool :=
  match i with
  | Message ws e (TEACHER_CLOSE_PAGE c') => String.eqb c' c
  | _ => false
  end.

(** While Sam and Bob sit in AB12C3: a fourth connection creates the
    session 000001 and runs a question in it, the supervisor ticks, Sam's
    socket closes, the other teacher closes the page. *)
Definition elsewhere : list input :=
  [ Connection;
    Message 3%nat (with_bytes x00 x00 x01) TEACHER_CREATE_SESSION;
    Message 3%nat (with_bytes x00 x00 x00)
      (TEACHER_START_MCQ "000001" (JStr "1+1?") (JNum 2));
    Interval;
    Closed 1%nat;
    Message 3%nat (with_bytes x00 x00 x00) (TEACHER_CLOSE_PAGE "000001") ].

(** ** The ticks of a run *)

Definition is_tick (i : input) : bool :=
  match i with
  | Interval => true
  | _ => false
  end.

Definition ticks (inputs : list input) : nat := length (List.filter is_tick inputs).

(** What a probing cycle may put on the wire, given the sockets as they
    were when it began: a terminate for a client not marked alive, a ping
    for an open client marked alive. *)
Definition probe_entry (st : state) (x : conn * action) : Prop :=
  exists s, sockets st !! fst x = Some s /\ readyState s <> CLOSED /\
    match snd x with
    | Terminate => isAlive s = false
    | Ping => isAlive s = true /\ readyState s = OPEN
    | _ => False
    end.

(** ** Messages that index with plain keys *)





(** ** Reading a timestamp back *)

(** The dates of the calendar whose year has four digits; [getMonth] counts
    from 0. *)
Definition calendar (d : Date) : Prop :=
  1000 <= getFullYear d <= 9999 /\ 0 <= getMonth d <= 11 /\
  1 <= getDate d <= 31 /\ 0 <= getHours d <= 23 /\
  0 <= getMinutes d <= 59 /\ 0 <= getSeconds d <= 59.

(** The number a string of decimal digits spells. *)
Definition number (s : string) : option Z :=
  Z.of_uint <$> NilZero.uint_of_string s.

(** A field of [n] digits at the head of [s], and the rest. *)
Definition read_field (n : nat) (s : string) : option (Z * string) :=
  if Nat.eqb (String.length (take n s)) n
  then (fun z => (z, drop n s)) <$> number (take n s)
  else None.

Definition read_dash (s : string) : option string :=
  match s with
  | String c r => if Ascii.eqb c "-" then Some r else None
  | EmptyString => None
  end.

(** yyyymmdd-HHMMSS, read back as a date. *)
Definition parse_timestamp (ts : string) : option Date :=
  '(yyyy, r) ← read_field 4 ts;
  '(mm, r) ← read_field 2 r;
  '(dd, r) ← read_field 2 r;
  r ← read_dash r;
  '(HH, r) ← read_field 2 r;
  '(MM, r) ← read_field 2 r;
  '(SS, r) ← read_field 2 r;
  match r with
  | EmptyString =>
      Some {| getFullYear := yyyy; getMonth := mm - 1; getDate := dd;
              getHours := HH; getMinutes := MM; getSeconds := SS |}
  | _ => None
  end.

(** The check behind the round trip: [s] has the width and spells [n]. *)
Definition spells (width : nat) (n : Z) (s : string) : bool :=
  Nat.eqb (String.length s) width &&
  match number s with
  | Some z => z =? n
  | None => false
  end.

(** ** The header line of an export *)



(** ** What a handler sends *)

(** The teacher view of a session, for its teacher if the socket is open. *)
Definition view_entry (st : state) (sessionCode : string) (session : Session)
  : list (conn * action) :=
  match teacher session with
  | Some w =>
      if is_open st w then [(w, Send (teacher_view sessionCode session))] else []
  | None => []
  end.

(** An event for every member of a session whose socket is open. *)
Definition broadcast_entries (st : state) (session : Session) (data : event)
  : list (conn * action) :=
  map (fun w => (w, Send data)) (List.filter (is_open st) (members session)).

(** ** Lines of a [.env] file *)

(** Made of white space only. *)
Definition blank (w : string) : bool := all_chars is_space w.

(** Without the character [c]. *)
Definition no_char (c : ascii) (s : string) : bool :=
  all_chars (fun c' => negb (Ascii.eqb c' c)) s.

(** [s] without the carriage return at its end, if it has one. *)
Fixpoint chomp (s : string) : string :=
  match s with
  | EmptyString => EmptyString
  | String c EmptyString => if Ascii.eqb c CR then EmptyString else s
  | String c r => String c (chomp r)
  end.

(** The value of an assignment, without the quotes around it. *)
Definition unquote (value : string) : string :=
  if startsWith dquote value && endsWith dquote value
     || startsWith squote value && endsWith squote value
  then take (String.length value - 2) (drop 1 value)
  else value.

(** An environment with PORT set, and a file that sets PORT and two more
    variables, with CRLF line ends. *)
Definition example_env : gmap string string := {[ "PORT" := "8080" ]}.

Definition example_file : string :=
  String.concat (String CR (String LF EmptyString))
    [ "# Supabase"; "PORT=3000"; " PROJECT_URL = https://x.supabase.co ";
      "ANON_KEY='a b=c'"; "PROJECT_URL=other" ].

(** ** What reaches a socket *)

(** An event or a ping goes to a socket that is open; the closing and the
    termination of a socket are not restricted. *)
Definition to_open (st : state) (x : conn * action) : Prop :=
  match snd x with
  | Send _ | Ping => is_open st (fst x) = true
  | Close | Terminate => True
  end.

(** Messages that arrive on the connection of [silent_peer] after the
    supervisor has terminated it. *)
Definition late_messages : list input :=
  [ Message 0%nat (with_bytes xab x12 xc3) TEACHER_CREATE_SESSION;
    Message 0%nat (with_bytes x00 x00 x00)
      (TEACHER_START_MCQ "AB12C3" (JStr "2+2?") (JNum 4));
    Interval ].

(** * Properties *)

(** ** Dictionary objects *)

Section ObjFacts.
Context {V : Type}.
Implicit Types (o : jsobj V) (k : string) (v : V).

Lemma own_None_keys o k : own o k = None <-> k ∉ keys o.
Proof.
  induction o as [|[k' v'] o IH]; simpl.
  - split; [intros _ H; inversion H | done].
  - destruct (String.eqb_spec k' k) as [->|Hne].
    + split; [done | intros H; exfalso; apply H; left].
    + rewrite IH. split.
      * intros H Hin. apply elem_of_cons in Hin as [?|?]; [congruence | done].
      * intros H Hin. apply H. by right.
Qed.

Lemma own_Some_keys o k v : own o k = Some v -> k ∈ keys o.
Proof.
  intros H. destruct (decide (k ∈ keys o)) as [|Hn]; [done|].
  apply own_None_keys in Hn. congruence.
Qed.

Lemma own_replace_eq o k v : own (replace k v o) k = (fun _ => v) <$> own o k.
Proof.
  induction o as [|[k' v'] o IH]; simpl; [done|].
  destruct (String.eqb_spec k' k) as [->|Hne]; simpl.
  - by rewrite String.eqb_refl.
  - destruct (String.eqb_spec k' k); [done|]. apply IH.
Qed.

Lemma own_replace_ne o k k' v : k ≠ k' -> own (replace k v o) k' = own o k'.
Proof.
  intros Hne. induction o as [|[k0 v0] o IH]; simpl; [done|].
  destruct (String.eqb_spec k0 k) as [->|Hne0]; simpl.
  - destruct (String.eqb_spec k k'); [done|].
    destruct (String.eqb_spec k k'); done.
  - destruct (String.eqb_spec k0 k'); [done | apply IH].
Qed.

Lemma keys_replace o k v : keys (replace k v o) = keys o.
Proof.
  induction o as [|[k' v'] o IH]; simpl; [done|].
  destruct (String.eqb_spec k' k) as [->|Hne]; simpl; [done|].
  by rewrite IH.
Qed.

Lemma own_insert_index_eq o n k v :
  own o k = None -> own (insert_index n k v o) k = Some v.
Proof.
  induction o as [|[k' v'] o IH]; simpl.
  - by rewrite String.eqb_refl.
  - destruct (String.eqb_spec k' k) as [->|Hne]; [done|]. intros Ho.
    destruct (array_index k') as [n'|]; [destruct (n <? n')%N|]; simpl;
      rewrite ?String.eqb_refl; try done.
    destruct (String.eqb_spec k' k); [done | auto].
Qed.

Lemma own_insert_index_ne o n k k' v :
  k ≠ k' -> own (insert_index n k v o) k' = own o k'.
Proof.
  intros Hne. induction o as [|[k0 v0] o IH]; simpl.
  - by destruct (String.eqb_spec k k').
  - destruct (array_index k0) as [n'|]; [destruct (n <? n')%N|]; simpl;
      try (destruct (String.eqb_spec k k'); done).
    destruct (String.eqb_spec k0 k'); [done | apply IH].
Qed.

Lemma keys_insert_index o n k v :
  keys (insert_index n k v o) ≡ₚ k :: keys o.
Proof.
  induction o as [|[k' v'] o IH]; simpl; [done|].
  destruct (array_index k') as [n'|]; [destruct (n <? n')%N|]; simpl; try done.
  rewrite IH. apply Permutation_swap.
Qed.

Lemma own_app_l o o' k : own (o ++ o') k = match own o k with Some v => Some v | None => own o' k end.
Proof.
  induction o as [|[k' v'] o IH]; simpl; [done|].
  destruct (String.eqb k' k); [done | apply IH].
Qed.

(** Reading back an assignment. *)
Lemma own_set_eq o k v : own (JS.set k v o) k = Some v.
Proof.
  unfold JS.set. destruct (own o k) eqn:Ho.
  - by rewrite own_replace_eq, Ho.
  - destruct (array_index k).
    + by apply own_insert_index_eq.
    + rewrite own_app_l, Ho. simpl. by rewrite String.eqb_refl.
Qed.

Lemma own_set_ne o k k' v : k ≠ k' -> own (JS.set k v o) k' = own o k'.
Proof.
  intros Hne. unfold JS.set. destruct (own o k) eqn:Ho.
  - by apply own_replace_ne.
  - destruct (array_index k).
    + by apply own_insert_index_ne.
    + rewrite own_app_l. destruct (own o k'); [done|]. simpl.
      by destruct (String.eqb_spec k k').
Qed.

(** An assignment to an existing key keeps the keys and their order; an
    assignment to a new key adds exactly that key. *)
Lemma keys_set_old o k v : k ∈ keys o -> keys (JS.set k v o) = keys o.
Proof.
  intros Hin. unfold JS.set. destruct (own o k) eqn:Ho.
  - apply keys_replace.
  - apply own_None_keys in Ho. done.
Qed.

Lemma keys_set_new o k v : k ∉ keys o -> keys (JS.set k v o) ≡ₚ k :: keys o.
Proof.
  intros Hin. apply own_None_keys in Hin. unfold JS.set. rewrite Hin.
  destruct (array_index k).
  - apply keys_insert_index.
  - unfold keys. rewrite map_app. simpl. symmetry. apply Permutation_cons_append.
Qed.

Lemma elem_of_keys_set o k k' v : k' ∈ keys (JS.set k v o) <-> k' = k ∨ k' ∈ keys o.
Proof.
  destruct (decide (k ∈ keys o)) as [Hin|Hin].
  - rewrite keys_set_old by done. split; [auto | intros [->|?]; done].
  - rewrite (keys_set_new _ _ _ Hin). apply elem_of_cons.
Qed.

Lemma NoDup_keys_set o k v : NoDup (keys o) -> NoDup (keys (JS.set k v o)).
Proof.
  intros Hnd. destruct (decide (k ∈ keys o)) as [Hin|Hin].
  - by rewrite keys_set_old.
  - rewrite (keys_set_new _ _ _ Hin). by constructor.
Qed.


End ObjFacts.

Section OrderFacts.
Context {V : Type}.
Implicit Types (o : jsobj V) (k : string) (v : V).

Lemma enumeration_order_snoc l k :
  array_index k = None -> enumeration_order l -> enumeration_order (l ++ [k]).
Proof.
  intros Hk. induction l as [|k0 l IH]; simpl.
  - intros _. split; [|done]. intros k' H. inversion H.
  - intros [Hhd Htl]. split; [|auto].
    intros k' Hin. apply elem_of_app in Hin as [Hin|Hin]; [auto|].
    apply list_elem_of_singleton in Hin as ->.
    unfold precedes. rewrite Hk. by destruct (array_index k0).
Qed.

Lemma enumeration_order_insert_index o n k v :
  array_index k = Some n ->
  enumeration_order (keys o) ->
  enumeration_order (keys (insert_index n k v o)).
Proof.
  intros Hk. induction o as [|[k0 v0] o IH]; simpl.
  - intros _. split; [|done]. intros k' H. inversion H.
  - intros [Hhd Htl].
    destruct (array_index k0) as [n0|] eqn:Hk0.
    + destruct (N.ltb_spec n n0) as [Hlt|Hge]; simpl.
      * split; [|by split].
        intros k' Hin. apply elem_of_cons in Hin as [->|Hin].
        -- unfold precedes. rewrite Hk, Hk0. lia.
        -- specialize (Hhd k' Hin). unfold precedes in *.
           rewrite Hk. rewrite Hk0 in Hhd.
           destruct (array_index k'); [lia | done].
      * split; [|auto].
        intros k' Hin. fold (keys (insert_index n k v o)) in Hin.
        rewrite keys_insert_index in Hin.
        apply elem_of_cons in Hin as [->|Hin]; [|auto].
        unfold precedes. by rewrite Hk0, Hk.
    + simpl. split; [|by split].
      intros k' Hin. apply elem_of_cons in Hin as [->|Hin].
      * unfold precedes. by rewrite Hk, Hk0.
      * specialize (Hhd k' Hin). unfold precedes in *.
        rewrite Hk. rewrite Hk0 in Hhd. by destruct (array_index k').
Qed.

Lemma enumeration_order_set o k v :
  enumeration_order (keys o) -> enumeration_order (keys (JS.set k v o)).
Proof.
  intros Ho. unfold JS.set. destruct (own o k) eqn:Hown.
  - by rewrite keys_replace.
  - destruct (array_index k) eqn:Hk.
    + by apply enumeration_order_insert_index.
    + unfold keys. rewrite map_app. simpl. by apply enumeration_order_snoc.
Qed.


End OrderFacts.

(** ** The CSV export *)



(** ** What the helpers leave alone *)

Lemma fold_left_invariant {A B} (P : A -> Prop) (f : A -> B -> A) (l : list B) (a : A) :
  (forall a x, P a -> P (f a x)) -> P a -> P (fold_left f l a).
Proof.
  intros Hf. revert a. induction l as [|x l IH]; intros a Ha; simpl; auto.
Qed.

Lemma only_wire_refl st : only_wire st st.
Proof. by repeat split. Qed.

Lemma only_wire_trans st1 st2 st3 :
  only_wire st1 st2 -> only_wire st2 st3 -> only_wire st1 st3.
Proof.
  intros (?&?&?&?&?) (?&?&?&?&?). repeat split; congruence.
Qed.

Lemma sendJSON_only_wire ws data st : only_wire st (sendJSON ws data st).
Proof.
  unfold sendJSON. destruct ws as [w|]; [|apply only_wire_refl].
  destruct (is_open st w); [by repeat split | apply only_wire_refl].
Qed.

Lemma broadcastToSession_only_wire code data st :
  only_wire st (broadcastToSession code data st).
Proof.
  unfold broadcastToSession. destruct (sessions st !! code) as [s|];
    [|apply only_wire_refl].
  apply (fold_left_invariant (only_wire st)).
  - intros a x Ha. eapply only_wire_trans; [exact Ha | apply sendJSON_only_wire].
  - apply sendJSON_only_wire.
Qed.

Lemma broadcastTeacherView_only_wire code st :
  only_wire st (broadcastTeacherView code st).
Proof.
  unfold broadcastTeacherView. destruct (sessions st !! code) as [s|];
    [|apply only_wire_refl].
  destruct (teacher s); [apply sendJSON_only_wire | apply only_wire_refl].
Qed.

(** Closing the students' sockets changes no session. *)
Lemma close_students_registry session st :
  sessions (close_students session st) = sessions st /\
  allocated (close_students session st) = allocated st.
Proof.
  unfold close_students.
  apply (fold_left_invariant
           (fun st' => sessions st' = sessions st /\ allocated st' = allocated st));
    [|done].
  by intros a x [? ?].
Qed.

(** Sending where the socket is open, in terms of the wire. *)
Lemma sendJSON_open ws data st :
  is_open st ws = true ->
  sendJSON (Some ws) data st = emit ws (Send data) st.
Proof. intros H. unfold sendJSON. by rewrite H. Qed.

Lemma lookup_session_Own st code session :
  lookup_session st code = Own session <-> sessions st !! code = Some session.
Proof.
  unfold lookup_session, read. destruct (sessions st !! code).
  - split; congruence.
  - destruct (inherited code); split; congruence.
Qed.

Lemma lookup_session_Undefined st code :
  lookup_session st code = Undefined <->
  sessions st !! code = None /\ inherited code = false.
Proof.
  unfold lookup_session, read. destruct (sessions st !! code).
  - split; [congruence | intros [? ?]; congruence].
  - destruct (inherited code); (split; [intros ?|intros [? ?]]); try done.
Qed.

(** A generated code or id has six characters; no inherited name has. *)
Lemma length_hex3 a b c : String.length (hex [a; b; c]) = 6%nat.
Proof. reflexivity. Qed.

Lemma length_toUpperCase s : String.length (toUpperCase s) = String.length s.
Proof. induction s as [|ch s IH]; simpl; congruence. Qed.

Lemma inherited_length k : inherited k = true -> String.length k <> 6%nat.
Proof.
  unfold inherited. rewrite existsb_exists. intros (x & Hin & Heq).
  apply String.eqb_eq in Heq. subst x.
  unfold prototype_names in Hin. simpl in Hin.
  repeat (destruct Hin as [<- | Hin]; [simpl; lia|]). done.
Qed.

Lemma six_characters_not_inherited k :
  String.length k = 6%nat -> inherited k = false.
Proof.
  intros Hlen. destruct (inherited k) eqn:H; [|done].
  by apply inherited_length in H.
Qed.

Lemma generateSessionCode_own e : inherited (generateSessionCode e) = false.
Proof.
  apply six_characters_not_inherited.
  unfold generateSessionCode. destruct (randomBytes e) as [[a b] c].
  by rewrite length_toUpperCase, length_hex3.
Qed.

(** ** Invariants of a session *)

Lemma getCurrentQuestion_Some s q :
  getCurrentQuestion s = Some q ->
  0 <= currentQuestionIndex s /\
  questions s !! Z.to_nat (currentQuestionIndex s) = Some q.
Proof.
  unfold getCurrentQuestion.
  destruct (Z.ltb_spec (currentQuestionIndex s) 0); simpl; [done|].
  destruct (currentQuestionIndex s >=? Z.of_nat (length (questions s))); [done|].
  auto.
Qed.

Lemma getCurrentQuestion_lookup s i q :
  currentQuestionIndex s = Z.of_nat i -> questions s !! i = Some q ->
  getCurrentQuestion s = Some q.
Proof.
  intros Hi Hq. unfold getCurrentQuestion. rewrite Hi.
  destruct (Z.ltb_spec (Z.of_nat i) 0); [lia|]. simpl.
  apply lookup_lt_Some in Hq as Hlt.
  destruct (Z.geb_spec (Z.of_nat i) (Z.of_nat (length (questions s)))); [lia|].
  by rewrite Nat2Z.id.
Qed.

Lemma question_ok_mono studs studs' q :
  (forall k, k ∈ keys studs -> k ∈ keys studs') ->
  question_ok studs q -> question_ok studs' q.
Proof. intros Hsub (?&?&?). repeat split; auto. Qed.

(** The shape every handler but TEACHER_START_MCQ has on a session: the
    index stays, the current question (if any) is rewritten by [f], students
    are only added. *)
Lemma session_ok_rewrite s s' f :
  session_ok s ->
  currentQuestionIndex s' = currentQuestionIndex s ->
  questions s' = alter f (Z.to_nat (currentQuestionIndex s)) (questions s) ->
  (forall k, k ∈ keys (students s) -> k ∈ keys (students s')) ->
  NoDup (keys (students s')) ->
  enumeration_order (keys (students s')) ->
  (forall q, questionNumber (f q) = questionNumber q) ->
  (forall q, question_ok (students s') q -> question_ok (students s') (f q)) ->
  (forall q k, getCurrentQuestion s = Some q -> k ∈ keys (students s') ->
               (k ∈ keys (students s) -> k ∈ keys (answers q)) ->
               k ∈ keys (answers (f q))) ->
  session_ok s'.
Proof.
  intros [Hidx Hnum Hnd Hord Hqs Hcur] Hi Hq Hsub Hnd' Hord' Hfn Hfok Hfcur.
  split; [ | | done | done | | ].
  - by rewrite Hi, Hq, length_alter.
  - intros i q. rewrite Hq.
    destruct (decide (Z.to_nat (currentQuestionIndex s) = i)) as [<-|Hne].
    + rewrite list_lookup_alter_eq.
      destruct (questions s !! _) as [q0|] eqn:Hq0; simpl; [|done].
      intros [= <-]. rewrite Hfn. eauto.
    + rewrite list_lookup_alter_ne by done. apply Hnum.
  - rewrite Hq. apply Forall_alter.
    + eapply Forall_impl; [exact Hqs|]. intros q. by apply question_ok_mono.
    + intros q _. apply Hfok.
  - intros q k Hget Hk.
    apply getCurrentQuestion_Some in Hget as [Hpos Hget].
    rewrite Hi, Hq, list_lookup_alter_eq in Hget.
    destruct (questions s !! _) as [q0|] eqn:Hq0; simpl in Hget; [|done].
    injection Hget as <-.
    assert (getCurrentQuestion s = Some q0) as Hg0.
    { apply (getCurrentQuestion_lookup s (Z.to_nat (currentQuestionIndex s))); [lia | done]. }
    apply Hfcur; auto.
Qed.

Lemma new_session_ok id ws : session_ok (new_session id ws).
Proof.
  split; simpl; try done.
  - constructor.
Qed.

Lemma set_qstage_ok studs x q : question_ok studs q -> question_ok studs (set_qstage x q).
Proof. done. Qed.

Lemma set_slot_ok studs k a q :
  k ∈ keys studs -> question_ok studs q ->
  question_ok studs (set_answers (JS.set k a (answers q)) q).
Proof.
  intros Hk (Hnd & Hord & Hsub). repeat split; simpl.
  - by apply NoDup_keys_set.
  - by apply enumeration_order_set.
  - intros k' Hin. apply elem_of_keys_set in Hin as [->|Hin]; auto.
Qed.

Lemma set_stage_ok x s : session_ok s -> session_ok (set_stage x s).
Proof.
  intros H. apply (session_ok_rewrite s _ id); auto; try apply H.
  simpl. symmetry. by apply list_alter_id.
Qed.

Lemma set_teacher_ok x s : session_ok s -> session_ok (set_teacher x s).
Proof.
  intros H. apply (session_ok_rewrite s _ id); auto; try apply H.
  simpl. symmetry. by apply list_alter_id.
Qed.

Lemma update_current_qstage_ok x s :
  session_ok s -> session_ok (update_current (set_qstage x) s).
Proof.
  intros H. apply (session_ok_rewrite s _ (set_qstage x)); auto; try apply H.
Qed.

Lemma next_explanation_ok s : session_ok s -> session_ok (next_explanation s).
Proof.
  intros H. unfold next_explanation.
  destruct (getCurrentQuestion (set_stage EXPLANATION s)) as [curQ|];
    [destruct (qstage curQ)|];
    auto using set_stage_ok, update_current_qstage_ok.
Qed.

Lemma join_ok studentId username ws s :
  session_ok s -> session_ok (join studentId username ws s).
Proof.
  intros H. unfold join.
  set (stu := {| stu_username := username; stu_ws := ws |}).
  set (s1 := set_students (JS.set studentId stu (students s)) s).
  assert (getCurrentQuestion s1 = getCurrentQuestion s) as Hcur by done.
  assert (forall k, k ∈ keys (students s) -> k ∈ keys (students s1)) as Hsub.
  { intros k Hk. simpl. apply elem_of_keys_set. by right. }
  assert (studentId ∈ keys (students s1)) as Hnew.
  { simpl. apply elem_of_keys_set. by left. }
  rewrite Hcur. destruct (getCurrentQuestion s) as [curQ|] eqn:Hq.
  - apply (session_ok_rewrite s _
             (fun q => set_answers (JS.set studentId (empty_slot username) (answers q)) q));
      auto.
    + simpl. apply NoDup_keys_set, H.
    + simpl. apply enumeration_order_set, H.
    + intros q. by apply set_slot_ok.
    + intros q k Hq' Hk Hold. simpl. apply elem_of_keys_set.
      simpl in Hk. apply elem_of_keys_set in Hk as [->|Hk]; auto.
  - apply (session_ok_rewrite s _ id); auto.
    + simpl. symmetry. by apply list_alter_id.
    + simpl. apply NoDup_keys_set, H.
    + simpl. apply enumeration_order_set, H.
    + intros q k Hq'. congruence.
Qed.

Lemma submit_ok write studentId s s' :
  session_ok s -> submit write studentId s = Ok (Some s') -> session_ok s'.
Proof.
  intros H. unfold submit.
  destruct (getCurrentQuestion s) as [curQ|] eqn:Hq; [|done].
  unfold JS.get, read.
  destruct (own (answers curQ) studentId) as [slot|] eqn:Hslot.
  - intros [= <-].
    apply getCurrentQuestion_Some in Hq as Hq'. destruct Hq' as [_ Hq'].
    assert (studentId ∈ keys (students s)) as Hin.
    { pose proof (Forall_lookup_1 _ _ _ _ (ok_questions s H) Hq') as (_&_&Hsub).
      eapply Hsub, own_Some_keys, Hslot. }
    apply (session_ok_rewrite s _
             (fun q => set_answers (JS.set studentId (write slot) (answers q)) q));
      auto; try apply H.
    + intros q. by apply set_slot_ok.
    + intros q k _ Hk Hold. simpl. apply elem_of_keys_set. auto.
  - destruct (inherited studentId); [done|].
    destruct (own (students s) studentId) as [stuInfo|] eqn:Hstu; [|done].
    intros [= <-]. apply own_Some_keys in Hstu.
    apply (session_ok_rewrite s _
             (fun q => set_answers
                         (JS.set studentId (write (empty_slot (stu_username stuInfo)))
                                 (answers q)) q));
      auto; try apply H.
    + intros q. by apply set_slot_ok.
    + intros q k _ Hk Hold. simpl. apply elem_of_keys_set. auto.
Qed.

Lemma elem_of_keys_fill_slots studs slots k :
  k ∈ keys (fill_slots studs slots) <-> k ∈ keys studs \/ k ∈ keys slots.
Proof.
  revert slots. induction studs as [|[id stu] studs IH]; intros slots; simpl.
  - split; [auto | intros [H|H]; [inversion H | done]].
  - unfold fill_slots in *. simpl. rewrite IH, elem_of_keys_set, elem_of_cons.
    tauto.
Qed.

Lemma fill_slots_ok studs slots :
  NoDup (keys slots) -> enumeration_order (keys slots) ->
  NoDup (keys (fill_slots studs slots)) /\
  enumeration_order (keys (fill_slots studs slots)).
Proof.
  revert slots. induction studs as [|[id stu] studs IH]; intros slots Hnd Hord;
    simpl; [done|].
  apply IH; [by apply NoDup_keys_set | by apply enumeration_order_set].
Qed.

Lemma start_mcq_questions questionText options s :
  exists prev,
    questions (start_mcq questionText options s) =
      prev ++ [{| questionNumber := Z.of_nat (length (questions s)) + 1;
                  questionText := JS.or questionText (JStr EmptyString);
                  mcqOptions := options;
                  qstage := QMCQ;
                  answers := fill_slots (students s) [] |}] /\
    length prev = length (questions s) /\
    (prev = questions s \/
     prev = alter (set_qstage QDONE) (Z.to_nat (currentQuestionIndex s)) (questions s)).
Proof.
  unfold start_mcq.
  set (s0 := set_stage MCQ s).
  destruct (0 <=? currentQuestionIndex s0);
    [destruct (getCurrentQuestion s0) as [prevQ|]; [destruct (qstage prevQ)|]|];
    simpl; rewrite ?length_alter;
    eexists; (split; [reflexivity|]); rewrite ?length_alter; auto.
Qed.

Lemma start_mcq_fields questionText options s :
  ident (start_mcq questionText options s) = ident s /\
  teacher (start_mcq questionText options s) = teacher s /\
  stage (start_mcq questionText options s) = MCQ /\
  students (start_mcq questionText options s) = students s /\
  currentQuestionIndex (start_mcq questionText options s) =
    Z.of_nat (length (questions (start_mcq questionText options s))) - 1.
Proof.
  unfold start_mcq.
  set (s0 := set_stage MCQ s).
  destruct (0 <=? currentQuestionIndex s0);
    [destruct (getCurrentQuestion s0) as [prevQ|]; [destruct (qstage prevQ)|]|];
    simpl; auto.
Qed.

Lemma start_mcq_length questionText options s :
  length (questions (start_mcq questionText options s)) = S (length (questions s)).
Proof.
  destruct (start_mcq_questions questionText options s) as (prev & -> & Hlen & _).
  rewrite length_app. simpl. lia.
Qed.

Lemma start_mcq_ok questionText options s :
  session_ok s -> session_ok (start_mcq questionText options s).
Proof.
  intros H.
  destruct (start_mcq_fields questionText options s) as (_ & _ & _ & Hstu & Hidx).
  destruct (start_mcq_questions questionText options s) as (prev & Hqs & Hlen & Hprev).
  assert (forall i q, prev !! i = Some q ->
            questionNumber q = Z.of_nat i + 1 /\ question_ok (students s) q) as Hold.
  { intros i q Hq. destruct Hprev as [->| ->].
    - split; [by apply (ok_numbers s H) | by eapply Forall_lookup_1; [apply H|]].
    - rewrite list_lookup_alter in Hq. case_decide as Hd.
      + subst i. destruct (questions s !! _) as [q0|] eqn:Hq0; simpl in Hq; [|done].
        injection Hq as <-. split.
        * simpl. by apply (ok_numbers s H).
        * apply set_qstage_ok. by eapply Forall_lookup_1; [apply H|].
      + split; [by apply (ok_numbers s H) | by eapply Forall_lookup_1; [apply H|]]. }
  destruct (fill_slots_ok (students s) []) as [Hnd Hord]; [constructor | done |].
  split.
  - done.
  - intros i q. rewrite Hqs. intros Hq.
    apply lookup_app_Some in Hq as [Hq|[Hge Hq]]; [by apply (Hold i q)|].
    apply list_lookup_singleton_Some in Hq as [Hi <-]. simpl. lia.
  - rewrite Hstu. apply H.
  - rewrite Hstu. apply H.
  - rewrite Hstu, Hqs. apply Forall_app. split.
    + apply Forall_lookup. intros i q Hq. by apply (Hold i q).
    + constructor; [|constructor]. repeat split; simpl; try done.
      intros k Hk. apply elem_of_keys_fill_slots in Hk as [Hk|Hk]; [done|].
      inversion Hk.
  - intros q k Hget Hk.
    apply getCurrentQuestion_Some in Hget as [_ Hget].
    rewrite Hidx, Hqs in Hget. rewrite Hstu in Hk.
    rewrite length_app in Hget. simpl in Hget.
    replace (Z.to_nat (Z.of_nat (length prev + 1) - 1)) with (length prev + 0)%nat in Hget by lia.
    rewrite lookup_app_r in Hget by lia.
    replace (length prev + 0 - length prev)%nat with 0%nat in Hget by lia.
    injection Hget as <-. simpl. apply elem_of_keys_fill_slots. by left.
Qed.

(** ** Invariants of the server state *)

(** Replacing a session by one of the same identity that satisfies the
    session invariant. *)
Lemma state_ok_store st st' c s s' :
  state_ok st -> sessions st !! c = Some s ->
  session_ok s' -> ident s' = ident s ->
  sessions st' = <[c := s']> (sessions st) -> allocated st' = allocated st ->
  state_ok st'.
Proof.
  intros [Hs Hc Ha Hi] Hlook Hok Hid Hsess Halloc. split.
  - intros c0 s0. rewrite Hsess, lookup_insert. case_decide as Hd.
    + intros [= <-]. done.
    + apply Hs.
  - intros c0 s0. rewrite Hsess, lookup_insert. case_decide as Hd.
    + subst c0. intros _. eauto.
    + apply Hc.
  - intros c0 s0. rewrite Hsess, Halloc, lookup_insert. case_decide as Hd.
    + intros [= <-]. rewrite Hid. eauto.
    + apply Ha.
  - intros c1 c2 s1 s2. rewrite Hsess, !lookup_insert.
    repeat case_decide; subst; try done.
    + intros [= <-] H2 Heq. rewrite Hid in Heq. eauto.
    + intros H1 [= <-] Heq. rewrite Hid in Heq. eauto.
    + eauto.
Qed.

Lemma state_ok_sockets st st' :
  state_ok st -> sessions st' = sessions st -> allocated st' = allocated st ->
  state_ok st'.
Proof.
  intros [Hs Hc Ha Hi] Hsess Halloc.
  split; rewrite ?Hsess, ?Halloc; done.
Qed.

(** ** What a handler does to the registry *)

Lemma sessions_sendJSON ws data st : sessions (sendJSON ws data st) = sessions st.
Proof. apply sendJSON_only_wire. Qed.
Lemma allocated_sendJSON ws data st : allocated (sendJSON ws data st) = allocated st.
Proof. apply sendJSON_only_wire. Qed.
Lemma sessions_broadcastToSession c data st :
  sessions (broadcastToSession c data st) = sessions st.
Proof. apply broadcastToSession_only_wire. Qed.
Lemma allocated_broadcastToSession c data st :
  allocated (broadcastToSession c data st) = allocated st.
Proof. apply broadcastToSession_only_wire. Qed.
Lemma sessions_broadcastTeacherView c st :
  sessions (broadcastTeacherView c st) = sessions st.
Proof. apply broadcastTeacherView_only_wire. Qed.
Lemma allocated_broadcastTeacherView c st :
  allocated (broadcastTeacherView c st) = allocated st.
Proof. apply broadcastTeacherView_only_wire. Qed.
Lemma sessions_close_students s st : sessions (close_students s st) = sessions st.
Proof. apply close_students_registry. Qed.
Lemma allocated_close_students s st : allocated (close_students s st) = allocated st.
Proof. apply close_students_registry. Qed.

Arguments sendJSON : simpl never.
Arguments broadcastToSession : simpl never.
Arguments broadcastTeacherView : simpl never.
Arguments close_students : simpl never.

Create Rewrite HintDb registry.
#[local] Hint Rewrite sessions_sendJSON allocated_sendJSON
  sessions_broadcastToSession allocated_broadcastToSession
  sessions_broadcastTeacherView allocated_broadcastTeacherView
  sessions_close_students allocated_close_students : registry.

Ltac registry := simpl; autorewrite with registry; simpl; try done.

Lemma handle_registry ws e m st st' :
  handle ws e m st = Ok st' -> registry_change ws e m st st'.
Proof.
  destruct m as [|c qt o|c|c|c|c|c|c u|c id a|c id x|]; simpl;
    try (destruct (lookup_session st c) as [s| |] eqn:Hl;
         [apply lookup_session_Own in Hl| |]);
    try done.
  - intros [= <-]. apply change_create; registry.
  - intros [= <-]. eapply change_update; [done | exact Hl | simpl; reflexivity | |]; registry.
  - intros [= <-]. by apply change_none.
  - intros [= <-]. eapply change_update; [done | exact Hl | simpl; reflexivity | |]; registry.
  - intros [= <-]. by apply change_none.
  - intros [= <-]. eapply change_update; [done | exact Hl | simpl; reflexivity | |]; registry.
  - intros [= <-]. by apply change_none.
  - intros [= <-]. eapply change_delete; [done | exact Hl | |]; registry.
    apply delete_insert_eq.
  - intros [= <-]. by apply change_none.
  - intros [= <-]. apply change_none; registry.
  - intros [= <-]. apply change_none; registry.
  - intros [= <-]. eapply change_update; [done | exact Hl | simpl; reflexivity | |]; registry.
  - intros [= <-]. apply change_none; registry.
  - intros [= <-]. eapply change_update; [done | exact Hl | simpl; reflexivity | |]; registry.
  - intros [= <-]. apply change_none; registry.
  - destruct (submit (set_mcqAnswer a) id s) as [[s'|]|] eqn:Hsub; [| |done].
    + intros [= <-]. eapply change_update; [done | exact Hl | exact Hsub | |]; registry.
    + intros [= <-]. by apply change_none.
  - intros [= <-]. by apply change_none.
  - destruct (submit (set_explanation x) id s) as [[s'|]|] eqn:Hsub; [| |done].
    + intros [= <-]. eapply change_update; [done | exact Hl | exact Hsub | |]; registry.
    + intros [= <-]. by apply change_none.
  - intros [= <-]. by apply change_none.
  - intros [= <-]. by apply change_none.
Qed.

Lemma next_explanation_fields s :
  ident (next_explanation s) = ident s /\
  currentQuestionIndex (next_explanation s) = currentQuestionIndex s /\
  students (next_explanation s) = students s /\
  teacher (next_explanation s) = teacher s.
Proof.
  unfold next_explanation.
  destruct (getCurrentQuestion (set_stage EXPLANATION s)) as [curQ|];
    [destruct (qstage curQ)|]; done.
Qed.

Lemma join_fields studentId username ws s :
  ident (join studentId username ws s) = ident s /\
  currentQuestionIndex (join studentId username ws s) = currentQuestionIndex s /\
  stage (join studentId username ws s) = stage s /\
  teacher (join studentId username ws s) = teacher s /\
  students (join studentId username ws s) =
    JS.set studentId {| stu_username := username; stu_ws := ws |} (students s).
Proof.
  unfold join.
  destruct (getCurrentQuestion _) as [curQ|]; done.
Qed.

(** A submission rewrites one slot of the current question and nothing
    else. *)
Lemma submit_Some write studentId s s' :
  submit write studentId s = Ok (Some s') ->
  exists curQ slot,
    getCurrentQuestion s = Some curQ /\
    (own (answers curQ) studentId = Some slot \/
     own (answers curQ) studentId = None /\ inherited studentId = false /\
     exists stuInfo, own (students s) studentId = Some stuInfo /\
                     slot = empty_slot (stu_username stuInfo)) /\
    s' = update_current
           (fun q => set_answers (JS.set studentId (write slot) (answers q)) q) s.
Proof.
  unfold submit.
  destruct (getCurrentQuestion s) as [curQ|] eqn:Hq; [|done].
  unfold JS.get, read.
  destruct (own (answers curQ) studentId) as [slot|] eqn:Hslot.
  - intros [= <-]. exists curQ, slot. auto.
  - destruct (inherited studentId) eqn:Hinh; [done|].
    destruct (own (students s) studentId) as [stuInfo|] eqn:Hstu; [|done].
    intros [= <-]. exists curQ, (empty_slot (stu_username stuInfo)).
    split; [done|]. split; [|done]. right. eauto.
Qed.

Lemma session_update_ident ws e m s s' :
  session_update ws e m s s' ->
  ident s' = ident s /\ currentQuestionIndex s <= currentQuestionIndex s' \/
  ident s' = ident s /\ exists questionText options,
    s' = start_mcq questionText options s.
Proof.
  destruct m as [|c qt o|c|c|c|c|c|c username|c id a|c id x|]; simpl; try done.
  - intros ->. right. split; [apply start_mcq_fields | eauto].
  - intros ->. left. destruct (next_explanation_fields s) as (->&->&_). split; [done|lia].
  - intros ->. left. simpl. split; [done|lia].
  - intros ->. left. simpl. split; [done|lia].
  - intros ->. left.
    destruct (join_fields (generateStudentId e) username ws s) as (->&->&_).
    split; [done|lia].
  - intros H. apply submit_Some in H as (curQ & slot & _ & _ & ->). left.
    simpl. split; [done|lia].
  - intros H. apply submit_Some in H as (curQ & slot & _ & _ & ->). left.
    simpl. split; [done|lia].
Qed.

Lemma session_update_ok ws e m s s' :
  session_ok s -> session_update ws e m s s' -> session_ok s'.
Proof.
  intros Hok. destruct m; simpl; try done.
  - intros ->. by apply start_mcq_ok.
  - intros ->. by apply next_explanation_ok.
  - intros ->. by apply set_stage_ok.
  - intros ->. by apply set_teacher_ok.
  - intros ->. by apply join_ok.
  - by apply submit_ok.
  - by apply submit_ok.
Qed.

Lemma initial_ok : state_ok initial.
Proof. split; intros *; simpl; by rewrite ?lookup_empty. Qed.

Lemma handle_ok ws e m st st' :
  state_ok st -> handle ws e m st = Ok st' -> state_ok st'.
Proof.
  intros Hok Hh. apply handle_registry in Hh.
  destruct Hh as [Hs Ha|_ Hs Ha|c s _ Hl Hs Ha|c s s' _ Hl Hup Hs Ha].
  - by eapply state_ok_sockets.
  - destruct Hok as [H1 H2 H3 H4]. split.
    + intros c s. rewrite Hs, lookup_insert. case_decide.
      * intros [= <-]. apply new_session_ok.
      * apply H1.
    + intros c s. rewrite Hs, lookup_insert. case_decide.
      * subst c. intros _. apply generateSessionCode_own.
      * apply H2.
    + intros c s. rewrite Hs, Ha, lookup_insert. case_decide.
      * intros [= <-]. simpl. lia.
      * intros Hx. apply H3 in Hx. lia.
    + intros c1 c2 s1 s2. rewrite Hs, !lookup_insert.
      repeat case_decide; subst; try done.
      * intros [= <-] Hx. apply H3 in Hx. simpl. lia.
      * intros Hx [= <-]. apply H3 in Hx. simpl. lia.
      * eauto.
  - destruct Hok as [H1 H2 H3 H4]. split.
    + intros c0 s0. rewrite Hs. intros Hx. apply lookup_delete_Some in Hx as [_ Hx]. eauto.
    + intros c0 s0. rewrite Hs. intros Hx. apply lookup_delete_Some in Hx as [_ Hx]. eauto.
    + intros c0 s0. rewrite Hs, Ha. intros Hx. apply lookup_delete_Some in Hx as [_ Hx]. eauto.
    + intros c1 c2 s1 s2. rewrite Hs. intros Hc1 Hc2.
      apply lookup_delete_Some in Hc1 as [_ Hc1].
      apply lookup_delete_Some in Hc2 as [_ Hc2]. eauto.
  - apply (state_ok_store st st' c s s'); auto.
    + eapply session_update_ok; [|exact Hup]. eapply ok_sessions; eauto.
    + apply session_update_ident in Hup as [[? _]|[? _]]; done.
Qed.

Lemma step_registry st i st' :
  step st i = Ok st' ->
  (sessions st' = sessions st /\ allocated st' = allocated st) \/
  exists ws e m, i = Message ws e m /\ ready st ws <> CLOSED /\
                 handle ws e m st = Ok st'.
Proof.
  destruct i as [|ws e m|ws|ws|]; simpl.
  - intros [= <-]. by left.
  - destruct (ready st ws) eqn:Hr; [| |intros [= <-]; by left];
      intros Hh; right; exists ws, e, m; by rewrite Hr.
  - destruct (ready st ws); intros [= <-]; by left.
  - intros [= <-]. by left.
  - destruct (keepAliveInterval st); intros [= <-]; [|by left].
    left. unfold keepAlive.
    match goal with |- context [if ?b then _ else _] => destruct b end.
    + simpl. split.
      * apply (fold_left_invariant (fun a => sessions a = sessions st)); [|done].
        intros a x Ha. done.
      * apply (fold_left_invariant (fun a => allocated a = allocated st)); [|done].
        intros a x Ha. done.
    + split.
      * apply (fold_left_invariant (fun a => sessions a = sessions st)); [|done].
        intros a x Ha. unfold probe. destruct (sockets a !! x) as [w|]; [|done].
        destruct (negb (isAlive w)); [done|]. unfold ws_ping.
        by match goal with |- context [if ?b then _ else _] => destruct b end.
      * apply (fold_left_invariant (fun a => allocated a = allocated st)); [|done].
        intros a x Ha. unfold probe. destruct (sockets a !! x) as [w|]; [|done].
        destruct (negb (isAlive w)); [done|]. unfold ws_ping.
        by match goal with |- context [if ?b then _ else _] => destruct b end.
Qed.

Lemma step_ok st i st' : state_ok st -> step st i = Ok st' -> state_ok st'.
Proof.
  intros Hok Hstep. apply step_registry in Hstep as [[Hs Ha]|(ws & e & m & _ & _ & Hh)].
  - by eapply state_ok_sockets.
  - by eapply handle_ok.
Qed.

Lemma reachable_ok st : reachable st -> state_ok st.
Proof.
  induction 1 as [|st i st' _ IH Hstep]; [apply initial_ok | by eapply step_ok].
Qed.

Lemma run_reachable st inputs st' :
  reachable st -> run st inputs = Ok st' -> reachable st'.
Proof.
  revert st. induction inputs as [|i inputs IH]; intros st Hst; simpl.
  - by intros [= <-].
  - destruct (step st i) as [st1|] eqn:Hstep; [|done].
    apply IH. by eapply reachable_step.
Qed.

Lemma run_app st inputs inputs' :
  run st (inputs ++ inputs') =
  match run st inputs with
  | Ok st' => run st' inputs'
  | Fault f => Fault f
  end.
Proof.
  revert st. induction inputs as [|i inputs IH]; intros st; simpl; [done|].
  destruct (step st i); [apply IH | done].
Qed.

Lemma reachable_run st :
  reachable st <-> exists inputs, run initial inputs = Ok st.
Proof.
  split.
  - induction 1 as [|st i st' _ [inputs IH] Hstep].
    + by exists [].
    + exists (inputs ++ [i]). rewrite run_app, IH. simpl. by rewrite Hstep.
  - intros [inputs H]. eapply run_reachable; [apply reachable_initial | exact H].
Qed.

(** ** Commands naming a session that does not exist *)



(** A code that names a built-in is found by [sessions[sessionCode]]; the
    handler goes on and throws. *)
Example inherited_name_throws :
  handle 0%nat (with_bytes x00 x00 x00) (TEACHER_STOP_QUIZ "__proto__") one_connection
    = Fault UncaughtTypeError.
Proof. reflexivity. Qed.

(** ** The CSV export, continued *)






Lemma run_sam_and_bob :
  run initial (sam_joins ++ bob_joins) = Ok (final (sam_joins ++ bob_joins)) /\
  sessions (final (sam_joins ++ bob_joins)) !! "AB12C3" = Some sam_and_bob.
Proof. vm_compute. done. Qed.


(** ** Option 0 in the export *)


(** ** Creating sessions *)

(** C2, as stated, fails: the second creation is given the code of the live
    session of the first teacher and replaces that session; nothing is
    generated again. *)
Lemma colliding_code_overwrites :
  (currentQuestionIndex <$> session_at (run initial first_teacher) "AB12C3") = Some 0 /\
  session_at (run initial (first_teacher ++ second_teacher)) "AB12C3"
    = Some (new_session 1 1%nat) /\
  wire (final (first_teacher ++ second_teacher)) =
    wire (final first_teacher) ++ [(1%nat, Send (SESSION_CREATED "AB12C3"))].
Proof. vm_compute. done. Qed.

(** C2, amended: TEACHER_CREATE_SESSION generates one code and stores a new
    WAITING session under it; when that code is not in the registry every
    session already there is kept, the registry grows by one entry, and the
    caller (if open) is sent the code. *)
Theorem create_with_unused_code st ws e :
  sessions st !! generateSessionCode e = None ->
  exists st',
    handle ws e TEACHER_CREATE_SESSION st = Ok st' /\
    sessions st' !! generateSessionCode e = Some (new_session (allocated st) ws) /\
    (forall c s, sessions st !! c = Some s -> sessions st' !! c = Some s) /\
    size (sessions st') = S (size (sessions st)) /\
    (is_open st ws = true ->
     wire st' = wire st ++ [(ws, Send (SESSION_CREATED (generateSessionCode e)))]).
Proof.
  intros Hnew. eexists. split; [reflexivity|].
  registry. repeat split.
  - apply lookup_insert_eq.
  - intros c s Hc. rewrite lookup_insert_ne; [done|]. congruence.
  - by apply map_size_insert_None.
  - intros Hopen. by rewrite sendJSON_open.
Qed.

Lemma create_with_unused_code_witness :
  exists st',
    handle 0%nat (with_bytes xab x12 xc3) TEACHER_CREATE_SESSION one_connection = Ok st' /\
    sessions st' !! "AB12C3" = Some (new_session 0 0%nat).
Proof.
  destruct (create_with_unused_code one_connection 0%nat (with_bytes xab x12 xc3) eq_refl)
    as (st' & H1 & H2 & _).
  exists st'. split; [exact H1 | exact H2].
Defined.

(** ** Stopping a session *)

(** C1, as stated, fails: on a session in STOPPED stage a join adds an
    answer record, a submission changes it, and a start-question adds a
    question (and moves the session back to MCQ). *)
Lemma stopped_session_still_mutable :
  (stage <$> session_at (run initial stopped_quiz) "AB12C3") = Some STOPPED /\
  (mcq_answers <$> session_at (run initial stopped_quiz) "AB12C3")
    = Some [[("abcdef", JNull)]] /\
  (mcq_answers <$> session_at (run initial (stopped_quiz ++ after_stop_join)) "AB12C3")
    = Some [[("123456", JNull); ("abcdef", JNull)]] /\
  (mcq_answers <$>
     session_at (run initial (stopped_quiz ++ after_stop_join ++ after_stop_submit)) "AB12C3")
    = Some [[("123456", JNum 3); ("abcdef", JNull)]] /\
  (mcq_answers <$>
     session_at (run initial (stopped_quiz ++ after_stop_join ++ after_stop_submit
                                ++ after_stop_start)) "AB12C3")
    = Some [[("123456", JNum 3); ("abcdef", JNull)];
            [("123456", JNull); ("abcdef", JNull)]] /\
  (stage <$>
     session_at (run initial (stopped_quiz ++ after_stop_join ++ after_stop_submit
                                ++ after_stop_start)) "AB12C3")
    = Some MCQ.
Proof. vm_compute. done. Qed.

Lemma submit_any_stage write studentId x s :
  submit write studentId (set_stage x s) =
  match submit write studentId s with
  | Ok (Some s') => Ok (Some (set_stage x s'))
  | r => r
  end.
Proof.
  unfold submit.
  replace (getCurrentQuestion (set_stage x s)) with (getCurrentQuestion s) by done.
  destruct (getCurrentQuestion s) as [curQ|]; [|done].
  destruct (JS.get (answers curQ) studentId); try done.
  simpl. by destruct (own (students s) studentId).
Qed.

Lemma start_mcq_any_stage questionText options x s :
  start_mcq questionText options (set_stage x s) = start_mcq questionText options s.
Proof.
  unfold start_mcq. simpl.
  replace (getCurrentQuestion (set_stage MCQ (set_stage x s)))
    with (getCurrentQuestion (set_stage MCQ s)) by done.
  destruct (0 <=? currentQuestionIndex s); [|done].
  destruct (getCurrentQuestion (set_stage MCQ s)) as [prevQ|]; [|done].
  by destruct (qstage prevQ).
Qed.

Lemma join_any_stage studentId username ws x s :
  join studentId username ws (set_stage x s) = set_stage x (join studentId username ws s).
Proof.
  unfold join.
  match goal with
  | |- context [getCurrentQuestion ?a] =>
      replace (getCurrentQuestion a) with
        (getCurrentQuestion
           (set_students
              (JS.set studentId {| stu_username := username; stu_ws := ws |}
                 (students s)) s)) by done
  end.
  by destruct (getCurrentQuestion _).
Qed.

(** C1, amended: TEACHER_STOP_QUIZ keeps the session in the registry, in
    STOPPED stage, with its questions and answers as they were, and
    TEACHER_DOWNLOAD_CSV on that code then sends the caller the CSV of
    exactly those questions and answers. No handler reads the stage: on the
    stopped session TEACHER_START_MCQ, STUDENT_JOIN_SESSION, STUDENT_SUBMIT_MCQ
    and STUDENT_EXPLANATION_UPDATE do to the questions and answers what they
    do to the session as it was before the stop. *)
Theorem stop_keeps_data_and_export st wt e sessionCode session :
  sessions st !! sessionCode = Some session ->
  exists st1,
    handle wt e (TEACHER_STOP_QUIZ sessionCode) st = Ok st1 /\
    sessions st1 = <[sessionCode := set_stage STOPPED session]> (sessions st) /\
    questions (set_stage STOPPED session) = questions session /\
    (forall ws e', is_open st1 ws = true ->
       handle ws e' (TEACHER_DOWNLOAD_CSV sessionCode) st1 =
         Ok (emit ws (Send (CSV_DATA (generateCSV session)
                                     (csv_filename sessionCode e'))) st1)) /\
    (forall ws e' questionText options,
       exists st2,
         handle ws e' (TEACHER_START_MCQ sessionCode questionText options) st1 = Ok st2 /\
         sessions st2 !! sessionCode = Some (start_mcq questionText options session)) /\
    (forall ws e' username,
       exists st2,
         handle ws e' (STUDENT_JOIN_SESSION sessionCode username) st1 = Ok st2 /\
         sessions st2 !! sessionCode =
           Some (set_stage STOPPED (join (generateStudentId e') username ws session))) /\
    (forall ws e' studentId answer session',
       submit (set_mcqAnswer answer) studentId session = Ok (Some session') ->
       exists st2,
         handle ws e' (STUDENT_SUBMIT_MCQ sessionCode studentId answer) st1 = Ok st2 /\
         sessions st2 !! sessionCode = Some (set_stage STOPPED session')) /\
    (forall ws e' studentId explanation session',
       submit (set_explanation explanation) studentId session = Ok (Some session') ->
       exists st2,
         handle ws e' (STUDENT_EXPLANATION_UPDATE sessionCode studentId explanation) st1
           = Ok st2 /\
         sessions st2 !! sessionCode = Some (set_stage STOPPED session')).
Proof.
  intros Hs. apply lookup_session_Own in Hs as Hown.
  eexists. split; [unfold handle; rewrite Hown; reflexivity|].
  split; [registry|]. split; [done|].
  match goal with
  | |- context [handle _ _ (TEACHER_DOWNLOAD_CSV _) ?a] => set (st1 := a)
  end.
  assert (lookup_session st1 sessionCode = Own (set_stage STOPPED session)) as Hown1.
  { apply lookup_session_Own. subst st1. registry. apply lookup_insert_eq. }
  split; [|split; [|split; [|split]]].
  - intros ws e' Hopen. unfold handle. rewrite Hown1.
    by rewrite sendJSON_open.
  - intros ws e' questionText options. eexists.
    split; [unfold handle; rewrite Hown1; reflexivity|].
    registry. rewrite lookup_insert_eq. by rewrite start_mcq_any_stage.
  - intros ws e' username. eexists.
    split; [unfold handle; rewrite Hown1; reflexivity|].
    registry. rewrite lookup_insert_eq. by rewrite join_any_stage.
  - intros ws e' studentId answer session' Hsub. eexists.
    split; [unfold handle; rewrite Hown1, submit_any_stage, Hsub; reflexivity|].
    registry. apply lookup_insert_eq.
  - intros ws e' studentId explanation session' Hsub. eexists.
    split; [unfold handle; rewrite Hown1, submit_any_stage, Hsub; reflexivity|].
    registry. apply lookup_insert_eq.
Qed.

Lemma stop_keeps_data_and_export_witness :
  exists st1,
    handle 0%nat (with_bytes x00 x00 x00) (TEACHER_STOP_QUIZ "AB12C3")
           (final (sam_joins ++ bob_joins)) = Ok st1 /\
    sessions st1 =
      <["AB12C3" := set_stage STOPPED sam_and_bob]>
        (sessions (final (sam_joins ++ bob_joins))).
Proof.
  destruct (stop_keeps_data_and_export (final (sam_joins ++ bob_joins)) 0%nat
              (with_bytes x00 x00 x00) "AB12C3" sam_and_bob (proj2 run_sam_and_bob))
    as (st1 & H1 & H2 & _).
  exists st1. split; [exact H1 | exact H2].
Defined.

(** ** Reattaching the coordinator *)

Lemma broadcastTeacherView_send sessionCode session ws st :
  sessions st !! sessionCode = Some session ->
  teacher session = Some ws ->
  is_open st ws = true ->
  broadcastTeacherView sessionCode st =
    emit ws (Send (teacher_view sessionCode session)) st.
Proof.
  intros Hs Ht Hopen. unfold broadcastTeacherView, teacher_view.
  rewrite Hs, Ht. unfold sendJSON. rewrite Hopen.
  by destruct (getCurrentQuestion session).
Qed.

(** C6: after TEACHER_STOP_QUIZ the session is still in the registry, in
    STOPPED stage; TEACHER_REJOIN_SESSION from an open connection then makes
    that connection the session's teacher and sends it the
    TEACHER_VIEW_UPDATE snapshot of the session (STOPPED, the current
    question's text, options and answers, the names of the students). After
    TEACHER_CLOSE_PAGE the code is no longer in the registry and
    TEACHER_REJOIN_SESSION with it sends the caller an ERROR event. *)
Theorem reattach_after_stop_or_close st wt e sessionCode session :
  reachable st ->
  sessions st !! sessionCode = Some session ->
  (exists st1,
     handle wt e (TEACHER_STOP_QUIZ sessionCode) st = Ok st1 /\
     sessions st1 !! sessionCode = Some (set_stage STOPPED session) /\
     forall ws e', is_open st1 ws = true ->
       exists st2,
         handle ws e' (TEACHER_REJOIN_SESSION sessionCode) st1 = Ok st2 /\
         sessions st2 !! sessionCode =
           Some (set_teacher (Some ws) (set_stage STOPPED session)) /\
         wire st2 =
           wire st1 ++
           [(ws, Send (teacher_view sessionCode
                         (set_teacher (Some ws) (set_stage STOPPED session))))]) /\
  (exists st1,
     handle wt e (TEACHER_CLOSE_PAGE sessionCode) st = Ok st1 /\
     sessions st1 !! sessionCode = None /\
     forall ws e', is_open st1 ws = true ->
       handle ws e' (TEACHER_REJOIN_SESSION sessionCode) st1 =
         Ok (emit ws (Send (ERROR "Session code not found")) st1)).
Proof.
  intros Hreach Hs. apply lookup_session_Own in Hs as Hown.
  pose proof (ok_codes _ (reachable_ok _ Hreach) _ _ Hs) as Hname.
  split.
  - eexists. split; [unfold handle; rewrite Hown; reflexivity|].
    split; [registry; apply lookup_insert_eq|].
    intros ws e' Hopen.
    match type of Hopen with is_open ?a _ = _ => set (st1 := a) in * end.
    assert (sessions st1 !! sessionCode = Some (set_stage STOPPED session)) as Hs1.
    { subst st1. registry. apply lookup_insert_eq. }
    apply lookup_session_Own in Hs1 as Hown1.
    eexists. split; [unfold handle; rewrite Hown1; reflexivity|].
    split; [registry; apply lookup_insert_eq|].
    erewrite broadcastTeacherView_send; [done| | |].
    + simpl. apply lookup_insert_eq.
    + done.
    + done.
  - eexists. split; [unfold handle; rewrite Hown; reflexivity|].
    split; [simpl; apply lookup_delete_eq|].
    intros ws e' Hopen.
    match type of Hopen with is_open ?a _ = _ => set (st1 := a) in * end.
    assert (lookup_session st1 sessionCode = Undefined) as Hu.
    { apply lookup_session_Undefined. split; [|done].
      subst st1. simpl. apply lookup_delete_eq. }
    unfold handle. rewrite Hu. by rewrite sendJSON_open.
Qed.

Lemma reattach_after_stop_or_close_witness :
  exists st1,
    handle 0%nat (with_bytes x00 x00 x00) (TEACHER_CLOSE_PAGE "AB12C3")
           (final (sam_joins ++ bob_joins)) = Ok st1 /\
    sessions st1 !! "AB12C3" = None.
Proof.
  destruct (reattach_after_stop_or_close (final (sam_joins ++ bob_joins)) 0%nat
              (with_bytes x00 x00 x00) "AB12C3" sam_and_bob
              (run_reachable initial _ _ reachable_initial (proj1 run_sam_and_bob))
              (proj2 run_sam_and_bob))
    as (_ & st1 & H1 & H2 & _).
  exists st1. split; [exact H1 | exact H2].
Defined.

(** ** The keep-alive supervisor *)

Lemma closing_not_open s : readyState (closing s) <> OPEN.
Proof. unfold closing. by destruct (readyState s) eqn:H; simpl; rewrite ?H. Qed.

Lemma closing_closing s : closing (closing s) = closing s.
Proof. unfold closing. by destruct (readyState s) eqn:H; simpl; rewrite ?H. Qed.

Lemma closing_isAlive s : isAlive (closing s) = isAlive s.
Proof. unfold closing. by destruct (readyState s). Qed.

Lemma closing_ready s :
  readyState (closing s) = readyState s \/ readyState (closing s) <> OPEN.
Proof. right. apply closing_not_open. Qed.

Lemma sockets_probe st x : sockets (probe st x) = alter probe_socket x (sockets st).
Proof.
  unfold probe. destruct (sockets st !! x) as [s|] eqn:Hs.
  - assert (forall f, (f s = probe_socket s) ->
              alter f x (sockets st) = alter probe_socket x (sockets st)) as Hext.
    { intros f Hf. apply list_alter_ext; [|done].
      intros s0 Hs0. rewrite Hs in Hs0. by injection Hs0 as <-. }
    unfold probe_socket in Hext.
    destruct (isAlive s) eqn:Ha; simpl in *.
    + unfold ws_ping.
      match goal with |- context [if ?b then _ else _] => destruct b end; simpl;
        by apply Hext.
    + by apply Hext.
  - symmetry. apply list_eq. intros i. rewrite list_lookup_alter.
    case_decide; [subst; by rewrite Hs | done].
Qed.

(** The sockets after a loop over distinct connections. *)
Lemma sockets_fold_alter (f : WebSocket -> WebSocket) (g : state -> conn -> state)
    (l : list conn) (st : state) (ws : conn) :
  (forall st x, sockets (g st x) = alter f x (sockets st)) ->
  NoDup l ->
  sockets (fold_left g l st) !! ws =
    if decide (ws ∈ l) then f <$> sockets st !! ws else sockets st !! ws.
Proof.
  intros Hg. revert st. induction l as [|x l IH]; intros st Hnd; cbn [fold_left].
  - rewrite decide_False; [done|]. intros H. inversion H.
  - apply NoDup_cons in Hnd as [Hx Hnd]. rewrite IH by done. rewrite Hg.
    destruct (decide (ws = x)) as [->|Hne].
    + rewrite list_lookup_alter_eq.
      rewrite decide_False by done. rewrite decide_True by left. done.
    + rewrite list_lookup_alter_ne by done.
      destruct (decide (ws ∈ l)) as [Hin|Hin].
      * rewrite decide_True by (by right). done.
      * rewrite decide_False; [done|].
        intros H. apply elem_of_cons in H as [?|?]; done.
Qed.

Lemma NoDup_clients st : NoDup (clients st).
Proof. unfold clients. apply NoDup_ListNoDup, List.NoDup_filter, List.seq_NoDup. Qed.

Lemma elem_of_clients st ws :
  ws ∈ clients st <->
  exists s, sockets st !! ws = Some s /\ readyState s <> CLOSED.
Proof.
  unfold clients. rewrite list_elem_of_In, List.filter_In, List.in_seq.
  unfold ready. split.
  - intros [[_ Hlt] Hr]. simpl in Hlt.
    destruct (sockets st !! ws) as [s|] eqn:Hs.
    + exists s. split; [done|]. by destruct (readyState s).
    + apply lookup_ge_None in Hs. lia.
  - intros (s & Hs & Hr). rewrite Hs. apply lookup_lt_Some in Hs.
    split; [simpl; lia|]. by destruct (readyState s).
Qed.

Lemma wire_grows_refl st : wire_grows st st.
Proof. exists []. by rewrite app_nil_r. Qed.

Lemma wire_grows_trans st1 st2 st3 :
  wire_grows st1 st2 -> wire_grows st2 st3 -> wire_grows st1 st3.
Proof. intros [m1 H1] [m2 H2]. exists (m1 ++ m2). by rewrite H2, H1, app_assoc. Qed.

Lemma sent_since_then st st1 st2 x :
  sent_since st st1 x -> wire_grows st1 st2 -> sent_since st st2 x.
Proof.
  intros (m1 & H1 & Hin) [m2 H2]. exists (m1 ++ m2).
  split; [by rewrite H2, H1, app_assoc | apply elem_of_app; by left].
Qed.

Lemma sent_since_after st st1 st2 x :
  wire_grows st st1 -> sent_since st1 st2 x -> sent_since st st2 x.
Proof.
  intros [m1 H1] (m2 & H2 & Hin). exists (m1 ++ m2).
  split; [by rewrite H2, H1, app_assoc | apply elem_of_app; by right].
Qed.

Lemma wire_grows_probe st x : wire_grows st (probe st x).
Proof.
  unfold probe. destruct (sockets st !! x) as [s|]; [|apply wire_grows_refl].
  destruct (negb (isAlive s)).
  - by exists [(x, Terminate)].
  - unfold ws_ping.
    match goal with |- context [if ?b then _ else _] => destruct b end.
    + by exists [(x, Ping)].
    + exists []. simpl. by rewrite app_nil_r.
Qed.

Lemma wire_grows_fold (g : state -> conn -> state) l st :
  (forall st x, wire_grows st (g st x)) -> wire_grows st (fold_left g l st).
Proof.
  intros Hg. revert st. induction l as [|x l IH]; intros st; simpl.
  - apply wire_grows_refl.
  - eapply wire_grows_trans; [apply Hg | apply IH].
Qed.

(** What a loop over distinct connections puts on the wire for one of
    them, when each round leaves on the wire an entry that depends on the
    socket as it was before the loop. *)
Lemma wire_fold_probe l st ws s :
  NoDup l -> ws ∈ l -> sockets st !! ws = Some s ->
  (isAlive s = false -> sent_since st (fold_left probe l st) (ws, Terminate)) /\
  (isAlive s = true -> readyState s = OPEN ->
   sent_since st (fold_left probe l st) (ws, Ping)).
Proof.
  revert st. induction l as [|x l IH]; intros st Hnd Hin Hs; [inversion Hin|].
  apply NoDup_cons in Hnd as [Hx Hnd]. simpl.
  destruct (decide (ws = x)) as [->|Hne].
  - split.
    + intros Ha. eapply sent_since_then; [|apply wire_grows_fold, wire_grows_probe].
      unfold probe. rewrite Hs, Ha. simpl.
      exists [(x, Terminate)]. split; [done | left].
    + intros Ha Ho. eapply sent_since_then; [|apply wire_grows_fold, wire_grows_probe].
      unfold probe. rewrite Hs, Ha. simpl. unfold ws_ping, is_open, ready. simpl.
      rewrite list_lookup_alter_eq, Hs. simpl. rewrite Ho.
      exists [(x, Ping)]. split; [done | left].
  - apply elem_of_cons in Hin as [?|Hin]; [done|].
    destruct (IH (probe st x) Hnd Hin) as [H1 H2].
    { by rewrite sockets_probe, list_lookup_alter_ne. }
    split; intros; (eapply sent_since_after; [apply wire_grows_probe|]); auto.
Qed.

Lemma wire_fold_close l st ws :
  ws ∈ l ->
  sent_since st (fold_left (fun st ws => ws_close ws st) l st) (ws, Close).
Proof.
  revert st. induction l as [|x l IH]; intros st Hin; [inversion Hin|]. simpl.
  apply elem_of_cons in Hin as [->|Hin].
  - apply (sent_since_then st (ws_close x st)).
    + exists [(x, Close)]. split; [done | left].
    + apply (wire_grows_fold (fun st ws => ws_close ws st)).
      intros a y. by exists [(y, Close)].
  - eapply sent_since_after; [|by apply IH]. by exists [(x, Close)].
Qed.

Lemma frame_refl st : handler_frame st st.
Proof. split; auto. Qed.

Lemma frame_trans st1 st2 st3 :
  handler_frame st1 st2 -> handler_frame st2 st3 -> handler_frame st1 st3.
Proof.
  intros [U1 T1 S1 P1] [U2 T2 S2 P2]. split; try congruence.
  intros w. destruct (S1 w) as [H1|H1], (S2 w) as [H2|H2]; rewrite H2, H1; auto.
  right. destruct (sockets st1 !! w); simpl; [|done]. by rewrite closing_closing.
Qed.

Lemma frame_only_wire_send st ws a :
  is_probe (ws, a) = false -> handler_frame st (emit ws a st).
Proof.
  intros Ha. split; auto. unfold probes. simpl.
  rewrite List.filter_app. simpl. rewrite Ha. by rewrite app_nil_r.
Qed.

Lemma frame_sendJSON ws data st : handler_frame st (sendJSON ws data st).
Proof.
  unfold sendJSON. destruct ws as [w|]; [|apply frame_refl].
  destruct (is_open st w); [by apply frame_only_wire_send | apply frame_refl].
Qed.

Lemma frame_fold {B} (g : state -> B -> state) (l : list B) st :
  (forall st x, handler_frame st (g st x)) -> handler_frame st (fold_left g l st).
Proof.
  intros Hg. revert st. induction l as [|x l IH]; intros st; simpl.
  - apply frame_refl.
  - eapply frame_trans; [apply Hg | apply IH].
Qed.

Lemma frame_broadcastToSession c data st :
  handler_frame st (broadcastToSession c data st).
Proof.
  unfold broadcastToSession. destruct (sessions st !! c) as [s|]; [|apply frame_refl].
  eapply frame_trans; [apply frame_sendJSON|].
  apply frame_fold. intros a x. apply frame_sendJSON.
Qed.

Lemma frame_broadcastTeacherView c st : handler_frame st (broadcastTeacherView c st).
Proof.
  unfold broadcastTeacherView. destruct (sessions st !! c) as [s|]; [|apply frame_refl].
  destruct (teacher s); [apply frame_sendJSON | apply frame_refl].
Qed.

Lemma frame_ws_close ws st : handler_frame st (ws_close ws st).
Proof.
  split; try done.
  - intros w. simpl. rewrite list_lookup_alter. case_decide; [subst; by right | by left].
  - unfold probes. simpl. rewrite List.filter_app. simpl. by rewrite app_nil_r.
Qed.

Lemma frame_close_students s st : handler_frame st (close_students s st).
Proof. unfold close_students. apply frame_fold. intros a x. apply frame_ws_close. Qed.

Lemma frame_store c s st : handler_frame st (store c s st).
Proof. by split; auto. Qed.

Lemma frame_set_sessions x st : handler_frame st (set_sessions x st).
Proof. by split; auto. Qed.

Lemma frame_set_allocated x st : handler_frame st (set_allocated x st).
Proof. by split; auto. Qed.

Ltac frame :=
  repeat first
    [ apply frame_refl
    | eapply frame_trans;
      [| first [ apply frame_sendJSON | apply frame_broadcastToSession
               | apply frame_broadcastTeacherView | apply frame_close_students
               | apply frame_store | apply frame_set_sessions
               | apply frame_set_allocated ] ] ].

Lemma handle_frame ws e m st st' :
  handle ws e m st = Ok st' -> handler_frame st st'.
Proof.
  destruct m as [|c qt o|c|c|c|c|c|c u|c id a|c id x|]; simpl;
    try (destruct (lookup_session st c) as [s| |] eqn:Hl); try done;
    try (intros [= <-]; frame).
  - destruct (submit (set_mcqAnswer a) id s) as [[s'|]|]; [| |done];
      intros [= <-]; frame.
  - destruct (submit (set_explanation x) id s) as [[s'|]|]; [| |done];
      intros [= <-]; frame.
Qed.

Lemma sockets_keepAlive st ws :
  sockets (keepAlive st) !! ws =
    if decide (ws ∈ clients st) then
      (if totalUptime st + KEEP_ALIVE_INTERVAL >=? MAX_DURATION
       then closing else probe_socket) <$> sockets st !! ws
    else sockets st !! ws.
Proof.
  unfold keepAlive. cbn [totalUptime set_totalUptime].
  change (clients (set_totalUptime (totalUptime st + KEEP_ALIVE_INTERVAL) st))
    with (clients st).
  destruct (totalUptime st + KEEP_ALIVE_INTERVAL >=? MAX_DURATION).
  - change (sockets (set_keepAliveInterval false ?a)) with (sockets a).
    rewrite (sockets_fold_alter closing); [done | done | apply NoDup_clients].
  - rewrite (sockets_fold_alter probe_socket);
      [done | apply sockets_probe | apply NoDup_clients].
Qed.

Lemma probe_socket_decays s :
  (readyState (probe_socket s) = readyState s \/ readyState (probe_socket s) <> OPEN) /\
  (isAlive (probe_socket s) = isAlive s \/ isAlive (probe_socket s) = false).
Proof.
  unfold probe_socket. destruct (isAlive s) eqn:Ha; simpl.
  - auto.
  - split; [apply closing_ready | left; by rewrite closing_isAlive].
Qed.

(** What any input does to a socket that exists: it stays open only if it
    was, and only its own pong marks it alive. *)
Lemma step_socket st i st' ws s :
  step st i = Ok st' -> sockets st !! ws = Some s ->
  exists s',
    sockets st' !! ws = Some s' /\
    (readyState s' = readyState s \/ readyState s' <> OPEN) /\
    (i <> Pong ws -> isAlive s' = isAlive s \/ isAlive s' = false).
Proof.
  intros Hstep Hs. destruct i as [|w e m|w|w|]; simpl in Hstep.
  - injection Hstep as <-. exists s. simpl. split; [|auto].
    by apply lookup_app_l_Some.
  - assert (handler_frame st st') as Hf.
    { destruct (ready st w); try (by eapply handle_frame);
        injection Hstep as <-; apply frame_refl. }
    destruct (frame_sockets _ _ Hf ws) as [H|H]; rewrite Hs in H.
    + exists s. auto.
    + exists (closing s). split; [done|]. split; [apply closing_ready|].
      intros _. left. apply closing_isAlive.
  - destruct (ready st w); injection Hstep as <-; simpl;
      try (exists s; by auto);
      (destruct (decide (w = ws)) as [->|Hne];
       [ rewrite list_lookup_alter_eq, Hs; eexists; split; [done|]; split; [by left|];
         intros H; congruence
       | rewrite list_lookup_alter_ne by done; exists s; auto ]).
  - injection Hstep as <-. simpl.
    destruct (decide (w = ws)) as [->|Hne].
    + rewrite list_lookup_alter_eq, Hs. eexists. split; [done|]. simpl. auto.
    + rewrite list_lookup_alter_ne by done. exists s. auto.
  - destruct (keepAliveInterval st); injection Hstep as <-; [|exists s; auto].
    rewrite sockets_keepAlive, Hs.
    destruct (decide (ws ∈ clients st)); [|exists s; auto]. simpl.
    destruct (totalUptime st + KEEP_ALIVE_INTERVAL >=? MAX_DURATION).
    + eexists. split; [done|]. split; [apply closing_ready|].
      intros _. left. apply closing_isAlive.
    + eexists. split; [done|]. destruct (probe_socket_decays s). auto.
Qed.

(** What a tick of a running supervisor does to a socket: it is no longer
    open, or it was alive and is now marked not alive, the timer still
    running. *)
Lemma interval_socket st st' ws s :
  keepAliveInterval st = true ->
  step st Interval = Ok st' -> sockets st !! ws = Some s ->
  exists s',
    sockets st' !! ws = Some s' /\
    (readyState s' <> OPEN \/
     isAlive s = true /\ isAlive s' = false /\ keepAliveInterval st' = true).
Proof.
  intros Ht Hstep Hs. simpl in Hstep. rewrite Ht in Hstep. injection Hstep as <-.
  rewrite sockets_keepAlive, Hs.
  destruct (decide (ws ∈ clients st)) as [Hin|Hin].
  - simpl. unfold keepAlive. cbn [totalUptime set_totalUptime].
    destruct (totalUptime st + KEEP_ALIVE_INTERVAL >=? MAX_DURATION).
    + eexists. split; [done|]. left. apply closing_not_open.
    + eexists. split; [done|]. unfold probe_socket.
      destruct (isAlive s) eqn:Ha; simpl.
      * right. split; [done|]. split; [done|].
        apply (fold_left_invariant (fun a => keepAliveInterval a = true)); [|done].
        intros a x Hx. unfold probe. destruct (sockets a !! x) as [w|]; [|done].
        destruct (negb (isAlive w)); [done|]. unfold ws_ping.
        by match goal with |- context [if ?b then _ else _] => destruct b end.
      * left. apply closing_not_open.
  - exists s. split; [done|]. left. intros Ho. apply Hin.
    apply elem_of_clients. exists s. split; [done|]. by rewrite Ho.
Qed.

(** Once stopped, the supervisor stays stopped and sends no probe. *)
Lemma step_stopped st i st' :
  keepAliveInterval st = false -> step st i = Ok st' ->
  keepAliveInterval st' = false /\ probes st' = probes st /\
  totalUptime st' = totalUptime st.
Proof.
  intros Ht Hstep. destruct i as [|w e m|w|w|]; simpl in Hstep.
  - by injection Hstep as <-.
  - assert (handler_frame st st') as [HU HT _ HP].
    { destruct (ready st w); try (by eapply handle_frame);
        injection Hstep as <-; apply frame_refl. }
    by rewrite HT.
  - by destruct (ready st w); injection Hstep as <-.
  - by injection Hstep as <-.
  - rewrite Ht in Hstep. by injection Hstep as <-.
Qed.

Lemma run_stopped st inputs st' :
  keepAliveInterval st = false -> run st inputs = Ok st' ->
  keepAliveInterval st' = false /\ probes st' = probes st /\
  totalUptime st' = totalUptime st.
Proof.
  revert st. induction inputs as [|i inputs IH]; intros st Ht; simpl.
  - by intros [= <-].
  - destruct (step st i) as [st1|] eqn:Hstep; [|done].
    destruct (step_stopped _ _ _ Ht Hstep) as (Ht1 & Hp1 & Hu1).
    intros Hrun. destruct (IH _ Ht1 Hrun) as (? & ? & ?).
    repeat split; congruence.
Qed.

Lemma step_swept st i st' ws :
  swept st ws -> step st i = Ok st' -> swept st' ws.
Proof.
  intros (s & Hs & Hk) Hstep.
  destruct (keepAliveInterval st) eqn:Ht.
  - assert (i = Interval \/ keepAliveInterval st' = true) as [->|Ht'].
    { destruct i as [|w e m|w|w|]; simpl in Hstep; [right|right|right|right|by left].
      - injection Hstep as <-. done.
      - assert (handler_frame st st') as [_ HT _ _].
        { destruct (ready st w); try (by eapply handle_frame);
            injection Hstep as <-; apply frame_refl. }
        congruence.
      - by destruct (ready st w); injection Hstep as <-.
      - by injection Hstep as <-. }
    + destruct (interval_socket _ _ _ _ Ht Hstep Hs) as (s' & Hs' & [Hr|(_&_&Ht')]);
        exists s'; (split; [done|]); [done | congruence].
    + destruct (step_socket _ _ _ _ _ Hstep Hs) as (s' & Hs' & _).
      exists s'. split; [done|]. congruence.
  - destruct (step_stopped _ _ _ Ht Hstep) as (Ht' & _).
    destruct (step_socket _ _ _ _ _ Hstep Hs) as (s' & Hs' & [Hr|Hr] & _);
      exists s'; (split; [done|]); intros _; [rewrite Hr; auto | done].
Qed.

Lemma step_unconfirmed st i st' ws :
  unconfirmed st ws -> i <> Pong ws -> step st i = Ok st' -> unconfirmed st' ws.
Proof.
  intros (s & Hs & Hd) Hi Hstep.
  destruct (step_socket _ _ _ _ _ Hstep Hs) as (s' & Hs' & Hr & Ha).
  exists s'. split; [done|]. specialize (Ha Hi).
  destruct Hd as [Hd|Hd].
  - left. destruct Hr as [Hr|Hr]; [by rewrite Hr | done].
  - right. destruct Ha as [Ha|Ha]; [by rewrite Ha | done].
Qed.

Lemma run_unconfirmed st inputs st' ws :
  swept st ws -> unconfirmed st ws -> Pong ws ∉ inputs -> run st inputs = Ok st' ->
  swept st' ws /\ unconfirmed st' ws.
Proof.
  revert st. induction inputs as [|i inputs IH]; intros st Hk Hd Hp; simpl.
  - by intros [= <-].
  - destruct (step st i) as [st1|] eqn:Hstep; [|done].
    apply IH.
    + by eapply step_swept.
    + eapply step_unconfirmed; [done | | done]. intros ->. apply Hp. left.
    + intros Hin. apply Hp. by right.
Qed.

Lemma keepAlive_fields st :
  totalUptime (keepAlive st) = totalUptime st + KEEP_ALIVE_INTERVAL /\
  keepAliveInterval (keepAlive st) =
    (if totalUptime st + KEEP_ALIVE_INTERVAL >=? MAX_DURATION then false
     else keepAliveInterval st) /\
  wire_grows st (keepAlive st).
Proof.
  unfold keepAlive. cbn [totalUptime set_totalUptime].
  destruct (totalUptime st + KEEP_ALIVE_INTERVAL >=? MAX_DURATION).
  - split; [|split; [done|]].
    + simpl.
      apply (fold_left_invariant
               (fun a => totalUptime a = totalUptime st + KEEP_ALIVE_INTERVAL)); done.
    + apply (wire_grows_fold (fun st ws => ws_close ws st)
               _ (set_totalUptime (totalUptime st + KEEP_ALIVE_INTERVAL) st)).
      intros a y. by exists [(y, Close)].
  - assert (forall a x, totalUptime (probe a x) = totalUptime a /\
                        keepAliveInterval (probe a x) = keepAliveInterval a) as Hp.
    { intros a x. unfold probe. destruct (sockets a !! x) as [w|]; [|done].
      destruct (negb (isAlive w)); [done|]. unfold ws_ping.
      by match goal with |- context [if ?b then _ else _] => destruct b end. }
    split; [|split].
    + apply (fold_left_invariant
               (fun a => totalUptime a = totalUptime st + KEEP_ALIVE_INTERVAL)); [|done].
      intros a x Ha. by rewrite (proj1 (Hp a x)).
    + apply (fold_left_invariant
               (fun a => keepAliveInterval a = keepAliveInterval st)); [|done].
      intros a x Ha. by rewrite (proj2 (Hp a x)).
    + apply (wire_grows_fold probe
               _ (set_totalUptime (totalUptime st + KEEP_ALIVE_INTERVAL) st)).
      apply wire_grows_probe.
Qed.

Lemma step_uptime_ok st i st' : uptime_ok st -> step st i = Ok st' -> uptime_ok st'.
Proof.
  intros (n & Hn & Hu & Ht) Hstep.
  destruct i as [|w e m|w|w|]; simpl in Hstep.
  - injection Hstep as <-. by exists n.
  - assert (handler_frame st st') as [HU HT _ _].
    { destruct (ready st w); try (by eapply handle_frame);
        injection Hstep as <-; apply frame_refl. }
    exists n. by rewrite HU, HT.
  - destruct (ready st w); injection Hstep as <-; by exists n.
  - injection Hstep as <-. by exists n.
  - destruct (keepAliveInterval st) eqn:Hk; injection Hstep as <-;
      [|exists n; by rewrite Hk].
    destruct (keepAlive_fields st) as (HU & HT & _).
    exists (n + 1). rewrite HU, HT, Hu, Hk.
    unfold KEEP_ALIVE_INTERVAL, MAX_DURATION in *.
    assert (n < 120) by (by apply Ht).
    split; [lia|]. split; [lia|].
    destruct (Z.geb_spec ((n * 30000) + 30000) (60 * 60000)); split; try done; lia.
Qed.

Lemma reachable_uptime_ok st : reachable st -> uptime_ok st.
Proof.
  induction 1 as [|st i st' _ IH Hstep]; [|by eapply step_uptime_ok].
  exists 0. unfold KEEP_ALIVE_INTERVAL. simpl. repeat split; try lia; done.
Qed.

(** A tick of the running supervisor below the ceiling, seen from one
    client. *)
Lemma tick_below_ceiling st ws s :
  keepAliveInterval st = true ->
  totalUptime st + KEEP_ALIVE_INTERVAL < MAX_DURATION ->
  sockets st !! ws = Some s -> readyState s <> CLOSED ->
  exists st',
    step st Interval = Ok st' /\
    totalUptime st' = totalUptime st + KEEP_ALIVE_INTERVAL /\
    keepAliveInterval st' = true /\
    (isAlive s = false ->
     sent_since st st' (ws, Terminate) /\ ready st' ws <> OPEN) /\
    (isAlive s = true ->
     sockets st' !! ws = Some (set_isAlive false s) /\
     (readyState s = OPEN -> sent_since st st' (ws, Ping))).
Proof.
  intros Ht Hup Hs Hr.
  exists (keepAlive st). split; [simpl; by rewrite Ht|].
  destruct (keepAlive_fields st) as (HU & HT & _).
  assert ((totalUptime st + KEEP_ALIVE_INTERVAL >=? MAX_DURATION) = false) as Hb.
  { destruct (Z.geb_spec (totalUptime st + KEEP_ALIVE_INTERVAL) MAX_DURATION); [lia|done]. }
  rewrite Hb in HT. split; [done|]. split; [congruence|].
  assert (ws ∈ clients st) as Hin by (apply elem_of_clients; eauto).
  pose proof (sockets_keepAlive st ws) as Hsock.
  rewrite decide_True, Hb, Hs in Hsock by done. simpl in Hsock.
  assert (keepAlive st =
          fold_left probe (clients st)
            (set_totalUptime (totalUptime st + KEEP_ALIVE_INTERVAL) st)) as Hk.
  { unfold keepAlive. cbn [totalUptime set_totalUptime]. by rewrite Hb. }
  destruct (wire_fold_probe (clients st)
              (set_totalUptime (totalUptime st + KEEP_ALIVE_INTERVAL) st) ws s
              (NoDup_clients st) Hin Hs) as [Hterm Hping].
  rewrite <- Hk in Hterm, Hping.
  split.
  + intros Ha. split; [auto|]. unfold ready. rewrite Hsock.
    unfold probe_socket. rewrite Ha. simpl. apply closing_not_open.
  + intros Ha. split; [|auto]. rewrite Hsock. unfold probe_socket. by rewrite Ha.
Qed.

(** Without its pong, a socket marked not alive stays so. *)
Lemma run_not_alive st inputs st' ws s :
  sockets st !! ws = Some s -> isAlive s = false ->
  Pong ws ∉ inputs -> run st inputs = Ok st' ->
  exists s', sockets st' !! ws = Some s' /\ isAlive s' = false.
Proof.
  revert st s. induction inputs as [|i inputs IH]; intros st s Hs Ha Hp; simpl.
  - intros [= <-]. eauto.
  - destruct (step st i) as [st1|] eqn:Hstep; [|done].
    destruct (step_socket _ _ _ _ _ Hstep Hs) as (s1 & Hs1 & _ & Ha1).
    apply (IH st1 s1); [done | |].
    + destruct Ha1 as [Ha1|Ha1]; [|congruence|done].
      intros ->. apply Hp. left.
    + intros Hin. apply Hp. by right.
Qed.

(** C9: every tick of the running supervisor adds the fixed interval to the
    uptime. Below the ceiling, a tick terminates each client that is not
    marked alive and marks the others not alive and pings them; so a client
    whose pong does not arrive between two ticks is terminated at the
    second, and whatever happens in between it is no longer open after the
    second. At the ceiling the tick closes every client and stops the
    supervisor, which thereafter never runs: the timer stays off, the
    uptime stays, no ping or terminate is added to the wire. The ceiling is
    reached exactly: the supervisor runs while the uptime is below
    MAX_DURATION and has stopped when it equals it. *)
Theorem keep_alive_supervisor :
  (forall st ws s,
     keepAliveInterval st = true ->
     totalUptime st + KEEP_ALIVE_INTERVAL < MAX_DURATION ->
     sockets st !! ws = Some s -> readyState s <> CLOSED ->
     exists st',
       step st Interval = Ok st' /\
       totalUptime st' = totalUptime st + KEEP_ALIVE_INTERVAL /\
       keepAliveInterval st' = true /\
       (isAlive s = false ->
        sent_since st st' (ws, Terminate) /\ ready st' ws <> OPEN) /\
       (isAlive s = true ->
        sockets st' !! ws = Some (set_isAlive false s) /\
        (readyState s = OPEN -> sent_since st st' (ws, Ping)))) /\
  (forall st ws s inputs st2,
     keepAliveInterval st = true ->
     totalUptime st + KEEP_ALIVE_INTERVAL < MAX_DURATION ->
     sockets st !! ws = Some s -> readyState s <> CLOSED ->
     Pong ws ∉ inputs ->
     run st (Interval :: inputs) = Ok st2 ->
     keepAliveInterval st2 = true ->
     totalUptime st2 + KEEP_ALIVE_INTERVAL < MAX_DURATION ->
     ready st2 ws <> CLOSED ->
     exists st3,
       step st2 Interval = Ok st3 /\
       sent_since st2 st3 (ws, Terminate) /\ ready st3 ws <> OPEN) /\
  (forall st ws inputs st',
     keepAliveInterval st = true ->
     (ws < length (sockets st))%nat ->
     Pong ws ∉ inputs ->
     run st (Interval :: inputs ++ [Interval]) = Ok st' ->
     ready st' ws <> OPEN) /\
  (forall st,
     keepAliveInterval st = true ->
     totalUptime st + KEEP_ALIVE_INTERVAL >= MAX_DURATION ->
     exists st',
       step st Interval = Ok st' /\
       keepAliveInterval st' = false /\
       (forall ws, ready st' ws <> OPEN) /\
       (forall ws, ws ∈ clients st -> sent_since st st' (ws, Close)) /\
       probes st' = probes st) /\
  (forall st inputs st',
     keepAliveInterval st = false ->
     run st inputs = Ok st' ->
     keepAliveInterval st' = false /\ probes st' = probes st /\
     totalUptime st' = totalUptime st) /\
  (forall st,
     reachable st ->
     (keepAliveInterval st = true -> totalUptime st < MAX_DURATION) /\
     (keepAliveInterval st = false -> totalUptime st = MAX_DURATION)).
Proof.
  split; [|split; [|split; [|split; [|split]]]].
  - apply tick_below_ceiling.
  - intros st ws s inputs st2 Ht Hup Hs Hr Hp Hrun Ht2 Hup2 Hr2.
    simpl in Hrun. rewrite Ht in Hrun.
    assert (ws ∈ clients st) as Hin by (apply elem_of_clients; eauto).
    assert ((totalUptime st + KEEP_ALIVE_INTERVAL >=? MAX_DURATION) = false) as Hb.
    { destruct (Z.geb_spec (totalUptime st + KEEP_ALIVE_INTERVAL) MAX_DURATION); [lia|done]. }
    pose proof (sockets_keepAlive st ws) as Hsock.
    rewrite decide_True, Hb, Hs in Hsock by done. simpl in Hsock.
    assert (isAlive (probe_socket s) = false) as Ha1.
    { unfold probe_socket. destruct (isAlive s) eqn:Ha; simpl; [done|].
      by rewrite closing_isAlive. }
    destruct (run_not_alive _ _ _ _ _ Hsock Ha1 Hp Hrun) as (s2 & Hs2 & Ha2).
    assert (readyState s2 <> CLOSED) as Hr2'.
    { unfold ready in Hr2. by rewrite Hs2 in Hr2. }
    destruct (tick_below_ceiling st2 ws s2 Ht2 Hup2 Hs2 Hr2')
      as (st3 & Hstep & _ & _ & Hterm & _).
    exists st3. split; [done|]. by apply Hterm.
  - intros st ws inputs st' Ht Hlt Hp Hrun.
    destruct (lookup_lt_is_Some_2 _ _ Hlt) as [s Hs].
    change (Interval :: inputs ++ [Interval])
      with ([Interval] ++ (inputs ++ [Interval])) in Hrun.
    rewrite run_app in Hrun. simpl in Hrun. rewrite Ht in Hrun.
    rewrite run_app in Hrun.
    destruct (run (keepAlive st) inputs) as [st2|] eqn:Hrun2; [|done].
    assert (step st Interval = Ok (keepAlive st)) as Hstep1 by (simpl; by rewrite Ht).
    assert (swept st ws) as Hk0 by (exists s; split; [done | congruence]).
    assert (swept (keepAlive st) ws) as Hk1 by (by eapply step_swept).
    assert (unconfirmed (keepAlive st) ws) as Hd1.
    { destruct (interval_socket _ _ _ _ Ht Hstep1 Hs) as (s1 & Hs1 & [Hr|(_&Ha&_)]);
        exists s1; auto. }
    destruct (run_unconfirmed _ _ _ _ Hk1 Hd1 Hp Hrun2) as [Hk2 Hd2].
    simpl in Hrun. destruct (keepAliveInterval st2) eqn:Ht2; injection Hrun as <-.
    + destruct Hd2 as (s2 & Hs2 & Hd2).
      assert (step st2 Interval = Ok (keepAlive st2)) as Hstep2 by (simpl; by rewrite Ht2).
      destruct (interval_socket _ _ _ _ Ht2 Hstep2 Hs2) as (s3 & Hs3 & [Hr|(Ha&_&_)]).
      * unfold ready. by rewrite Hs3.
      * destruct Hd2 as [Hd2|Hd2]; [|congruence].
        destruct (step_socket _ _ _ _ _ Hstep2 Hs2) as (s3' & Hs3' & [Hr|Hr] & _);
          unfold ready; rewrite Hs3'; [by rewrite Hr | done].
    + destruct Hk2 as (s2 & Hs2 & Hk2). unfold ready. rewrite Hs2. auto.
  - intros st Ht Hup.
    exists (keepAlive st). split; [simpl; by rewrite Ht|].
    destruct (keepAlive_fields st) as (HU & HT & _).
    assert ((totalUptime st + KEEP_ALIVE_INTERVAL >=? MAX_DURATION) = true) as Hb.
    { destruct (Z.geb_spec (totalUptime st + KEEP_ALIVE_INTERVAL) MAX_DURATION); [done|lia]. }
    rewrite Hb in HT. split; [done|].
    assert (keepAlive st =
            set_keepAliveInterval false
              (fold_left (fun st ws => ws_close ws st) (clients st)
                 (set_totalUptime (totalUptime st + KEEP_ALIVE_INTERVAL) st))) as Hk.
    { unfold keepAlive. cbn [totalUptime set_totalUptime]. by rewrite Hb. }
    split; [|split].
    + intros ws. unfold ready. rewrite sockets_keepAlive, Hb.
      destruct (decide (ws ∈ clients st)) as [Hin|Hin].
      * destruct (sockets st !! ws); simpl; [apply closing_not_open | done].
      * destruct (sockets st !! ws) as [s|] eqn:Hs; [|done].
        intros Ho. apply Hin, elem_of_clients. exists s. split; [done|]. by rewrite Ho.
    + intros ws Hin. rewrite Hk.
      apply (wire_fold_close (clients st)
               (set_totalUptime (totalUptime st + KEEP_ALIVE_INTERVAL) st) ws Hin).
    + rewrite Hk. unfold probes. simpl.
      change (List.filter is_probe
                (wire (fold_left (fun st ws => ws_close ws st) (clients st)
                         (set_totalUptime (totalUptime st + KEEP_ALIVE_INTERVAL) st))))
        with (probes (fold_left (fun st ws => ws_close ws st) (clients st)
                        (set_totalUptime (totalUptime st + KEEP_ALIVE_INTERVAL) st))).
      apply (frame_probes (set_totalUptime (totalUptime st + KEEP_ALIVE_INTERVAL) st)).
      apply frame_fold. intros a x. apply frame_ws_close.
  - intros st inputs st'. apply run_stopped.
  - intros st Hreach. destruct (reachable_uptime_ok _ Hreach) as (n & Hn & Hu & Ht).
    unfold KEEP_ALIVE_INTERVAL, MAX_DURATION in *. split.
    + intros Hk. apply Ht in Hk. lia.
    + intros Hk. assert (~ n < 120) by (intros H; apply Ht in H; congruence). lia.
Qed.

Lemma keep_alive_supervisor_witness :
  ready silent_peer 0%nat <> OPEN /\ (0%nat, Terminate) ∈ wire silent_peer.
Proof.
  split.
  - apply (proj1 (proj2 (proj2 keep_alive_supervisor)) one_connection 0%nat [] silent_peer).
    + reflexivity.
    + simpl. lia.
    + intros H. inversion H.
    + reflexivity.
  - vm_compute. right. left.
Defined.

(** ** Joining *)

Lemma join_questions studentId username ws s :
  questions (join studentId username ws s) =
    match getCurrentQuestion s with
    | Some _ =>
        alter (fun q => set_answers (JS.set studentId (empty_slot username) (answers q)) q)
              (Z.to_nat (currentQuestionIndex s)) (questions s)
    | None => questions s
    end.
Proof.
  unfold join.
  match goal with
  | |- context [getCurrentQuestion ?a] =>
      replace (getCurrentQuestion a) with (getCurrentQuestion s) by done
  end.
  by destruct (getCurrentQuestion s).
Qed.



(** ** Starting questions *)

(** Where the sessions of the next state come from: a session of the
    same identity in the previous state, whose index was not larger, or
    the new object of a creation. *)
Lemma step_sessions st i st' c' s' :
  state_ok st -> step st i = Ok st' -> sessions st' !! c' = Some s' ->
  (allocated st <= allocated st')%nat /\
  ((exists c s, sessions st !! c = Some s /\ ident s = ident s' /\
                currentQuestionIndex s <= currentQuestionIndex s') \/
   ident s' = allocated st).
Proof.
  intros Hok Hstep Hs'.
  apply step_registry in Hstep as [[Hs Ha]|(ws & e & m & _ & _ & Hh)].
  - rewrite Ha. split; [done|]. left. rewrite Hs in Hs'. exists c', s'.
    split; [done|]. split; [done|lia].
  - apply handle_registry in Hh.
    destruct Hh as [Hs Ha|_ Hs Ha|c s _ Hl Hs Ha|c s s1 _ Hl Hup Hs Ha];
      rewrite Ha; (split; [lia|]); rewrite Hs in Hs'.
    + left. exists c', s'. split; [done|]. split; [done|lia].
    + rewrite lookup_insert in Hs'. case_decide.
      * injection Hs' as <-. by right.
      * left. exists c', s'. split; [done|]. split; [done|lia].
    + apply lookup_delete_Some in Hs' as [_ Hs'].
      left. exists c', s'. split; [done|]. split; [done|lia].
    + rewrite lookup_insert in Hs'. case_decide.
      * injection Hs' as <-. left. exists c, s. split; [done|].
        apply session_update_ident in Hup as [[Hid Hle]|[Hid (qt & o & ->)]];
          (split; [done|]); [done|].
        destruct (start_mcq_fields qt o s) as (_&_&_&_&->).
        rewrite start_mcq_length.
        rewrite (ok_index _ (ok_sessions _ Hok _ _ Hl)). lia.
      * left. exists c', s'. split; [done|]. split; [done|lia].
Qed.

Lemma run_allocated st inputs st' :
  run st inputs = Ok st' -> (allocated st <= allocated st')%nat.
Proof.
  revert st. induction inputs as [|i inputs IH]; intros st; simpl.
  - by intros [= <-].
  - destruct (step st i) as [st1|] eqn:Hstep; [|done]. intros Hrun.
    apply IH in Hrun.
    apply step_registry in Hstep as [[_ Ha]|(ws & e & m & _ & _ & Hh)]; [lia|].
    apply handle_registry in Hh. destruct Hh; lia.
Qed.

Lemma run_sessions st inputs st' c' s' :
  reachable st -> run st inputs = Ok st' -> sessions st' !! c' = Some s' ->
  (ident s' < allocated st)%nat ->
  exists c s, sessions st !! c = Some s /\ ident s = ident s' /\
              currentQuestionIndex s <= currentQuestionIndex s'.
Proof.
  intros Hreach Hrun. revert st' Hrun c' s'.
  induction inputs as [|i inputs IH] using rev_ind; intros st' Hrun c' s' Hs' Hlt.
  - simpl in Hrun. injection Hrun as <-. exists c', s'. split; [done|]. split; [done|lia].
  - rewrite run_app in Hrun.
    destruct (run st inputs) as [st1|] eqn:Hrun1; [|done].
    simpl in Hrun. destruct (step st1 i) as [st2|] eqn:Hstep; [|done].
    injection Hrun as <-.
    assert (reachable st1) as Hreach1 by (by eapply run_reachable).
    pose proof (run_allocated _ _ _ Hrun1) as Hmono.
    destruct (step_sessions _ _ _ _ _ (reachable_ok _ Hreach1) Hstep Hs')
      as [_ [(c1 & s1 & Hs1 & Hid1 & Hle1)|Hnew]]; [|lia].
    destruct (IH st1 eq_refl c1 s1 Hs1) as (c & s & Hs & Hid & Hle); [lia|].
    exists c, s. split; [done|]. split; [congruence|lia].
Qed.

Lemma starts_app st inputs inputs' id :
  starts st (inputs ++ inputs') id =
  (starts st inputs id +
   match run st inputs with
   | Ok st' => starts st' inputs' id
   | Fault _ => 0
   end)%nat.
Proof.
  revert st. induction inputs as [|inp inputs IH]; intros st; simpl; [done|].
  destruct (step st inp) as [st1|]; [rewrite IH|]; lia.
Qed.

Lemma session_update_length ws e m s s' :
  session_update ws e m s s' ->
  length (questions s') =
    (length (questions s) + if is_start m then 1 else 0)%nat.
Proof.
  destruct m as [|c qt o|c|c|c|c|c|c u|c id a|c id x|]; simpl; try done.
  - intros ->. rewrite start_mcq_length. lia.
  - intros ->. unfold next_explanation.
    destruct (getCurrentQuestion (set_stage EXPLANATION s)) as [curQ|];
      [destruct (qstage curQ)|]; simpl; rewrite ?length_alter; lia.
  - intros ->. simpl. lia.
  - intros ->. simpl. lia.
  - intros ->. rewrite join_questions.
    destruct (getCurrentQuestion s); rewrite ?length_alter; lia.
  - intros H. apply submit_Some in H as (curQ & slot & _ & _ & ->).
    simpl. rewrite length_alter. lia.
  - intros H. apply submit_Some in H as (curQ & slot & _ & _ & ->).
    simpl. rewrite length_alter. lia.
Qed.

(** No start-question command was handled on a session object not yet
    made. *)
Lemma starts_fresh inputs st id :
  run initial inputs = Ok st -> (allocated st <= id)%nat ->
  starts initial inputs id = 0%nat.
Proof.
  revert st. induction inputs as [|inp inputs IH] using rev_ind; intros st Hrun Hid;
    [done|].
  rewrite run_app in Hrun.
  destruct (run initial inputs) as [st1|] eqn:Hrun1; [|done].
  simpl in Hrun. destruct (step st1 inp) as [st2|] eqn:Hstep; [|done].
  injection Hrun as ->.
  assert (allocated st1 <= allocated st)%nat as Hmono.
  { apply (run_allocated st1 [inp]). simpl. by rewrite Hstep. }
  rewrite starts_app, Hrun1. simpl. rewrite Hstep.
  rewrite (IH st1) by (done || lia).
  assert (reachable st1) as Hreach1
    by (eapply run_reachable; [apply reachable_initial | done]).
  pose proof (reachable_ok _ Hreach1) as Hok1.
  destruct inp as [|ws e m|ws|ws|]; simpl; try done.
  destruct (ready st1 ws); try done;
    destruct (target m) as [c|]; try done;
    destruct (sessions st1 !! c) as [s|] eqn:Hs; try done;
    pose proof (ok_allocated _ Hok1 _ _ Hs);
    (destruct (Nat.eqb_spec (ident s) id); [lia | done]).
Qed.

Lemma handle_start ws e c questionText options st st' :
  handle ws e (TEACHER_START_MCQ c questionText options) st = Ok st' ->
  (sessions st !! c = None /\ sessions st' = sessions st) \/
  (exists s, sessions st !! c = Some s /\
             sessions st' = <[c := start_mcq questionText options s]> (sessions st)).
Proof.
  simpl. destruct (lookup_session st c) as [s| |] eqn:Hl; [| done |].
  - apply lookup_session_Own in Hl. intros [= <-]. right. exists s.
    split; [done|]. registry.
  - apply lookup_session_Undefined in Hl as [Hl _]. intros [= <-]. by left.
Qed.

Lemma started_closed st ws e m id :
  ready st ws = CLOSED -> started st (Message ws e m) id = 0%nat.
Proof. intros H. simpl. by rewrite H. Qed.

Lemma started_other st ws e m id :
  is_start m = false -> started st (Message ws e m) id = 0%nat.
Proof.
  intros Hm. simpl. rewrite Hm.
  destruct (ready st ws); try done;
    (destruct (target m) as [c|]; [|done]);
    (destruct (sessions st !! c); [|done]); by rewrite andb_false_r.
Qed.

Lemma started_start st ws e c questionText options id :
  ready st ws <> CLOSED ->
  started st (Message ws e (TEACHER_START_MCQ c questionText options)) id =
    match sessions st !! c with
    | Some s => if Nat.eqb (ident s) id then 1 else 0
    | None => 0
    end%nat.
Proof.
  intros Hr. simpl. destruct (ready st ws); try done;
    (destruct (sessions st !! c); [|done]); by rewrite andb_true_r.
Qed.

(** After a handler other than TEACHER_START_MCQ a session has as many
    questions as before, or is new and has none. *)
Lemma handle_other_length ws e m st st' c s :
  is_start m = false -> handle ws e m st = Ok st' ->
  sessions st' !! c = Some s ->
  (exists s0, sessions st !! c = Some s0 /\ ident s0 = ident s /\
              length (questions s0) = length (questions s)) \/
  (ident s = allocated st /\ questions s = []).
Proof.
  intros Hm Hh Hs. apply handle_registry in Hh.
  destruct Hh as [Heq _|_ Heq _|c0 s0 _ Hl Heq _|c0 s0 s0' Ht Hl Hup Heq _];
    rewrite Heq in Hs.
  - left. eauto.
  - rewrite lookup_insert in Hs. case_decide.
    + injection Hs as <-. by right.
    + left. eauto.
  - apply lookup_delete_Some in Hs as [_ Hs]. left. eauto.
  - rewrite lookup_insert in Hs. case_decide; [|left; eauto].
    subst c0. injection Hs as <-. left. exists s0. split; [done|].
    rewrite (session_update_length _ _ _ _ _ Hup), Hm.
    split; [|lia].
    apply session_update_ident in Hup as [[? _]|[? _]]; done.
Qed.

(** The questions of a session are as many as the start-question commands
    handled on it. *)
Lemma questions_count inputs st c s :
  run initial inputs = Ok st -> sessions st !! c = Some s ->
  length (questions s) = starts initial inputs (ident s).
Proof.
  revert st c s.
  induction inputs as [|inp inputs IH] using rev_ind; intros st c s Hrun Hs.
  - simpl in Hrun. injection Hrun as <-. simpl in Hs. by rewrite lookup_empty in Hs.
  - rewrite run_app in Hrun.
    destruct (run initial inputs) as [st1|] eqn:Hrun1; [|done].
    simpl in Hrun. destruct (step st1 inp) as [st2|] eqn:Hstep; [|done].
    injection Hrun as ->.
    rewrite starts_app, Hrun1. simpl starts. rewrite Hstep, Nat.add_0_r.
    assert (reachable st1) as Hreach1
      by (eapply run_reachable; [apply reachable_initial | done]).
    pose proof (reachable_ok _ Hreach1) as Hok1.
    assert (sessions st = sessions st1 -> started st1 inp (ident s) = 0%nat ->
            length (questions s) =
              (starts initial inputs (ident s) + started st1 inp (ident s))%nat) as Hsame.
    { intros Heq ->. rewrite Heq in Hs. rewrite (IH st1 c s eq_refl Hs). lia. }
    destruct inp as [|ws e m|ws|ws|].
    + apply Hsame; [|done]. simpl in Hstep. by injection Hstep as <-.
    + assert (ready st1 ws = CLOSED \/ ready st1 ws <> CLOSED) as [Hr|Hr]
        by (destruct (ready st1 ws); by eauto).
      { apply Hsame; [|by apply started_closed].
        simpl in Hstep. rewrite Hr in Hstep. by injection Hstep as <-. }
      assert (handle ws e m st1 = Ok st) as Hh.
      { simpl in Hstep. by destruct (ready st1 ws). }
      clear Hstep Hsame.
      destruct (is_start m) eqn:Hm.
      * destruct m as [|c0 qt o| | | | | | | | |]; try done.
        rewrite started_start by done.
        apply handle_start in Hh as [[Hnone Heq]|(s0 & Hs0 & Heq)]; rewrite Heq in Hs.
        -- rewrite Hnone, (IH st1 c s eq_refl Hs). lia.
        -- rewrite Hs0. rewrite lookup_insert in Hs. case_decide.
           ++ subst c0. injection Hs as <-.
              destruct (start_mcq_fields qt o s0) as (-> & _).
              rewrite Nat.eqb_refl, start_mcq_length, (IH st1 c s0 eq_refl Hs0). lia.
           ++ rewrite (IH st1 c s eq_refl Hs).
              destruct (Nat.eqb_spec (ident s0) (ident s)) as [Hid|]; [|lia].
              exfalso. by pose proof (ok_ident _ Hok1 _ _ _ _ Hs0 Hs Hid).
      * rewrite started_other, Nat.add_0_r by done.
        destruct (handle_other_length _ _ _ _ _ _ _ Hm Hh Hs)
          as [(s0 & Hs0 & Hid & Hlen)|[Hid Hnil]].
        -- rewrite <- Hlen, <- Hid. by apply (IH st1 c s0).
        -- rewrite Hnil, Hid. symmetry. by apply (starts_fresh inputs st1).
    + apply Hsame; [|done]. simpl in Hstep.
      by destruct (ready st1 ws); injection Hstep as <-.
    + apply Hsame; [|done]. simpl in Hstep. by injection Hstep as <-.
    + apply Hsame; [|done].
      apply step_registry in Hstep as [[Heq _]|(ws & e & m & Habs & _)]; done.
Qed.

(** C3: a new session has index -1 and no question. On a session of a
    reachable state, TEACHER_START_MCQ increases currentQuestionIndex by
    exactly one and the number of questions by exactly one, and every
    question (the new one included) has its 1-based position as number. In
    every reachable state the index of a session is -1 or a valid index
    into its questions. Across any input, and so across any sequence of
    inputs, the index of a session object never decreases. After any
    sequence of inputs from the initial state, a session has as many
    questions as there were TEACHER_START_MCQ commands handled on it, and
    its index is that count minus one. *)
Theorem start_question_sequence :
  (forall id ws,
     currentQuestionIndex (new_session id ws) = -1 /\
     questions (new_session id ws) = []) /\
  (forall st ws e sessionCode questionText options session,
     reachable st -> sessions st !! sessionCode = Some session ->
     exists st' session',
       handle ws e (TEACHER_START_MCQ sessionCode questionText options) st = Ok st' /\
       sessions st' !! sessionCode = Some session' /\
       ident session' = ident session /\
       currentQuestionIndex session' = currentQuestionIndex session + 1 /\
       length (questions session') = S (length (questions session)) /\
       (forall i q, questions session' !! i = Some q ->
                    questionNumber q = Z.of_nat i + 1) /\
       (exists q, questions session' !! length (questions session) = Some q /\
                  getCurrentQuestion session' = Some q)) /\
  (forall st sessionCode session,
     reachable st -> sessions st !! sessionCode = Some session ->
     currentQuestionIndex session = -1 \/
     0 <= currentQuestionIndex session < Z.of_nat (length (questions session))) /\
  (forall st i st' c c' s s',
     reachable st -> step st i = Ok st' ->
     sessions st !! c = Some s -> sessions st' !! c' = Some s' ->
     ident s = ident s' ->
     currentQuestionIndex s <= currentQuestionIndex s') /\
  (forall st inputs st' c c' s s',
     reachable st -> run st inputs = Ok st' ->
     sessions st !! c = Some s -> sessions st' !! c' = Some s' ->
     ident s = ident s' ->
     currentQuestionIndex s <= currentQuestionIndex s') /\
  (forall inputs st c s,
     run initial inputs = Ok st -> sessions st !! c = Some s ->
     length (questions s) = starts initial inputs (ident s) /\
     currentQuestionIndex s = Z.of_nat (starts initial inputs (ident s)) - 1).
Proof.
  split; [done|]. split; [|split; [|split; [|split]]].
  - intros st ws e c qt o s Hreach Hs. apply lookup_session_Own in Hs as Hown.
    pose proof (ok_sessions _ (reachable_ok _ Hreach) _ _ Hs) as Hok.
    pose proof (start_mcq_ok qt o s Hok) as Hok'.
    destruct (start_mcq_fields qt o s) as (Hid & _ & _ & _ & Hidx).
    exists (broadcastTeacherView c
              (broadcastToSession c (MCQ_STARTED (JS.or qt (JStr EmptyString)) o)
                 (store c (start_mcq qt o s) st))),
           (start_mcq qt o s).
    split; [unfold handle; by rewrite Hown|].
    split; [registry; apply lookup_insert_eq|].
    split; [done|].
    split; [rewrite Hidx, start_mcq_length, (ok_index _ Hok); lia|].
    split; [apply start_mcq_length|].
    split; [apply (ok_numbers _ Hok')|].
    destruct (lookup_lt_is_Some_2 (questions (start_mcq qt o s)) (length (questions s)))
      as [q Hq]; [rewrite start_mcq_length; lia|].
    exists q. split; [done|].
    apply (getCurrentQuestion_lookup _ (length (questions s))); [|done].
    rewrite Hidx, start_mcq_length. lia.
  - intros st c s Hreach Hs.
    pose proof (ok_index _ (ok_sessions _ (reachable_ok _ Hreach) _ _ Hs)) as Hidx.
    destruct (questions s); simpl in *; [left|right]; lia.
  - intros st i st' c c' s s' Hreach Hstep Hs Hs' Hid.
    pose proof (reachable_ok _ Hreach) as Hok.
    destruct (step_sessions _ _ _ _ _ Hok Hstep Hs')
      as [_ [(c1 & s1 & Hs1 & Hid1 & Hle1)|Hnew]].
    + assert (c = c1) as <- by (eapply (ok_ident _ Hok); eauto; congruence).
      rewrite Hs in Hs1. by injection Hs1 as <-.
    + pose proof (ok_allocated _ Hok _ _ Hs). lia.
  - intros st inputs st' c c' s s' Hreach Hrun Hs Hs' Hid.
    pose proof (reachable_ok _ Hreach) as Hok.
    destruct (run_sessions _ _ _ _ _ Hreach Hrun Hs') as (c1 & s1 & Hs1 & Hid1 & Hle1).
    { rewrite <- Hid. eapply ok_allocated; eauto. }
    assert (c = c1) as <- by (eapply (ok_ident _ Hok); eauto; congruence).
    rewrite Hs in Hs1. by injection Hs1 as <-.
  - intros inputs st c s Hrun Hs.
    pose proof (questions_count _ _ _ _ Hrun Hs) as Hlen.
    split; [done|]. rewrite <- Hlen.
    assert (reachable st) as Hreach
      by (eapply run_reachable; [apply reachable_initial | done]).
    apply (ok_index _ (ok_sessions _ (reachable_ok _ Hreach) _ _ Hs)).
Qed.

(** ** Answer records and participants *)









Lemma start_question_sequence_witness :
  exists st' session',
    handle 0%nat (with_bytes x00 x00 x00)
           (TEACHER_START_MCQ "AB12C3" (JStr "3+3?") (JNum 4))
           (final (sam_joins ++ bob_joins)) = Ok st' /\
    sessions st' !! "AB12C3" = Some session' /\
    currentQuestionIndex session' = 1 /\
    length (questions session') = 2%nat.
Proof.
  destruct (proj1 (proj2 start_question_sequence)
              (final (sam_joins ++ bob_joins)) 0%nat (with_bytes x00 x00 x00)
              "AB12C3" (JStr "3+3?") (JNum 4) sam_and_bob
              (run_reachable initial _ _ reachable_initial (proj1 run_sam_and_bob))
              (proj2 run_sam_and_bob))
    as (st' & session' & H1 & H2 & _ & H3 & H4 & _).
  exists st', session'. repeat split; assumption.
Defined.

(** * Further properties of [server.js] *)

(** ** Generated codes and ids *)

Lemma hex_byte_digits b :
  is_lower_hex (hi_digit b) = true /\ is_lower_hex (lo_digit b) = true /\
  is_upper_hex (upper_char (hi_digit b)) = true /\
  is_upper_hex (upper_char (lo_digit b)) = true /\
  unhex_byte (hi_digit b) (lo_digit b) = Some b /\
  unhex_byte (upper_char (hi_digit b)) (upper_char (lo_digit b)) = Some b.
Proof. destruct b; vm_compute; repeat split. Qed.

Lemma hex3_digits a b c :
  hex [a; b; c] =
  String (hi_digit a) (String (lo_digit a) (String (hi_digit b) (String (lo_digit b)
    (String (hi_digit c) (String (lo_digit c) EmptyString))))).
Proof. reflexivity. Qed.

(** X1: A session code is six digits out of 0-9 and A-F, a student id six out
    of 0-9 and a-f; the code is the upper-case spelling of the id the same
    bytes give; the three random bytes can be read back from either, so two
    codes (or two ids) are equal only when [crypto.randomBytes] returned the
    same bytes. *)
Theorem generated_code_round_trip e :
  String.length (generateSessionCode e) = 6%nat /\
  all_chars is_upper_hex (generateSessionCode e) = true /\
  String.length (generateStudentId e) = 6%nat /\
  all_chars is_lower_hex (generateStudentId e) = true /\
  generateSessionCode e = toUpperCase (generateStudentId e) /\
  unhex3 (generateSessionCode e) = Some (randomBytes e) /\
  unhex3 (generateStudentId e) = Some (randomBytes e) /\
  (forall e', generateSessionCode e' = generateSessionCode e ->
              randomBytes e' = randomBytes e) /\
  (forall e', generateStudentId e' = generateStudentId e ->
              randomBytes e' = randomBytes e).
Proof.
  assert (forall e0, unhex3 (generateSessionCode e0) = Some (randomBytes e0) /\
                     unhex3 (generateStudentId e0) = Some (randomBytes e0) /\
                     all_chars is_upper_hex (generateSessionCode e0) = true /\
                     all_chars is_lower_hex (generateStudentId e0) = true) as Hback.
  { intros e0. unfold generateSessionCode, generateStudentId.
    destruct (randomBytes e0) as [[a b] c]. rewrite hex3_digits.
    destruct (hex_byte_digits a) as (Ha1 & Ha2 & Ha3 & Ha4 & Ha & Ha').
    destruct (hex_byte_digits b) as (Hb1 & Hb2 & Hb3 & Hb4 & Hb & Hb').
    destruct (hex_byte_digits c) as (Hc1 & Hc2 & Hc3 & Hc4 & Hc & Hc').
    cbn [toUpperCase unhex3 all_chars].
    rewrite Ha, Hb, Hc, Ha', Hb', Hc'.
    rewrite Ha1, Ha2, Ha3, Ha4, Hb1, Hb2, Hb3, Hb4, Hc1, Hc2, Hc3, Hc4. done. }
  destruct (Hback e) as (Hc & Hi & Hup & Hlo).
  assert (String.length (generateStudentId e) = 6%nat) as Hlen.
  { unfold generateStudentId. destruct (randomBytes e) as [[a b] c]. apply length_hex3. }
  assert (generateSessionCode e = toUpperCase (generateStudentId e)) as Heq.
  { unfold generateSessionCode, generateStudentId. by destruct (randomBytes e) as [[a b] c]. }
  split; [by rewrite Heq, length_toUpperCase|].
  repeat split; try done.
  - intros e' He'. destruct (Hback e') as (Hc' & _). congruence.
  - intros e' He'. destruct (Hback e') as (_ & Hi' & _). congruence.
Qed.

(** ** Who a handler writes to *)

Lemma is_open_sockets st st' ws :
  sockets st' = sockets st -> is_open st' ws = is_open st ws.
Proof. unfold is_open, ready. by intros ->. Qed.

Lemma is_open_frame st st' ws :
  handler_frame st st' -> is_open st' ws = true -> is_open st ws = true.
Proof.
  intros Hf. unfold is_open, ready.
  destruct (frame_sockets _ _ Hf ws) as [->| ->]; [done|].
  destruct (sockets st !! ws) as [s|]; simpl; [|done].
  pose proof (closing_not_open s). by destruct (readyState (closing s)).
Qed.

Lemma wire_fold_sendJSON data (l : list Student) st :
  wire (fold_left (fun st stu => sendJSON (Some (stu_ws stu)) data st) l st) =
  wire st ++ map (fun w => (w, Send data)) (List.filter (is_open st) (map stu_ws l)).
Proof.
  revert st. induction l as [|stu l IH]; intros st; simpl.
  - by rewrite app_nil_r.
  - rewrite IH.
    rewrite (List.filter_ext (is_open (sendJSON (Some (stu_ws stu)) data st)) (is_open st)).
    + unfold sendJSON. destruct (is_open st (stu_ws stu)); simpl; [|done].
      by rewrite <- app_assoc.
    + intros w. apply is_open_sockets, sendJSON_only_wire.
Qed.

Lemma wire_broadcastToSession st sessionCode data :
  wire (broadcastToSession sessionCode data st) =
    wire st ++
    match sessions st !! sessionCode with
    | Some session =>
        map (fun w => (w, Send data)) (List.filter (is_open st) (members session))
    | None => []
    end.
Proof.
  unfold broadcastToSession, members.
  destruct (sessions st !! sessionCode) as [s|]; [|by rewrite app_nil_r].
  rewrite wire_fold_sendJSON.
  rewrite (List.filter_ext (is_open (sendJSON (teacher s) data st)) (is_open st))
    by (intros w; apply is_open_sockets, sendJSON_only_wire).
  rewrite List.filter_app, map_app, app_assoc. f_equal.
  unfold sendJSON. destruct (teacher s) as [w|]; simpl; [|by rewrite app_nil_r].
  destruct (is_open st w); simpl; [done | by rewrite app_nil_r].
Qed.


Lemma writes_refl P st : writes P st st.
Proof. exists []. by rewrite app_nil_r. Qed.

Lemma writes_trans P st1 st2 st3 :
  writes P st1 st2 -> writes P st2 st3 -> writes P st1 st3.
Proof.
  intros (m1 & H1 & F1) (m2 & H2 & F2). exists (m1 ++ m2).
  split; [by rewrite H2, H1, app_assoc | by apply Forall_app].
Qed.

Lemma writes_same_wire P st st' : wire st' = wire st -> writes P st st'.
Proof. intros H. exists []. by rewrite app_nil_r. Qed.

Lemma writes_sendJSON P ws data st :
  (is_open st ws = true -> P (ws, Send data)) ->
  writes P st (sendJSON (Some ws) data st).
Proof.
  intros HP. unfold sendJSON. destruct (is_open st ws); [|apply writes_refl].
  exists [(ws, Send data)]. split; [done|]. constructor; auto.
Qed.

Lemma writes_broadcastToSession P c data st :
  (forall s w, sessions st !! c = Some s -> w ∈ members s ->
               is_open st w = true -> P (w, Send data)) ->
  writes P st (broadcastToSession c data st).
Proof.
  intros HP. eexists. split; [apply wire_broadcastToSession|].
  destruct (sessions st !! c) as [s|]; [|done].
  apply Forall_forall. intros x Hx.
  apply list_elem_of_fmap in Hx as (w & -> & Hw).
  apply list_elem_of_In, List.filter_In in Hw as [Hw Ho].
  apply (HP s); [done | by apply list_elem_of_In | done].
Qed.

Lemma writes_broadcastTeacherView P c st :
  (forall s w ev, sessions st !! c = Some s -> teacher s = Some w ->
                  is_open st w = true -> P (w, Send ev)) ->
  writes P st (broadcastTeacherView c st).
Proof.
  intros HP. unfold broadcastTeacherView.
  destruct (sessions st !! c) as [s|]; [|apply writes_refl].
  destruct (teacher s) as [w|] eqn:Ht; [|apply writes_refl].
  apply writes_sendJSON. intros Ho. by apply (HP s).
Qed.

Lemma writes_close_students P s st :
  (forall w, w ∈ student_sockets s -> P (w, Close)) ->
  writes P st (close_students s st).
Proof.
  unfold close_students, student_sockets. generalize (values (students s)). intros l. revert st.
  induction l as [|stu l IH]; intros st HP; simpl; [apply writes_refl|].
  apply (writes_trans P st (ws_close (stu_ws stu) st)).
  - exists [(stu_ws stu, Close)]. split; [done|]. constructor; [|done].
    apply HP. left.
  - apply IH. intros w Hw. apply HP. by right.
Qed.

Lemma members_teacher s w : teacher s = Some w -> w ∈ members s.
Proof. intros H. unfold members. rewrite H. left. Qed.

Lemma members_student s w : w ∈ student_sockets s -> w ∈ members s.
Proof. intros H. unfold members. apply elem_of_app. by right. Qed.

Lemma elem_of_values_set {V} (o : jsobj V) k v x :
  x ∈ values (JS.set k v o) -> x = v \/ x ∈ values o.
Proof.
  unfold JS.set. destruct (own o k) as [v0|].
  - induction o as [|[k' v'] o IH]; simpl; [intros H; inversion H|].
    destruct (String.eqb k' k); simpl; intros H;
      apply elem_of_cons in H as [->|H]; auto.
    + right. by right.
    + right. left.
    + destruct (IH H) as [->|?]; auto. right. by right.
  - destruct (array_index k) as [n|].
    + induction o as [|[k' v'] o IH]; simpl.
      * intros H. apply list_elem_of_singleton in H. auto.
      * destruct (array_index k') as [n'|]; [destruct (n <? n')%N|]; simpl; intros H;
          apply elem_of_cons in H as [->|H]; auto.
        -- right. left.
        -- destruct (IH H) as [->|?]; auto. right. by right.
    + unfold values. rewrite map_app. simpl. intros H.
      apply elem_of_app in H as [H|H]; auto.
      apply list_elem_of_singleton in H. auto.
Qed.

Lemma members_update_current f s : members (update_current f s) = members s.
Proof. done. Qed.

Lemma members_start_mcq questionText options s :
  members (start_mcq questionText options s) = members s.
Proof.
  destruct (start_mcq_fields questionText options s) as (_ & Ht & _ & Hs & _).
  unfold members, student_sockets. by rewrite Ht, Hs.
Qed.

Lemma members_next_explanation s : members (next_explanation s) = members s.
Proof.
  destruct (next_explanation_fields s) as (_ & _ & Hs & Ht).
  unfold members, student_sockets. by rewrite Ht, Hs.
Qed.

Lemma members_join studentId username ws s w :
  w ∈ members (join studentId username ws s) -> w = ws \/ w ∈ members s.
Proof.
  destruct (join_fields studentId username ws s) as (_ & _ & _ & Ht & Hs).
  unfold members, student_sockets. rewrite Ht, Hs. intros H.
  apply elem_of_app in H as [H|H].
  - right. apply elem_of_app. by left.
  - apply list_elem_of_fmap in H as (stu & -> & H).
    apply elem_of_values_set in H as [->|H]; [by left|].
    right. apply elem_of_app. right. apply list_elem_of_fmap. eauto.
Qed.

Lemma members_session_update ws e m s s' w :
  session_update ws e m s s' -> w ∈ members s' -> w = ws \/ w ∈ members s.
Proof.
  destruct m as [|c qt o|c|c|c|c|c|c u|c id a|c id x|]; simpl; try done.
  - intros ->. rewrite members_start_mcq. auto.
  - intros ->. rewrite members_next_explanation. auto.
  - intros ->. auto.
  - intros ->. unfold members. simpl. intros H.
    apply elem_of_cons in H as [->|H]; [by left|].
    right. apply elem_of_app. by right.
  - intros ->. apply members_join.
  - intros H. apply submit_Some in H as (curQ & slot & _ & _ & ->). auto.
  - intros H. apply submit_Some in H as (curQ & slot & _ & _ & ->). auto.
Qed.

Lemma addressee_caller st ws m ev :
  is_open st ws = true -> addressee st ws m (ws, Send ev).
Proof. intros H. split; [done | by left]. Qed.

(** What a handler sends through the session it has stored. *)
Lemma writes_session st ws m c s s1 st1 :
  target m = Some c -> sessions st !! c = Some s ->
  (forall w, w ∈ members s1 -> w = ws \/ w ∈ members s) ->
  handler_frame st st1 -> sessions st1 !! c = Some s1 ->
  (forall ev, writes (addressee st ws m) st1 (broadcastToSession c ev st1)) /\
  writes (addressee st ws m) st1 (broadcastTeacherView c st1).
Proof.
  intros Ht Hs Hinc Hf Hs1.
  assert (forall w ev', w ∈ members s1 -> is_open st1 w = true ->
            addressee st ws m (w, Send ev')) as Hmem.
  { intros w ev' Hw Ho. split; [by eapply is_open_frame|]. simpl.
    destruct (Hinc w Hw) as [->|?]; [by left|]. right. eauto. }
  split.
  - intros ev. apply writes_broadcastToSession. intros s0 w Hs0 Hw Ho.
    rewrite Hs1 in Hs0. injection Hs0 as <-. auto.
  - apply writes_broadcastTeacherView. intros s0 w ev' Hs0 Hw Ho.
    rewrite Hs1 in Hs0. injection Hs0 as <-. apply Hmem; [|done].
    by apply members_teacher.
Qed.

Ltac members_kept ws e m :=
  intros ? ?;
  first [ by right
        | eapply (members_session_update ws e m); [|eassumption]; simpl;
          first [reflexivity | eassumption] ].

Lemma writes_session_broadcast st ws m c s s1 st1 ev :
  target m = Some c -> sessions st !! c = Some s ->
  (forall w, w ∈ members s1 -> w = ws \/ w ∈ members s) ->
  handler_frame st st1 -> sessions st1 !! c = Some s1 ->
  writes (addressee st ws m) st1 (broadcastToSession c ev st1).
Proof. intros. by eapply writes_session. Qed.

Lemma writes_session_view st ws m c s s1 st1 :
  target m = Some c -> sessions st !! c = Some s ->
  (forall w, w ∈ members s1 -> w = ws \/ w ∈ members s) ->
  handler_frame st st1 -> sessions st1 !! c = Some s1 ->
  writes (addressee st ws m) st1 (broadcastTeacherView c st1).
Proof. intros. by eapply writes_session. Qed.

Ltac after_broadcast ws e m c s :=
  eapply writes_trans;
  [|eapply (writes_session_broadcast _ ws m c s);
    [done | eassumption | | frame | registry; apply lookup_insert_eq];
    members_kept ws e m].

Ltac after_view ws e m c s :=
  eapply writes_trans;
  [|eapply (writes_session_view _ ws m c s);
    [done | eassumption | | frame | registry; apply lookup_insert_eq];
    members_kept ws e m].

Lemma handle_writes ws e m st st' :
  handle ws e m st = Ok st' -> writes (addressee st ws m) st st'.
Proof.
  assert (forall st1 ev, handler_frame st st1 ->
            writes (addressee st ws m) st1 (sendJSON (Some ws) ev st1)) as Hcaller.
  { intros st1 ev Hf. apply writes_sendJSON. intros Ho.
    apply addressee_caller. by eapply is_open_frame. }
  revert Hcaller.
  destruct m as [|c qt o|c|c|c|c|c|c u|c id a|c id x|]; intros Hcaller; simpl;
    try (destruct (lookup_session st c) as [s| |] eqn:Hl;
         [apply lookup_session_Own in Hl| |]); try done;
    try (intros [= <-]; apply writes_refl);
    try (intros [= <-]; eapply writes_trans; [|apply Hcaller; frame];
         by apply writes_same_wire).
  - intros [= <-].
    after_view ws e (TEACHER_START_MCQ c qt o) c s.
    after_broadcast ws e (TEACHER_START_MCQ c qt o) c s.
    by apply writes_same_wire.
  - intros [= <-].
    after_view ws e (TEACHER_NEXT_EXPLANATION c) c s.
    after_broadcast ws e (TEACHER_NEXT_EXPLANATION c) c s.
    by apply writes_same_wire.
  - intros [= <-].
    after_view ws e (TEACHER_STOP_QUIZ c) c s.
    eapply writes_trans;
      [|apply writes_close_students; intros w Hw; exists c, s; auto].
    after_broadcast ws e (TEACHER_STOP_QUIZ c) c s.
    by apply writes_same_wire.
  - intros [= <-].
    eapply writes_trans; [|by apply writes_same_wire].
    eapply writes_trans;
      [|apply writes_close_students; intros w Hw; exists c, s; auto].
    after_broadcast ws e (TEACHER_CLOSE_PAGE c) c s.
    by apply writes_same_wire.
  - intros [= <-].
    after_view ws e (TEACHER_REJOIN_SESSION c) c s.
    by apply writes_same_wire.
  - intros [= <-].
    after_view ws e (STUDENT_JOIN_SESSION c u) c s.
    eapply writes_trans; [|apply Hcaller; frame].
    by apply writes_same_wire.
  - destruct (submit (set_mcqAnswer a) id s) as [[s'|]|] eqn:Hsub; [| |done];
      intros [= <-]; [|apply writes_refl].
    after_view ws e (STUDENT_SUBMIT_MCQ c id a) c s.
    by apply writes_same_wire.
  - destruct (submit (set_explanation x) id s) as [[s'|]|] eqn:Hsub; [| |done];
      intros [= <-]; [|apply writes_refl].
    after_view ws e (STUDENT_EXPLANATION_UPDATE c id x) c s.
    by apply writes_same_wire.
Qed.

(** X3: A handler writes on the wire only events for the caller and for the
    teacher and students of the session the message names, each on a socket
    that was open when the message arrived, and the closing of the students
    of a session that is stopped or closed; it never pings or terminates,
    and what it does to a socket is at most to close it. *)
Theorem handler_addresses ws e m st st' :
  handle ws e m st = Ok st' ->
  writes (addressee st ws m) st st' /\
  (forall w, sockets st' !! w = sockets st !! w \/
             sockets st' !! w = closing <$> sockets st !! w).
Proof.
  intros Hh. split.
  - by apply (handle_writes ws e).
  - by apply handle_frame in Hh as [_ _ Hsock _].
Qed.

Lemma handler_addresses_witness :
  writes (addressee one_connection 0%nat TEACHER_CREATE_SESSION) one_connection
    (emit 0%nat (Send (SESSION_CREATED "000000"))
       (set_allocated 1 (store "000000" (new_session 0 0%nat) one_connection))).
Proof.
  apply (handler_addresses 0%nat (with_bytes x00 x00 x00) TEACHER_CREATE_SESSION
           one_connection).
  reflexivity.
Defined.

(** ** The roster of the current question *)

Section MapFacts.
Context {V W : Type} (g : V -> W).
Implicit Types (o : jsobj V) (k : string) (v : V).

Lemma own_relabel o k : own (relabel g o) k = g <$> own o k.
Proof.
  induction o as [|[k' v'] o IH]; simpl; [done|].
  by destruct (String.eqb k' k).
Qed.

Lemma relabel_replace o k v : relabel g (replace k v o) = replace k (g v) (relabel g o).
Proof.
  induction o as [|[k' v'] o IH]; simpl; [done|].
  destruct (String.eqb k' k); simpl; [done | by rewrite IH].
Qed.

Lemma relabel_insert_index o n k v :
  relabel g (insert_index n k v o) = insert_index n k (g v) (relabel g o).
Proof.
  induction o as [|[k' v'] o IH]; simpl; [done|].
  destruct (array_index k') as [n'|]; [destruct (n <? n')%N|]; simpl; try done.
  by rewrite IH.
Qed.

Lemma relabel_set o k v : relabel g (JS.set k v o) = JS.set k (g v) (relabel g o).
Proof.
  unfold JS.set. rewrite own_relabel. destruct (own o k); simpl.
  - apply relabel_replace.
  - destruct (array_index k).
    + apply relabel_insert_index.
    + unfold relabel. by rewrite map_app.
Qed.

Lemma keys_relabel o : keys (relabel g o) = keys o.
Proof. unfold keys, relabel. rewrite map_map. apply map_ext. by intros [k v]. Qed.

Lemma values_relabel o : values (relabel g o) = map g (values o).
Proof. unfold values, relabel. rewrite !map_map. apply map_ext. by intros [k v]. Qed.

End MapFacts.

Lemma set_same {V} (o : jsobj V) k v : own o k = Some v -> JS.set k v o = o.
Proof.
  intros Ho. unfold JS.set. rewrite Ho. clear -Ho.
  induction o as [|[k' v'] o IH]; simpl in *; [done|].
  destruct (String.eqb_spec k' k) as [->|Hne].
  - by injection Ho as ->.
  - by rewrite IH.
Qed.

Lemma enumeration_order_app_inv l1 l2 :
  enumeration_order (l1 ++ l2) ->
  enumeration_order l1 /\ forall a b, a ∈ l1 -> b ∈ l2 -> precedes a b.
Proof.
  induction l1 as [|k l1 IH]; simpl.
  - intros _. split; [done|]. intros a b H. inversion H.
  - intros [Hhd Htl]. destruct (IH Htl) as [Ho Hp]. split.
    + split; [|done]. intros k' Hk'. apply Hhd, elem_of_app. by left.
    + intros a b Ha Hb. apply elem_of_cons in Ha as [->|Ha]; [|by apply Hp].
      apply Hhd, elem_of_app. by right.
Qed.

(** A new key that every present key precedes goes last. *)
Lemma set_last {V} (o : jsobj V) k v :
  k ∉ keys o -> (forall k', k' ∈ keys o -> precedes k' k) ->
  JS.set k v o = o ++ [(k, v)].
Proof.
  intros Hin Hp. apply own_None_keys in Hin. unfold JS.set. rewrite Hin.
  destruct (array_index k) as [n|] eqn:Hk; [|done]. clear Hin.
  induction o as [|[k' v'] o IH]; simpl; [done|].
  assert (precedes k' k) as Hk' by (apply Hp; left).
  unfold precedes in Hk'. rewrite Hk in Hk'.
  destruct (array_index k') as [n'|]; [|done].
  destruct (N.ltb_spec n n'); [lia|].
  rewrite IH; [done|]. intros k0 H0. apply Hp. by right.
Qed.

Lemma fill_slots_names studs :
  NoDup (keys studs) -> enumeration_order (keys studs) ->
  answer_names (fill_slots studs []) = student_names studs.
Proof.
  induction studs as [|[k stu] studs IH] using rev_ind; [done|].
  unfold keys. rewrite map_app. simpl. fold (keys studs). intros Hnd Hord.
  apply NoDup_app in Hnd as (Hnd & Hk & _).
  apply enumeration_order_app_inv in Hord as [Hord Hp].
  unfold fill_slots. rewrite fold_left_app. simpl. fold (fill_slots studs []).
  unfold answer_names, student_names in *.
  rewrite relabel_set, IH by done.
  rewrite set_last.
  - unfold relabel. by rewrite map_app.
  - rewrite keys_relabel. intros H. apply (Hk k); [done | left].
  - rewrite keys_relabel. intros k' H. apply Hp; [done | left].
Qed.

Lemma getCurrentQuestion_update_current f s :
  getCurrentQuestion (update_current f s) = f <$> getCurrentQuestion s.
Proof.
  unfold getCurrentQuestion, update_current. simpl. rewrite length_alter.
  destruct (_ || _); [done|]. by rewrite list_lookup_alter_eq.
Qed.

Lemma roster_ok_update_current f s :
  (forall q, getCurrentQuestion s = Some q ->
             answer_names (answers (f q)) = answer_names (answers q)) ->
  roster_ok s -> roster_ok (update_current f s).
Proof.
  intros Hf Hs q. rewrite getCurrentQuestion_update_current.
  destruct (getCurrentQuestion s) as [q0|] eqn:Hq; [|done].
  intros [= <-]. rewrite Hf by done. by apply Hs.
Qed.

Lemma roster_ok_start_mcq questionText options s :
  session_ok s -> roster_ok (start_mcq questionText options s).
Proof.
  intros Hok q Hq.
  destruct (start_mcq_fields questionText options s) as (_ & _ & _ & Hstu & Hidx).
  destruct (start_mcq_questions questionText options s) as (prev & Hqs & Hlen & _).
  rewrite Hstu.
  apply getCurrentQuestion_Some in Hq as [_ Hq].
  rewrite Hidx, Hqs in Hq. rewrite length_app in Hq. simpl in Hq.
  replace (Z.to_nat (Z.of_nat (length prev + 1) - 1)) with (length prev + 0)%nat in Hq by lia.
  rewrite lookup_app_r in Hq by lia.
  replace (length prev + 0 - length prev)%nat with 0%nat in Hq by lia.
  injection Hq as <-. simpl.
  apply fill_slots_names; apply Hok.
Qed.

Lemma roster_ok_next_explanation s : roster_ok s -> roster_ok (next_explanation s).
Proof.
  intros H. unfold next_explanation.
  change (getCurrentQuestion (set_stage EXPLANATION s)) with (getCurrentQuestion s).
  destruct (getCurrentQuestion s) as [curQ|]; [destruct (qstage curQ)|]; try done.
  apply (roster_ok_update_current (set_qstage QEXPLANATION) (set_stage EXPLANATION s));
    done.
Qed.

Lemma roster_ok_join studentId username ws s :
  roster_ok s -> roster_ok (join studentId username ws s).
Proof.
  intros H. unfold join.
  set (stu := {| stu_username := username; stu_ws := ws |}).
  set (s1 := set_students (JS.set studentId stu (students s)) s).
  change (getCurrentQuestion s1) with (getCurrentQuestion s).
  destruct (getCurrentQuestion s) as [curQ|] eqn:Hq.
  - intros q. rewrite getCurrentQuestion_update_current.
    change (getCurrentQuestion s1) with (getCurrentQuestion s). rewrite Hq.
    intros [= <-]. simpl. unfold answer_names, student_names.
    rewrite !relabel_set. simpl. f_equal. by apply H.
  - intros q. change (getCurrentQuestion s1) with (getCurrentQuestion s). by rewrite Hq.
Qed.

Lemma roster_ok_submit write studentId s s' :
  (forall a, username (write a) = username a) ->
  roster_ok s -> submit write studentId s = Ok (Some s') -> roster_ok s'.
Proof.
  intros Hw H Hsub.
  apply submit_Some in Hsub as (curQ & slot & Hq & Hslot & ->).
  apply roster_ok_update_current; [|done].
  intros q Hq'. rewrite Hq in Hq'. injection Hq' as <-. simpl.
  unfold answer_names. rewrite relabel_set, Hw.
  apply set_same. rewrite own_relabel.
  destruct Hslot as [->|(Hnone & _ & stuInfo & Hstu & ->)]; [done|].
  exfalso. specialize (H curQ Hq). unfold answer_names, student_names in H.
  assert (own (relabel username (answers curQ)) studentId =
          own (relabel stu_username (students s)) studentId) as Heq by (by rewrite H).
  rewrite !own_relabel, Hnone, Hstu in Heq. done.
Qed.

Lemma session_update_roster ws e m s s' :
  session_ok s -> roster_ok s -> session_update ws e m s s' -> roster_ok s'.
Proof.
  intros Hok Hr. destruct m; simpl; try done.
  - intros ->. by apply roster_ok_start_mcq.
  - intros ->. by apply roster_ok_next_explanation.
  - intros ->. done.
  - intros ->. done.
  - intros ->. by apply roster_ok_join.
  - by apply roster_ok_submit.
  - by apply roster_ok_submit.
Qed.

Lemma reachable_roster st c s :
  reachable st -> sessions st !! c = Some s -> roster_ok s.
Proof.
  intros Hreach. revert c s.
  induction Hreach as [|st i st' Hreach IH Hstep]; intros c s.
  - simpl. by rewrite lookup_empty.
  - apply step_registry in Hstep as [[Hs _]|(ws & e & m & _ & _ & Hh)].
    + rewrite Hs. apply IH.
    + apply handle_registry in Hh.
      destruct Hh as [Hs _|_ Hs _|c0 s0 _ _ Hs _|c0 s0 s0' _ Hl Hup Hs _]; rewrite Hs.
      * apply IH.
      * rewrite lookup_insert. case_decide; [|apply IH].
        intros [= <-]. by intros q.
      * intros Hx. apply lookup_delete_Some in Hx as [_ Hx]. by eapply IH.
      * rewrite lookup_insert. case_decide; [|apply IH].
        intros [= <-]. eapply session_update_roster; [| |exact Hup].
        -- eapply ok_sessions; [by apply reachable_ok | done].
        -- by eapply IH.
Qed.

(** X4: In every reachable state the answer records of a session's current
    question are those of its students: the same ids in the same order,
    each record carrying the user name of its student. So the answers and
    the student names of a teacher view line up position by position, and
    the branch of the submit handlers for a student without a record in the
    current question is never taken. *)
Theorem current_question_roster st sessionCode session q :
  reachable st -> sessions st !! sessionCode = Some session ->
  getCurrentQuestion session = Some q ->
  keys (answers q) = keys (students session) /\
  map username (values (answers q)) =
    map stu_username (values (students session)) /\
  (forall studentId stuInfo,
     own (students session) studentId = Some stuInfo ->
     exists slot, own (answers q) studentId = Some slot /\
                  username slot = stu_username stuInfo) /\
  (forall studentId,
     own (students session) studentId = None -> own (answers q) studentId = None).
Proof.
  intros Hreach Hs Hq.
  pose proof (reachable_roster _ _ _ Hreach Hs q Hq) as Hr.
  unfold answer_names, student_names in Hr.
  assert (forall k, username <$> own (answers q) k =
                    stu_username <$> own (students session) k) as Hown.
  { intros k. by rewrite <- !own_relabel, Hr. }
  split; [|split; [|split]].
  - by rewrite <- (keys_relabel username), Hr, keys_relabel.
  - by rewrite <- !values_relabel, Hr.
  - intros k stuInfo Hk. specialize (Hown k). rewrite Hk in Hown.
    destruct (own (answers q) k) as [slot|]; [|done].
    exists slot. split; [done|]. simpl in Hown. congruence.
  - intros k Hk. specialize (Hown k). rewrite Hk in Hown.
    by destruct (own (answers q) k).
Qed.

Lemma current_question_roster_witness :
  keys [ ("123456", empty_slot (JStr "Bob")); ("abcdef", empty_slot (JStr "Sam")) ] =
  keys (students sam_and_bob).
Proof.
  exact (proj1 (current_question_roster (final (sam_joins ++ bob_joins)) "AB12C3"
           sam_and_bob _
           (run_reachable initial _ _ reachable_initial (proj1 run_sam_and_bob))
           (proj2 run_sam_and_bob) eq_refl)).
Defined.

(** ** Submissions *)

(** X5: A submission for an id that is not a student of the session, or while
    the session has no current question, is dropped: registry, sockets and
    wire stay as they were, for STUDENT_SUBMIT_MCQ and for
    STUDENT_EXPLANATION_UPDATE alike. *)
Theorem submission_without_record_dropped st ws e sessionCode studentId session :
  reachable st -> sessions st !! sessionCode = Some session ->
  inherited studentId = false ->
  getCurrentQuestion session = None \/ own (students session) studentId = None ->
  (forall answer,
     handle ws e (STUDENT_SUBMIT_MCQ sessionCode studentId answer) st = Ok st) /\
  (forall explanation,
     handle ws e (STUDENT_EXPLANATION_UPDATE sessionCode studentId explanation) st
       = Ok st).
Proof.
  intros Hreach Hs Hinh Hcase.
  apply lookup_session_Own in Hs as Hown.
  assert (forall write, submit write studentId session = Ok None) as Hsub.
  { intros write. unfold submit.
    destruct (getCurrentQuestion session) as [q|] eqn:Hq; [|done].
    destruct Hcase as [?|Hstu]; [done|].
    assert (own (answers q) studentId = None) as Hnone.
    { destruct (own (answers q) studentId) as [slot|] eqn:Hslot; [|done].
      exfalso.
      pose proof (reachable_roster _ _ _ Hreach Hs q Hq) as Hr.
      unfold answer_names, student_names in Hr.
      assert (own (relabel username (answers q)) studentId =
              own (relabel stu_username (students session)) studentId) as Heq
        by (by rewrite Hr).
      rewrite !own_relabel, Hslot, Hstu in Heq. done. }
    unfold JS.get, read. by rewrite Hnone, Hinh, Hstu. }
  split; intros x; unfold handle; by rewrite Hown, Hsub.
Qed.

Lemma submission_without_record_dropped_witness :
  handle 2%nat (with_bytes x00 x00 x00)
         (STUDENT_SUBMIT_MCQ "AB12C3" "000000" (JNum 1))
         (final (sam_joins ++ bob_joins))
    = Ok (final (sam_joins ++ bob_joins)).
Proof.
  exact (proj1 (submission_without_record_dropped (final (sam_joins ++ bob_joins))
                  2%nat (with_bytes x00 x00 x00) "AB12C3" "000000" sam_and_bob
                  (run_reachable initial _ _ reachable_initial (proj1 run_sam_and_bob))
                  (proj2 run_sam_and_bob) eq_refl (or_intror eq_refl))
               (JNum 1)).
Defined.

Section SetTwice.
Context {V : Type}.
Implicit Types (o : jsobj V) (k : string) (v : V).

Lemma replace_replace o k v v' : replace k v' (replace k v o) = replace k v' o.
Proof.
  induction o as [|[k0 v0] o IH]; simpl; [done|].
  destruct (String.eqb_spec k0 k) as [->|Hne]; simpl.
  - by rewrite String.eqb_refl.
  - destruct (String.eqb_spec k0 k); [done|]. by rewrite IH.
Qed.

Lemma replace_insert_index o n k v v' :
  own o k = None -> replace k v' (insert_index n k v o) = insert_index n k v' o.
Proof.
  induction o as [|[k0 v0] o IH]; simpl.
  - by rewrite String.eqb_refl.
  - destruct (String.eqb_spec k0 k) as [->|Hne]; [done|]. intros Ho.
    destruct (array_index k0) as [n0|]; [destruct (n <? n0)%N|]; simpl;
      rewrite ?String.eqb_refl; try done.
    destruct (String.eqb_spec k0 k); [done|]. by rewrite IH.
Qed.

Lemma replace_snoc o k v v' :
  own o k = None -> replace k v' (o ++ [(k, v)]) = o ++ [(k, v')].
Proof.
  induction o as [|[k0 v0] o IH]; simpl.
  - by rewrite String.eqb_refl.
  - destruct (String.eqb_spec k0 k) as [->|Hne]; [done|]. intros Ho. by rewrite IH.
Qed.

(** Of two assignments to a key the second decides the value, the first the
    position. *)
Lemma set_set o k v v' : JS.set k v' (JS.set k v o) = JS.set k v' o.
Proof.
  unfold JS.set at 1. rewrite own_set_eq.
  unfold JS.set. destruct (own o k) eqn:Ho.
  - apply replace_replace.
  - destruct (array_index k).
    + by apply replace_insert_index.
    + by apply replace_snoc.
Qed.

End SetTwice.

Lemma update_current_compose f g s :
  update_current g (update_current f s) = update_current (g ∘ f) s.
Proof.
  unfold update_current, set_questions. simpl. by rewrite list_alter_alter_eq.
Qed.

Lemma update_current_ext f g s :
  (forall q, f q = g q) -> update_current f s = update_current g s.
Proof.
  intros H. unfold update_current. f_equal. apply list_alter_ext; [|done]. auto.
Qed.

Lemma submit_record write studentId s q slot :
  getCurrentQuestion s = Some q -> own (answers q) studentId = Some slot ->
  submit write studentId s =
    Ok (Some (update_current
                (fun q => set_answers (JS.set studentId (write slot) (answers q)) q) s)).
Proof. intros Hq Hslot. unfold submit, JS.get, read. by rewrite Hq, Hslot. Qed.

Lemma handle_submit_mcq ws e c studentId answer st s s' :
  sessions st !! c = Some s ->
  submit (set_mcqAnswer answer) studentId s = Ok (Some s') ->
  handle ws e (STUDENT_SUBMIT_MCQ c studentId answer) st =
    Ok (broadcastTeacherView c (store c s' st)).
Proof.
  intros Hs Hsub. apply lookup_session_Own in Hs. unfold handle. by rewrite Hs, Hsub.
Qed.

Lemma handle_explanation_update ws e c studentId explanation st s s' :
  sessions st !! c = Some s ->
  submit (set_explanation explanation) studentId s = Ok (Some s') ->
  handle ws e (STUDENT_EXPLANATION_UPDATE c studentId explanation) st =
    Ok (broadcastTeacherView c (store c s' st)).
Proof.
  intros Hs Hsub. apply lookup_session_Own in Hs. unfold handle. by rewrite Hs, Hsub.
Qed.

(** X6: For a student with a record in the current question, STUDENT_SUBMIT_MCQ
    and STUDENT_EXPLANATION_UPDATE commute: in either order they leave the
    same registry, in which the record has the submitted answer, the
    submitted explanation and its user name, every other record and every
    other question being as before. *)
Theorem answer_and_explanation_commute
    st ws ws' e e' sessionCode studentId answer explanation session q slot :
  sessions st !! sessionCode = Some session ->
  getCurrentQuestion session = Some q ->
  own (answers q) studentId = Some slot ->
  exists st1 st2 st1' st2' session' q',
    handle ws e (STUDENT_SUBMIT_MCQ sessionCode studentId answer) st = Ok st1 /\
    handle ws' e' (STUDENT_EXPLANATION_UPDATE sessionCode studentId explanation) st1
      = Ok st2 /\
    handle ws' e' (STUDENT_EXPLANATION_UPDATE sessionCode studentId explanation) st
      = Ok st1' /\
    handle ws e (STUDENT_SUBMIT_MCQ sessionCode studentId answer) st1' = Ok st2' /\
    sessions st2 = sessions st2' /\
    sessions st2 = <[sessionCode := session']> (sessions st) /\
    getCurrentQuestion session' = Some q' /\
    own (answers q') studentId =
      Some {| username := username slot; mcqAnswer := answer;
              explanation := explanation |} /\
    keys (answers q') = keys (answers q) /\
    (forall k, k <> studentId -> own (answers q') k = own (answers q) k) /\
    (forall i, i <> Z.to_nat (currentQuestionIndex session) ->
               questions session' !! i = questions session !! i).
Proof.
  intros Hs Hq Hslot.
  set (final_slot := {| username := username slot; mcqAnswer := answer;
                        explanation := explanation |}).
  set (fa := fun q0 : Question =>
               set_answers (JS.set studentId (set_mcqAnswer answer slot) (answers q0)) q0).
  set (fx := fun q0 : Question =>
               set_answers (JS.set studentId (set_explanation explanation slot)
                                   (answers q0)) q0).
  set (h := fun q0 : Question =>
              set_answers (JS.set studentId final_slot (answers q0)) q0).
  set (sa := update_current fa session).
  set (sx := update_current fx session).
  set (s2 := update_current h session).
  assert (submit (set_mcqAnswer answer) studentId session = Ok (Some sa)) as H1
    by (by apply (submit_record _ _ _ q)).
  assert (submit (set_explanation explanation) studentId session = Ok (Some sx)) as H1'
    by (by apply (submit_record _ _ _ q)).
  assert (submit (set_explanation explanation) studentId sa = Ok (Some s2)) as H2.
  { rewrite (submit_record _ _ sa (fa q) (set_mcqAnswer answer slot)).
    - subst sa s2. rewrite update_current_compose. do 2 f_equal.
      apply update_current_ext. intros q0. unfold h, fa. simpl.
      by rewrite set_set.
    - subst sa. by rewrite getCurrentQuestion_update_current, Hq.
    - simpl. apply own_set_eq. }
  assert (submit (set_mcqAnswer answer) studentId sx = Ok (Some s2)) as H2'.
  { rewrite (submit_record _ _ sx (fx q) (set_explanation explanation slot)).
    - subst sx s2. rewrite update_current_compose. do 2 f_equal.
      apply update_current_ext. intros q0. unfold h, fx. simpl.
      by rewrite set_set.
    - subst sx. by rewrite getCurrentQuestion_update_current, Hq.
    - simpl. apply own_set_eq. }
  exists (broadcastTeacherView sessionCode (store sessionCode sa st)).
  exists (broadcastTeacherView sessionCode
            (store sessionCode s2
               (broadcastTeacherView sessionCode (store sessionCode sa st)))).
  exists (broadcastTeacherView sessionCode (store sessionCode sx st)).
  exists (broadcastTeacherView sessionCode
            (store sessionCode s2
               (broadcastTeacherView sessionCode (store sessionCode sx st)))).
  exists s2, (h q).
  split; [by eapply handle_submit_mcq|].
  split; [eapply handle_explanation_update; [|exact H2]; registry; apply lookup_insert_eq|].
  split; [by eapply handle_explanation_update|].
  split; [eapply handle_submit_mcq; [|exact H2']; registry; apply lookup_insert_eq|].
  split; [do 2 registry; by rewrite !insert_insert_eq|].
  split; [do 2 registry; by rewrite insert_insert_eq|].
  split; [subst s2; by rewrite getCurrentQuestion_update_current, Hq|].
  split; [simpl; apply own_set_eq|].
  split; [simpl; apply keys_set_old; by eapply own_Some_keys|].
  split.
  - intros k Hk. simpl. by apply own_set_ne.
  - intros i Hi. subst s2. simpl. by apply list_lookup_alter_ne.
Qed.

Lemma answer_and_explanation_commute_witness :
  exists st1 st2 st1' st2',
    handle 1%nat (with_bytes x00 x00 x00)
           (STUDENT_SUBMIT_MCQ "AB12C3" "abcdef" (JNum 2))
           (final (sam_joins ++ bob_joins)) = Ok st1 /\
    handle 1%nat (with_bytes x00 x00 x00)
           (STUDENT_EXPLANATION_UPDATE "AB12C3" "abcdef" (JStr "because"))
           st1 = Ok st2 /\
    handle 1%nat (with_bytes x00 x00 x00)
           (STUDENT_EXPLANATION_UPDATE "AB12C3" "abcdef" (JStr "because"))
           (final (sam_joins ++ bob_joins)) = Ok st1' /\
    handle 1%nat (with_bytes x00 x00 x00)
           (STUDENT_SUBMIT_MCQ "AB12C3" "abcdef" (JNum 2)) st1' = Ok st2' /\
    sessions st2 = sessions st2'.
Proof.
  destruct (answer_and_explanation_commute (final (sam_joins ++ bob_joins))
              1%nat 1%nat (with_bytes x00 x00 x00) (with_bytes x00 x00 x00)
              "AB12C3" "abcdef" (JNum 2) (JStr "because") sam_and_bob _
              (empty_slot (JStr "Sam")) (proj2 run_sam_and_bob) eq_refl eq_refl)
    as (st1 & st2 & st1' & st2' & s' & q' & H1 & H2 & H3 & H4 & H5 & _).
  exists st1, st2, st1', st2'. repeat split; assumption.
Defined.

(** ** The history of a question *)

Lemma continues_refl s : continues s s.
Proof. intros i q Hq. exists q. repeat split; auto. Qed.

Lemma continues_same s s' : questions s' = questions s -> continues s s'.
Proof. intros H i q Hq. exists q. rewrite H. repeat split; auto. Qed.

Lemma continues_length s s' :
  continues s s' -> (length (questions s) <= length (questions s'))%nat.
Proof.
  intros H. destruct (questions s) as [|q0 l] eqn:Hqs using rev_ind; [simpl; lia|].
  clear IHl. destruct (H (length l) q0) as (q' & Hq' & _).
  - rewrite Hqs. by apply list_lookup_middle.
  - apply lookup_lt_Some in Hq'. rewrite length_app. simpl. lia.
Qed.

Lemma continues_trans s1 s2 s3 :
  continues s1 s2 -> continues s2 s3 -> continues s1 s3.
Proof.
  intros H12 H23 i q Hq.
  destruct (H12 i q Hq) as (q2 & Hq2 & Hn2 & Ht2 & Ho2 & Hr2 & Hf2).
  destruct (H23 i q2 Hq2) as (q3 & Hq3 & Hn3 & Ht3 & Ho3 & Hr3 & Hf3).
  exists q3. split; [done|]. repeat split; try congruence; try lia.
  intros Hi. pose proof (continues_length _ _ H12).
  rewrite Hf3 by lia. auto.
Qed.

Lemma continues_alter f s s' :
  session_ok s ->
  questions s' = alter f (Z.to_nat (currentQuestionIndex s)) (questions s) ->
  (forall q, questions s !! Z.to_nat (currentQuestionIndex s) = Some q ->
             questionNumber (f q) = questionNumber q /\
             questionText (f q) = questionText q /\
             mcqOptions (f q) = mcqOptions q /\
             (stage_rank (qstage q) <= stage_rank (qstage (f q)))%nat) ->
  continues s s'.
Proof.
  intros Hok Hqs Hf i q Hq. rewrite Hqs.
  destruct (decide (Z.to_nat (currentQuestionIndex s) = i)) as [Hi|Hi].
  - exists (f q). subst i. rewrite list_lookup_alter_eq, Hq. simpl.
    destruct (Hf q Hq) as (? & ? & ? & ?). repeat split; try done.
    intros Hlt. rewrite (ok_index _ Hok) in Hlt. lia.
  - exists q. rewrite list_lookup_alter_ne by done. repeat split; auto.
Qed.

(** What TEACHER_START_MCQ does to the questions there were: nothing, or it
    marks the current one, found in EXPLANATION, as DONE. *)
Lemma start_mcq_previous questionText options s :
  exists prev newQ,
    questions (start_mcq questionText options s) = prev ++ [newQ] /\
    (prev = questions s \/
     exists prevQ, getCurrentQuestion s = Some prevQ /\ qstage prevQ = QEXPLANATION /\
                   prev = alter (set_qstage QDONE) (Z.to_nat (currentQuestionIndex s))
                                (questions s)).
Proof.
  unfold start_mcq.
  change (getCurrentQuestion (set_stage MCQ s)) with (getCurrentQuestion s).
  change (currentQuestionIndex (set_stage MCQ s)) with (currentQuestionIndex s).
  destruct (0 <=? currentQuestionIndex s);
    [destruct (getCurrentQuestion s) as [prevQ|] eqn:Hq;
       [destruct (qstage prevQ) eqn:Hst|]|];
    simpl; eexists _, _; (split; [reflexivity|]); eauto.
Qed.

Lemma continues_start_mcq questionText options s :
  session_ok s -> continues s (start_mcq questionText options s).
Proof.
  intros Hok i q Hq. apply lookup_lt_Some in Hq as Hlt.
  destruct (start_mcq_previous questionText options s)
    as (prev & newQ & -> & [->|(prevQ & Hcur & Hst & ->)]).
  - exists q. rewrite lookup_app_l by done. rewrite Hq. repeat split; auto.
  - rewrite lookup_app_l by (by rewrite length_alter).
    destruct (decide (Z.to_nat (currentQuestionIndex s) = i)) as [Hi|Hi].
    + subst i. rewrite list_lookup_alter_eq, Hq. simpl.
      eexists. split; [done|]. simpl. repeat split; try done.
      * destruct (qstage q); simpl; lia.
      * intros Hlt'. rewrite (ok_index _ Hok) in Hlt'. lia.
    + exists q. rewrite list_lookup_alter_ne by done. repeat split; auto.
Qed.

Lemma session_update_continues ws e m s s' :
  session_ok s -> session_update ws e m s s' -> continues s s'.
Proof.
  intros Hok. destruct m as [|c qt o|c|c|c|c|c|c u|c id a|c id x|]; simpl; try done.
  - intros ->. by apply continues_start_mcq.
  - intros ->. unfold next_explanation.
    change (getCurrentQuestion (set_stage EXPLANATION s)) with (getCurrentQuestion s).
    destruct (getCurrentQuestion s) as [curQ|] eqn:Hq;
      [destruct (qstage curQ) eqn:Hst|]; try (by apply continues_same).
    apply (continues_alter (set_qstage QEXPLANATION)); [done | done |].
    intros q0 Hq0. apply getCurrentQuestion_Some in Hq as [_ Hq].
    rewrite Hq in Hq0. injection Hq0 as <-. rewrite Hst. simpl. repeat split; lia.
  - intros ->. by apply continues_same.
  - intros ->. by apply continues_same.
  - intros ->. unfold join.
    match goal with
    | |- context [getCurrentQuestion ?a] =>
        change (getCurrentQuestion a) with (getCurrentQuestion s)
    end.
    destruct (getCurrentQuestion s) as [curQ|]; [|by apply continues_same].
    eapply continues_alter; [done | simpl; reflexivity |].
    intros q0 _. simpl. repeat split; lia.
  - intros H. apply submit_Some in H as (curQ & slot & _ & _ & ->).
    eapply continues_alter; [done | simpl; reflexivity |].
    intros q0 _. simpl. repeat split; lia.
  - intros H. apply submit_Some in H as (curQ & slot & _ & _ & ->).
    eapply continues_alter; [done | simpl; reflexivity |].
    intros q0 _. simpl. repeat split; lia.
Qed.

Lemma step_continues st i st' c' s' :
  state_ok st -> step st i = Ok st' -> sessions st' !! c' = Some s' ->
  (exists c s, sessions st !! c = Some s /\ ident s = ident s' /\ continues s s') \/
  ident s' = allocated st.
Proof.
  intros Hok Hstep Hs'.
  apply step_registry in Hstep as [[Hs Ha]|(ws & e & m & _ & _ & Hh)].
  - rewrite Hs in Hs'. left. exists c', s'. auto using continues_refl.
  - apply handle_registry in Hh.
    destruct Hh as [Hs Ha|_ Hs Ha|c s _ Hl Hs Ha|c s s1 _ Hl Hup Hs Ha];
      rewrite Hs in Hs'.
    + left. exists c', s'. auto using continues_refl.
    + rewrite lookup_insert in Hs'. case_decide.
      * injection Hs' as <-. by right.
      * left. exists c', s'. auto using continues_refl.
    + apply lookup_delete_Some in Hs' as [_ Hs'].
      left. exists c', s'. auto using continues_refl.
    + rewrite lookup_insert in Hs'. case_decide.
      * injection Hs' as <-. left. exists c, s. split; [done|]. split.
        -- apply session_update_ident in Hup as [[? _]|[? _]]; done.
        -- eapply session_update_continues; [|exact Hup]. by eapply ok_sessions.
      * left. exists c', s'. auto using continues_refl.
Qed.

Lemma run_continues st inputs st' c' s' :
  reachable st -> run st inputs = Ok st' -> sessions st' !! c' = Some s' ->
  (ident s' < allocated st)%nat ->
  exists c s, sessions st !! c = Some s /\ ident s = ident s' /\ continues s s'.
Proof.
  intros Hreach Hrun. revert st' Hrun c' s'.
  induction inputs as [|i inputs IH] using rev_ind; intros st' Hrun c' s' Hs' Hlt.
  - simpl in Hrun. injection Hrun as <-. exists c', s'. auto using continues_refl.
  - rewrite run_app in Hrun.
    destruct (run st inputs) as [st1|] eqn:Hrun1; [|done].
    simpl in Hrun. destruct (step st1 i) as [st2|] eqn:Hstep; [|done].
    injection Hrun as <-.
    assert (reachable st1) as Hreach1 by (by eapply run_reachable).
    pose proof (run_allocated _ _ _ Hrun1) as Hmono.
    destruct (step_continues _ _ _ _ _ (reachable_ok _ Hreach1) Hstep Hs')
      as [(c1 & s1 & Hs1 & Hid1 & Hc1)|Hnew]; [|lia].
    destruct (IH st1 eq_refl c1 s1 Hs1) as (c & s & Hs & Hid & Hc); [lia|].
    exists c, s. split; [done|]. split; [congruence|]. by eapply continues_trans.
Qed.

(** X7: Whatever inputs follow, the questions a session has stay where they
    are: none is removed or moved, number, text and options of a question
    never change, its stage only advances (MCQ, EXPLANATION, DONE), and a
    question that is no longer the last one is frozen, answers included. *)
Theorem question_history st inputs st' c c' s s' :
  reachable st -> run st inputs = Ok st' ->
  sessions st !! c = Some s -> sessions st' !! c' = Some s' ->
  ident s = ident s' ->
  continues s s'.
Proof.
  intros Hreach Hrun Hs Hs' Hid.
  pose proof (reachable_ok _ Hreach) as Hok.
  destruct (run_continues _ _ _ _ _ Hreach Hrun Hs') as (c1 & s1 & Hs1 & Hid1 & Hc1).
  { rewrite <- Hid. eapply ok_allocated; eauto. }
  assert (c = c1) as <- by (eapply (ok_ident _ Hok); eauto; congruence).
  rewrite Hs in Hs1. by injection Hs1 as <-.
Qed.

Lemma run_two_questions :
  run (final (sam_joins ++ bob_joins)) after_stop_start = Ok (final two_questions) /\
  exists s', sessions (final two_questions) !! "AB12C3" = Some s' /\ ident s' = 0%nat.
Proof.
  split; [by vm_compute|].
  eexists. split; [vm_compute; reflexivity | reflexivity].
Qed.

Lemma question_history_witness :
  exists s', sessions (final two_questions) !! "AB12C3" = Some s' /\
             continues sam_and_bob s'.
Proof.
  destruct run_two_questions as (Hrun & s' & Hl & Hs').
  exists s'. split; [done|].
  exact (question_history (final (sam_joins ++ bob_joins)) after_stop_start
           (final two_questions) "AB12C3" "AB12C3" sam_and_bob s'
           (run_reachable initial _ _ reachable_initial (proj1 run_sam_and_bob))
           Hrun (proj2 run_sam_and_bob) Hl (eq_sym Hs')).
Defined.

(** ** The members of a session *)

(** A relation between the sessions a handler finds and stores holds
    between a session object and what any run makes of it. *)
Lemma run_related (R : Session -> Session -> Prop) :
  (forall s, R s s) ->
  (forall s1 s2 s3, R s1 s2 -> R s2 s3 -> R s1 s3) ->
  (forall ws e m s s', session_ok s -> session_update ws e m s s' -> R s s') ->
  forall st inputs st' c c' s s',
    reachable st -> run st inputs = Ok st' ->
    sessions st !! c = Some s -> sessions st' !! c' = Some s' ->
    ident s = ident s' -> R s s'.
Proof.
  intros Hrefl Htrans Hupd st inputs. revert st.
  induction inputs as [|i inputs IH] using rev_ind;
    intros st st' c c' s s' Hreach Hrun Hs Hs' Hid.
  - simpl in Hrun. injection Hrun as <-.
    assert (c = c') as <-
      by (eapply (ok_ident _ (reachable_ok _ Hreach)); eauto).
    rewrite Hs in Hs'. injection Hs' as <-. apply Hrefl.
  - rewrite run_app in Hrun.
    destruct (run st inputs) as [st1|] eqn:Hrun1; [|done].
    simpl in Hrun. destruct (step st1 i) as [st2|] eqn:Hstep; [|done].
    injection Hrun as <-.
    assert (reachable st1) as Hreach1 by (by eapply run_reachable).
    pose proof (reachable_ok _ Hreach1) as Hok1.
    pose proof (run_allocated _ _ _ Hrun1) as Hmono.
    pose proof (ok_allocated _ (reachable_ok _ Hreach) _ _ Hs) as Hlt.
    assert (exists c1 s1, sessions st1 !! c1 = Some s1 /\ ident s1 = ident s' /\ R s1 s')
      as (c1 & s1 & Hs1 & Hid1 & HR1).
    { apply step_registry in Hstep as [[Heq _]|(ws & e & m & _ & _ & Hh)].
      - rewrite Heq in Hs'. by exists c', s'.
      - apply handle_registry in Hh.
        destruct Hh as [Heq _|_ Heq _|c0 s0 _ _ Heq _|c0 s0 s0' _ Hl Hup Heq _];
          rewrite Heq in Hs'.
        + by exists c', s'.
        + rewrite lookup_insert in Hs'. case_decide; [|by exists c', s'].
          injection Hs' as <-. simpl in Hid. lia.
        + apply lookup_delete_Some in Hs' as [_ Hs']. by exists c', s'.
        + rewrite lookup_insert in Hs'. case_decide; [|by exists c', s'].
          injection Hs' as <-. exists c0, s0. split; [done|]. split.
          * apply session_update_ident in Hup as [[? _]|[? _]]; done.
          * eapply Hupd; [|exact Hup]. by eapply ok_sessions. }
    eapply Htrans; [|exact HR1].
    eapply (IH st st1 c c1 s s1); try done. congruence.
Qed.

Lemma session_update_students ws e m s s' k :
  session_update ws e m s s' -> k ∈ keys (students s) -> k ∈ keys (students s').
Proof.
  destruct m as [|c qt o|c|c|c|c|c|c u|c id a|c id x|]; simpl; try done.
  - intros ->. by destruct (start_mcq_fields qt o s) as (_ & _ & _ & -> & _).
  - intros ->. by destruct (next_explanation_fields s) as (_ & _ & -> & _).
  - by intros ->.
  - by intros ->.
  - intros ->. destruct (join_fields (generateStudentId e) u ws s) as (_ & _ & _ & _ & ->).
    intros Hk. apply elem_of_keys_set. by right.
  - intros H. by apply submit_Some in H as (curQ & slot & _ & _ & ->).
  - intros H. by apply submit_Some in H as (curQ & slot & _ & _ & ->).
Qed.

Lemma session_update_teacher ws e m s s' :
  session_update ws e m s s' -> is_Some (teacher s) -> is_Some (teacher s').
Proof.
  destruct m as [|c qt o|c|c|c|c|c|c u|c id a|c id x|]; simpl; try done.
  - intros ->. by destruct (start_mcq_fields qt o s) as (_ & -> & _).
  - intros ->. by destruct (next_explanation_fields s) as (_ & _ & _ & ->).
  - by intros ->.
  - intros -> _. by eexists.
  - intros ->. by destruct (join_fields (generateStudentId e) u ws s) as (_ & _ & _ & -> & _).
  - intros H. by apply submit_Some in H as (curQ & slot & _ & _ & ->).
  - intros H. by apply submit_Some in H as (curQ & slot & _ & _ & ->).
Qed.

Lemma reachable_teacher st c s :
  reachable st -> sessions st !! c = Some s -> is_Some (teacher s).
Proof.
  intros Hreach. revert c s.
  induction Hreach as [|st i st' Hreach IH Hstep]; intros c s.
  - simpl. by rewrite lookup_empty.
  - apply step_registry in Hstep as [[Hs _]|(ws & e & m & _ & _ & Hh)].
    + rewrite Hs. apply IH.
    + apply handle_registry in Hh.
      destruct Hh as [Hs _|_ Hs _|c0 s0 _ _ Hs _|c0 s0 s0' _ Hl Hup Hs _]; rewrite Hs.
      * apply IH.
      * rewrite lookup_insert. case_decide; [|apply IH].
        intros [= <-]. by eexists.
      * intros Hx. apply lookup_delete_Some in Hx as [_ Hx]. by eapply IH.
      * rewrite lookup_insert. case_decide; [|apply IH].
        intros [= <-]. eapply session_update_teacher; [exact Hup|]. by eapply IH.
Qed.

(** X21: A session object never loses a member: through any inputs its students
    stay its students (a closed socket, a stop and the supervisor remove
    nobody), and it always has a teacher connection, so that the test for a
    missing teacher in [broadcastTeacherView] never fails. *)
Theorem session_members_persist st inputs st' c c' s s' :
  reachable st -> run st inputs = Ok st' ->
  sessions st !! c = Some s -> sessions st' !! c' = Some s' ->
  ident s = ident s' ->
  (forall k, k ∈ keys (students s) -> k ∈ keys (students s')) /\
  is_Some (teacher s) /\ is_Some (teacher s').
Proof.
  intros Hreach Hrun Hs Hs' Hid. split; [|split].
  - apply (run_related
             (fun s s' => forall k, k ∈ keys (students s) -> k ∈ keys (students s')))
      with (st := st) (inputs := inputs) (st' := st') (c := c) (c' := c'); try done.
    + by auto.
    + intros ws e m s0 s0' _ Hup k. by eapply session_update_students.
  - by eapply reachable_teacher.
  - eapply reachable_teacher; [|exact Hs']. by eapply run_reachable.
Qed.

Lemma session_members_persist_witness :
  exists s', sessions (final two_questions) !! "AB12C3" = Some s' /\
             (forall k, k ∈ keys (students sam_and_bob) -> k ∈ keys (students s')).
Proof.
  destruct run_two_questions as (Hrun & s' & Hl & Hs').
  exists s'. split; [done|].
  exact (proj1 (session_members_persist (final (sam_joins ++ bob_joins)) after_stop_start
                  (final two_questions) "AB12C3" "AB12C3" sam_and_bob s'
                  (run_reachable initial _ _ reachable_initial (proj1 run_sam_and_bob))
                  Hrun (proj2 run_sam_and_bob) Hl (eq_sym Hs'))).
Defined.

(** ** Sessions are isolated from one another *)

Lemma step_untouched st i st' c :
  step st i = Ok st' -> touches c i = false ->
  sessions st' !! c = sessions st !! c.
Proof.
  intros Hstep Ht.
  apply step_registry in Hstep as [[-> _] | (ws & e & m & -> & _ & Hh)]; [done|].
  apply handle_registry in Hh. simpl in Ht.
  destruct Hh as [-> _ | -> -> _ | c0 s -> _ -> _ | c0 s s1 Htar _ _ -> _]; [done| | |].
  - simpl in Ht. apply String.eqb_neq in Ht. by rewrite lookup_insert_ne.
  - simpl in Ht. apply String.eqb_neq in Ht. by rewrite lookup_delete_ne.
  - rewrite Htar in Ht. apply String.eqb_neq in Ht. by rewrite lookup_insert_ne.
Qed.

(** X8: What the registry holds under a code is changed only by a message that
    names the code or by a creation that generates it: messages for other
    sessions, new connections, pongs, closed sockets and the ticks of the
    supervisor leave the session as it is. *)
Theorem sessions_isolated st inputs st' c :
  run st inputs = Ok st' ->
  forallb (fun i => negb (touches c i)) inputs = true ->
  sessions st' !! c = sessions st !! c.
Proof.
  revert st. induction inputs as [|i inputs IH]; intros st; simpl.
  - by intros [= <-].
  - destruct (step st i) as [st1|] eqn:Hstep; [|done].
    intros Hrun Hall. apply andb_prop in Hall as [Hi Hall].
    rewrite (IH st1 Hrun Hall). eapply step_untouched; [done|].
    by destruct (touches c i).
Qed.

Lemma run_elsewhere :
  run (final (sam_joins ++ bob_joins)) elsewhere =
    Ok (final (sam_joins ++ bob_joins ++ elsewhere)).
Proof. by vm_compute. Qed.

Lemma sessions_isolated_witness :
  sessions (final (sam_joins ++ bob_joins ++ elsewhere)) !! "AB12C3" = Some sam_and_bob.
Proof.
  rewrite <- (proj2 run_sam_and_bob).
  exact (sessions_isolated (final (sam_joins ++ bob_joins)) elsewhere _ "AB12C3"
           run_elsewhere eq_refl).
Defined.

Lemma step_registered st i st' c :
  step st i = Ok st' -> closes c i = false ->
  is_Some (sessions st !! c) -> is_Some (sessions st' !! c).
Proof.
  intros Hstep Hc Hs.
  apply step_registry in Hstep as [[-> _] | (ws & e & m & -> & _ & Hh)]; [done|].
  apply handle_registry in Hh.
  destruct Hh as [-> _ | _ -> _ | c0 s -> _ -> _ | c0 s s1 _ _ _ -> _]; [done| | |].
  - rewrite lookup_insert. by case_decide.
  - simpl in Hc. apply String.eqb_neq in Hc. by rewrite lookup_delete_ne.
  - rewrite lookup_insert. by case_decide.
Qed.

(** X9: A code leaves the registry by TEACHER_CLOSE_PAGE on it and in no other
    way: a session, stopped or not, stays registered through any inputs
    among which there is no such message, whatever the supervisor does and
    whichever sockets close. *)
Theorem session_leaves_by_close_page_only st inputs st' c :
  run st inputs = Ok st' ->
  is_Some (sessions st !! c) ->
  forallb (fun i => negb (closes c i)) inputs = true ->
  is_Some (sessions st' !! c).
Proof.
  revert st. induction inputs as [|i inputs IH]; intros st; simpl.
  - by intros [= <-].
  - destruct (step st i) as [st1|] eqn:Hstep; [|done].
    intros Hrun Hs Hall. apply andb_prop in Hall as [Hi Hall].
    apply (IH st1 Hrun); [|done]. eapply step_registered; [done| |done].
    by destruct (closes c i).
Qed.

Lemma session_leaves_by_close_page_only_witness :
  is_Some (sessions (final (sam_joins ++ bob_joins ++ elsewhere)) !! "AB12C3").
Proof.
  apply (session_leaves_by_close_page_only (final (sam_joins ++ bob_joins)) elsewhere
           _ "AB12C3" run_elsewhere).
  - rewrite (proj2 run_sam_and_bob). by eexists.
  - reflexivity.
Defined.

(** ** Stopping a quiz and closing the page *)

Lemma wire_fold_ws_close (l : list Student) st :
  wire (fold_left (fun st stu => ws_close (stu_ws stu) st) l st) =
  wire st ++ map (fun w => (w, Close)) (map stu_ws l).
Proof.
  revert st. induction l as [|stu l IH]; intros st; simpl.
  - by rewrite app_nil_r.
  - rewrite IH. simpl. by rewrite <- app_assoc.
Qed.

Lemma sockets_fold_ws_close (l : list Student) st w :
  sockets (fold_left (fun st stu => ws_close (stu_ws stu) st) l st) !! w =
    if decide (w ∈ map stu_ws l) then closing <$> sockets st !! w
    else sockets st !! w.
Proof.
  revert st. induction l as [|stu l IH]; intros st; cbn [fold_left map].
  - rewrite decide_False; [done|]. intros H. inversion H.
  - rewrite IH. simpl sockets.
    destruct (decide (w = stu_ws stu)) as [->|Hne].
    + rewrite list_lookup_alter_eq. rewrite (decide_True (P := _ ∈ _ :: _)) by left.
      destruct (decide (stu_ws stu ∈ map stu_ws l)); [|done].
      destruct (sockets st !! stu_ws stu); simpl; [|done]. by rewrite closing_closing.
    + rewrite list_lookup_alter_ne by done.
      destruct (decide (w ∈ map stu_ws l)) as [Hin|Hin].
      * rewrite decide_True by (by right). done.
      * rewrite decide_False; [done|].
        intros H. apply elem_of_cons in H as [?|?]; done.
Qed.

Lemma wire_close_students s st :
  wire (close_students s st) =
    wire st ++ map (fun w => (w, Close)) (student_sockets s).
Proof. apply wire_fold_ws_close. Qed.

Lemma sockets_close_students s st w :
  sockets (close_students s st) !! w =
    if decide (w ∈ student_sockets s) then closing <$> sockets st !! w
    else sockets st !! w.
Proof. apply sockets_fold_ws_close. Qed.

Lemma is_open_close_students s st w :
  is_open (close_students s st) w =
    is_open st w && negb (bool_decide (w ∈ student_sockets s)).
Proof.
  unfold is_open, ready. rewrite sockets_close_students.
  destruct (decide (w ∈ student_sockets s)) as [Hin|Hin].
  - rewrite bool_decide_eq_true_2 by done. rewrite andb_false_r.
    destruct (sockets st !! w) as [x|]; simpl; [|done].
    pose proof (closing_not_open x). by destruct (readyState (closing x)).
  - rewrite bool_decide_eq_false_2 by done. by rewrite andb_true_r.
Qed.

Lemma wire_broadcastTeacherView c s st :
  sessions st !! c = Some s ->
  wire (broadcastTeacherView c st) =
    wire st ++
    match teacher s with
    | Some w => if is_open st w then [(w, Send (teacher_view c s))] else []
    | None => []
    end.
Proof.
  intros Hs. destruct (teacher s) as [w|] eqn:Ht.
  - destruct (is_open st w) eqn:Ho.
    + by rewrite (broadcastTeacherView_send c s w).
    + unfold broadcastTeacherView, sendJSON. rewrite Hs, Ht, Ho. by rewrite app_nil_r.
  - unfold broadcastTeacherView. rewrite Hs, Ht. by rewrite app_nil_r.
Qed.

(** What the two stopping handlers have in common: the stage is set, every
    member with an open socket is told, then every student socket is
    closed. *)
Lemma stop_and_close st c s :
  sessions st !! c = Some s ->
  let st' := close_students s
               (broadcastToSession c QUIZ_STOPPED (store c (set_stage STOPPED s) st)) in
  sessions st' = <[c := set_stage STOPPED s]> (sessions st) /\
  allocated st' = allocated st /\
  totalUptime st' = totalUptime st /\
  keepAliveInterval st' = keepAliveInterval st /\
  wire st' =
    wire st ++
    map (fun w => (w, Send QUIZ_STOPPED)) (List.filter (is_open st) (members s)) ++
    map (fun w => (w, Close)) (student_sockets s) /\
  (forall w, sockets st' !! w =
     if decide (w ∈ student_sockets s) then closing <$> sockets st !! w
     else sockets st !! w) /\
  (forall w, is_open st' w =
     is_open st w && negb (bool_decide (w ∈ student_sockets s))).
Proof.
  intros Hs st'. subst st'.
  set (st1 := store c (set_stage STOPPED s) st).
  assert (only_wire st1 (broadcastToSession c QUIZ_STOPPED st1)) as (H1 & H2 & H3 & H4 & H5)
    by apply broadcastToSession_only_wire.
  assert (handler_frame (broadcastToSession c QUIZ_STOPPED st1)
            (close_students s (broadcastToSession c QUIZ_STOPPED st1))) as [HU HT _ _]
    by apply frame_close_students.
  split; [registry|]. split; [registry|].
  split; [by rewrite HU, H4|]. split; [by rewrite HT, H5|].
  split; [|split].
  - rewrite wire_close_students, wire_broadcastToSession.
    assert (sessions st1 !! c = Some (set_stage STOPPED s)) as -> by apply lookup_insert_eq.
    by rewrite <- app_assoc.
  - intros w. by rewrite sockets_close_students, H3.
  - intros w. rewrite is_open_close_students. f_equal.
    by apply is_open_sockets.
Qed.

(** X10: TEACHER_STOP_QUIZ on a session of the registry: the session stays, in
    STOPPED stage; the wire gets QUIZ_STOPPED for the teacher and for every
    student entry whose socket is open, then the closing of every student
    socket, then the teacher view for the teacher, if its socket is open and
    is not also the socket of a student; the student sockets are no longer
    open, the other sockets are as before. *)
Theorem stop_quiz_effects st wt e sessionCode session :
  sessions st !! sessionCode = Some session ->
  exists st',
    handle wt e (TEACHER_STOP_QUIZ sessionCode) st = Ok st' /\
    sessions st' = <[sessionCode := set_stage STOPPED session]> (sessions st) /\
    wire st' =
      wire st ++
      map (fun w => (w, Send QUIZ_STOPPED))
          (List.filter (is_open st) (members session)) ++
      map (fun w => (w, Close)) (student_sockets session) ++
      match teacher session with
      | Some w =>
          if is_open st w && negb (bool_decide (w ∈ student_sockets session))
          then [(w, Send (teacher_view sessionCode (set_stage STOPPED session)))]
          else []
      | None => []
      end /\
    (forall w, sockets st' !! w =
       if decide (w ∈ student_sockets session) then closing <$> sockets st !! w
       else sockets st !! w) /\
    (forall w, w ∈ student_sockets session -> ready st' w <> OPEN).
Proof.
  intros Hs. apply lookup_session_Own in Hs as Hown.
  destruct (stop_and_close st sessionCode session Hs)
    as (Hsess & _ & _ & _ & Hwire & Hsock & Hopen).
  eexists. split; [unfold handle; rewrite Hown; reflexivity|].
  assert (forall w, sockets (broadcastTeacherView sessionCode
                      (close_students session
                         (broadcastToSession sessionCode QUIZ_STOPPED
                            (store sessionCode (set_stage STOPPED session) st)))) !! w =
                    if decide (w ∈ student_sockets session)
                    then closing <$> sockets st !! w else sockets st !! w) as Hsock'.
  { intros w. rewrite <- Hsock. f_equal. apply broadcastTeacherView_only_wire. }
  split; [by rewrite sessions_broadcastTeacherView|].
  split; [|split; [done|]].
  - rewrite (wire_broadcastTeacherView _ (set_stage STOPPED session))
      by (rewrite Hsess; apply lookup_insert_eq).
    rewrite Hwire, <- !app_assoc. do 3 f_equal. simpl.
    destruct (teacher session) as [w|]; [|done]. by rewrite Hopen.
  - intros w Hw. unfold ready. rewrite Hsock', decide_True by done.
    destruct (sockets st !! w) as [x|]; simpl; [apply closing_not_open | done].
Qed.

Lemma stop_quiz_effects_witness :
  exists st',
    handle 0%nat (with_bytes x00 x00 x00) (TEACHER_STOP_QUIZ "AB12C3")
           (final (sam_joins ++ bob_joins)) = Ok st' /\
    (forall w, w ∈ student_sockets sam_and_bob -> ready st' w <> OPEN).
Proof.
  destruct (stop_quiz_effects (final (sam_joins ++ bob_joins)) 0%nat
              (with_bytes x00 x00 x00) "AB12C3" sam_and_bob (proj2 run_sam_and_bob))
    as (st' & H1 & _ & _ & _ & H2).
  exists st'. split; [exact H1 | exact H2].
Defined.

(** X11: TEACHER_CLOSE_PAGE on a session of the registry does what
    TEACHER_STOP_QUIZ does up to and including the closing of the student
    sockets, sends no teacher view, and removes the code from the registry;
    every other code keeps its session. *)
Theorem close_page_effects st wt e sessionCode session :
  sessions st !! sessionCode = Some session ->
  exists st',
    handle wt e (TEACHER_CLOSE_PAGE sessionCode) st = Ok st' /\
    sessions st' = delete sessionCode (sessions st) /\
    wire st' =
      wire st ++
      map (fun w => (w, Send QUIZ_STOPPED))
          (List.filter (is_open st) (members session)) ++
      map (fun w => (w, Close)) (student_sockets session) /\
    (forall w, sockets st' !! w =
       if decide (w ∈ student_sockets session) then closing <$> sockets st !! w
       else sockets st !! w) /\
    (forall w, w ∈ student_sockets session -> ready st' w <> OPEN).
Proof.
  intros Hs. apply lookup_session_Own in Hs as Hown.
  destruct (stop_and_close st sessionCode session Hs)
    as (Hsess & _ & _ & _ & Hwire & Hsock & Hopen).
  eexists. split; [unfold handle; rewrite Hown; reflexivity|].
  split; [|split; [exact Hwire|split; [exact Hsock|]]].
  - cbn [sessions set_sessions]. rewrite Hsess. apply delete_insert_eq.
  - intros w Hw. unfold ready. cbn [sockets set_sessions]. rewrite Hsock, decide_True by done.
    destruct (sockets st !! w) as [x|]; simpl; [apply closing_not_open | done].
Qed.

Lemma close_page_effects_witness :
  exists st',
    handle 0%nat (with_bytes x00 x00 x00) (TEACHER_CLOSE_PAGE "AB12C3")
           (final (sam_joins ++ bob_joins)) = Ok st' /\
    sessions st' = delete "AB12C3" (sessions (final (sam_joins ++ bob_joins))).
Proof.
  destruct (close_page_effects (final (sam_joins ++ bob_joins)) 0%nat
              (with_bytes x00 x00 x00) "AB12C3" sam_and_bob (proj2 run_sam_and_bob))
    as (st' & H1 & H2 & _).
  exists st'. split; [exact H1 | exact H2].
Defined.

(** ** What the supervisor sends, and when it stops *)

Lemma sent_since_writes P st st' x : writes P st st' -> sent_since st st' x -> P x.
Proof.
  intros (more & Hw & HP) (more' & Hw' & Hin).
  rewrite Hw in Hw'. apply app_inv_head in Hw'. subst more'.
  by eapply Forall_forall in HP.
Qed.

Lemma writes_fold_probe st l st1 :
  NoDup l -> (forall x, x ∈ l -> x ∈ clients st) ->
  (forall x, x ∈ l -> sockets st1 !! x = sockets st !! x) ->
  writes (probe_entry st) st1 (fold_left probe l st1).
Proof.
  revert st1. induction l as [|x l IH]; intros st1 Hnd Hcl Hsame; simpl;
    [apply writes_refl|].
  apply NoDup_cons in Hnd as [Hx Hnd].
  assert (x ∈ clients st) as Hc by (apply Hcl; left).
  apply elem_of_clients in Hc as (s & Hs & Hr).
  assert (sockets st1 !! x = Some s) as Hs1 by (rewrite Hsame; [done | left]).
  apply (writes_trans _ st1 (probe st1 x)).
  - unfold probe. rewrite Hs1. destruct (isAlive s) eqn:Ha; simpl.
    + unfold ws_ping.
      match goal with |- context [if ?b then _ else _] => destruct b eqn:Ho end.
      * exists [(x, Ping)]. split; [done|]. constructor; [|done].
        exists s. split; [done|]. split; [done|]. simpl. split; [done|].
        unfold is_open, ready in Ho. simpl in Ho.
        rewrite list_lookup_alter_eq, Hs1 in Ho. simpl in Ho.
        by destruct (readyState s).
      * by apply writes_same_wire.
    + exists [(x, Terminate)]. split; [done|]. constructor; [|done].
      exists s. by repeat split.
  - apply IH; [done | intros y Hy; apply Hcl; by right |].
    intros y Hy. rewrite sockets_probe, list_lookup_alter_ne.
    + apply Hsame. by right.
    + intros ->. done.
Qed.

Lemma wire_fold_close_all (l : list conn) st :
  wire (fold_left (fun st ws => ws_close ws st) l st) =
  wire st ++ map (fun w => (w, Close)) l.
Proof.
  revert st. induction l as [|x l IH]; intros st; simpl.
  - by rewrite app_nil_r.
  - rewrite IH. simpl. by rewrite <- app_assoc.
Qed.

(** X12: A ping or a terminate is put on the wire by a tick of the running
    supervisor below the ceiling and by nothing else; the terminate goes to
    a client that was not marked alive when the tick began (no pong since
    its last probe), the ping to an open client that was. *)
Theorem probes_come_from_ticks st i st' ws a :
  step st i = Ok st' -> sent_since st st' (ws, a) -> is_probe (ws, a) = true ->
  i = Interval /\ keepAliveInterval st = true /\
  totalUptime st + KEEP_ALIVE_INTERVAL < MAX_DURATION /\
  probe_entry st (ws, a).
Proof.
  intros Hstep Hsent Hp.
  assert (forall P, writes P st st' -> P (ws, a)) as Hfrom
    by (intros P Hw; by eapply sent_since_writes).
  destruct i as [|w e m|w|w|]; simpl in Hstep.
  - injection Hstep as <-.
    exfalso. apply (Hfrom (fun _ => False)). by apply writes_same_wire.
  - assert (writes (fun x => is_probe x = false) st st') as Hw.
    { assert (handler_frame st st') as [_ _ _ HP].
      { destruct (ready st w); try (by eapply handle_frame);
          injection Hstep as <-; apply frame_refl. }
      destruct Hsent as (more & Hwire & _). exists more. split; [done|].
      unfold probes in HP. rewrite Hwire, List.filter_app in HP.
      rewrite <- (app_nil_r (List.filter is_probe (wire st))) in HP at 2.
      apply app_inv_head in HP.
      apply Forall_forall. intros x Hx.
      destruct (is_probe x) eqn:Hpx; [|done].
      assert (x ∈ List.filter is_probe more) as Hin
        by (apply list_elem_of_In, List.filter_In; split; [by apply list_elem_of_In | done]).
      rewrite HP in Hin. inversion Hin. }
    apply Hfrom in Hw. congruence.
  - exfalso. apply (Hfrom (fun _ => False)).
    destruct (ready st w); injection Hstep as <-; by apply writes_same_wire.
  - injection Hstep as <-.
    exfalso. apply (Hfrom (fun _ => False)). by apply writes_same_wire.
  - destruct (keepAliveInterval st) eqn:Ht; injection Hstep as <-.
    + unfold keepAlive in Hfrom. cbn [totalUptime set_totalUptime] in Hfrom.
      change (clients (set_totalUptime (totalUptime st + KEEP_ALIVE_INTERVAL) st))
        with (clients st) in Hfrom.
      destruct (Z.geb_spec (totalUptime st + KEEP_ALIVE_INTERVAL) MAX_DURATION) as [Hge|Hlt].
      * assert (is_probe (ws, a) = false); [|congruence].
        apply (Hfrom (fun x => is_probe x = false)).
        eexists. split.
        -- simpl. apply (wire_fold_close_all (clients st)
                           (set_totalUptime (totalUptime st + KEEP_ALIVE_INTERVAL) st)).
        -- apply Forall_forall. intros x Hx.
           by apply list_elem_of_fmap in Hx as (y & -> & _).
      * repeat split; try done.
        apply (Hfrom (probe_entry st)).
        apply (writes_fold_probe st (clients st)
                 (set_totalUptime (totalUptime st + KEEP_ALIVE_INTERVAL) st));
          [apply NoDup_clients | done | done].
    + exfalso. apply (Hfrom (fun _ => False)). by apply writes_same_wire.
Qed.

Lemma probes_come_from_ticks_witness :
  probe_entry (keepAlive one_connection) (0%nat, Terminate).
Proof.
  apply (probes_come_from_ticks (keepAlive one_connection) Interval
           (keepAlive (keepAlive one_connection)) 0%nat Terminate eq_refl).
  - exists [(0%nat, Terminate)]. split; [reflexivity | left].
  - reflexivity.
Defined.

Lemma step_timer st i st' :
  step st i = Ok st' ->
  if is_tick i && keepAliveInterval st then
    totalUptime st' = totalUptime st + KEEP_ALIVE_INTERVAL /\
    keepAliveInterval st' =
      negb (totalUptime st + KEEP_ALIVE_INTERVAL >=? MAX_DURATION)
  else
    totalUptime st' = totalUptime st /\ keepAliveInterval st' = keepAliveInterval st.
Proof.
  intros Hstep. destruct i as [|w e m|w|w|]; simpl in *.
  - by injection Hstep as <-.
  - assert (handler_frame st st') as [HU HT _ _]; [|done].
    destruct (ready st w); try (by eapply handle_frame);
      injection Hstep as <-; apply frame_refl.
  - by destruct (ready st w); injection Hstep as <-.
  - by injection Hstep as <-.
  - destruct (keepAliveInterval st) eqn:Hk; injection Hstep as <-; [|done].
    destruct (keepAlive_fields st) as (HU & HT & _). rewrite HU, HT, Hk.
    by destruct (_ >=? _).
Qed.

(** X13: The supervisor counts ticks from the start of the process: after a run
    with n ticks the uptime is n intervals, at most 120 of them, and the
    timer is running exactly when n is below 120. The one-hour shutdown
    happens at the 120th tick, whenever the sessions were created. *)
Theorem supervisor_stops_at_tick_120 inputs st :
  run initial inputs = Ok st ->
  totalUptime st = KEEP_ALIVE_INTERVAL * Z.of_nat (Nat.min (ticks inputs) 120) /\
  keepAliveInterval st = (ticks inputs <? 120)%nat.
Proof.
  revert st. induction inputs as [|i inputs IH] using rev_ind; intros st Hrun.
  - simpl in Hrun. by injection Hrun as <-.
  - rewrite run_app in Hrun.
    destruct (run initial inputs) as [st1|] eqn:Hrun1; [|done].
    simpl in Hrun. destruct (step st1 i) as [st2|] eqn:Hstep; [|done].
    injection Hrun as ->.
    destruct (IH st1 eq_refl) as [HU HT].
    apply step_timer in Hstep.
    unfold ticks in *. rewrite List.filter_app, length_app. simpl.
    set (n := length (List.filter is_tick inputs)) in *.
    unfold KEEP_ALIVE_INTERVAL, MAX_DURATION in *.
    destruct (is_tick i); simpl in *.
    + rewrite HT in Hstep. destruct (Nat.ltb_spec n 120); simpl in Hstep.
      * destruct Hstep as [-> ->]. rewrite HU. split; [lia|].
        destruct (Z.geb_spec (30000 * Z.of_nat (n `min` 120) + 30000) (60 * 60000));
          destruct (Nat.ltb_spec (n + 1) 120); simpl; try done; lia.
      * destruct Hstep as [-> ->]. rewrite HU. split; [lia|].
        destruct (Nat.ltb_spec (n + 1) 120); [lia | done].
    + destruct Hstep as [-> ->]. by rewrite Nat.add_0_r.
Qed.

Lemma run_120_ticks :
  run initial (repeat Interval 120) = Ok (final (repeat Interval 120)).
Proof. by vm_compute. Qed.

Lemma supervisor_stops_at_tick_120_witness :
  totalUptime (final (repeat Interval 120)) = MAX_DURATION /\
  keepAliveInterval (final (repeat Interval 120)) = false.
Proof.
  exact (supervisor_stops_at_tick_120 (repeat Interval 120) _ run_120_ticks).
Defined.

(** ** Sockets that are not open *)

Lemma writes_mono (P Q : conn * action -> Prop) st st' :
  (forall x, P x -> Q x) -> writes P st st' -> writes Q st st'.
Proof.
  intros HPQ (more & Hw & HP). exists more. split; [done|].
  eapply Forall_impl; [exact HP | done].
Qed.

Lemma step_writes_open st i st' :
  step st i = Ok st' -> writes (to_open st) st st'.
Proof.
  intros Hstep. destruct i as [|w e m|w|w|]; simpl in Hstep.
  - injection Hstep as <-. by apply writes_same_wire.
  - destruct (ready st w) eqn:Hr;
      try (injection Hstep as <-; by apply writes_refl);
      (apply handle_writes in Hstep; eapply writes_mono; [|exact Hstep];
       intros [x a]; unfold addressee, to_open; simpl; destruct a; tauto).
  - destruct (ready st w); injection Hstep as <-; by apply writes_same_wire.
  - injection Hstep as <-. by apply writes_same_wire.
  - destruct (keepAliveInterval st); injection Hstep as <-; [|apply writes_refl].
    unfold keepAlive. cbn [totalUptime set_totalUptime].
    change (clients (set_totalUptime (totalUptime st + KEEP_ALIVE_INTERVAL) st))
      with (clients st).
    destruct (_ >=? _).
    + eexists. split.
      * simpl. apply (wire_fold_close_all (clients st)
                        (set_totalUptime (totalUptime st + KEEP_ALIVE_INTERVAL) st)).
      * apply Forall_forall. intros x Hx.
        by apply list_elem_of_fmap in Hx as (y & -> & _).
    + eapply writes_mono;
        [|apply (writes_fold_probe st (clients st)
                   (set_totalUptime (totalUptime st + KEEP_ALIVE_INTERVAL) st));
          [apply NoDup_clients | done | done]].
      intros [x a] (s & Hs & _ & Ha). unfold to_open. simpl in *.
      destruct a; try done. destruct Ha as [_ Ho].
      unfold is_open, ready. by rewrite Hs, Ho.
Qed.

(** X20: A socket that is no longer open is never open again, and the server
    never sends it an event or a ping: through any inputs, all that is put
    on the wire for it is the closing or the termination of the socket. *)
Theorem nothing_sent_once_not_open st inputs st' ws s :
  run st inputs = Ok st' ->
  sockets st !! ws = Some s -> readyState s <> OPEN ->
  ready st' ws <> OPEN /\
  exists more, wire st' = wire st ++ more /\
    forall a, (ws, a) ∈ more -> a = Close \/ a = Terminate.
Proof.
  revert st s. induction inputs as [|i inputs IH]; intros st s Hrun Hs Hr; simpl in Hrun.
  - injection Hrun as <-. split; [unfold ready; by rewrite Hs|].
    exists []. rewrite app_nil_r. split; [done|]. intros a Ha. inversion Ha.
  - destruct (step st i) as [st1|] eqn:Hstep; [|done].
    destruct (step_socket _ _ _ _ _ Hstep Hs) as (s1 & Hs1 & Hr1 & _).
    assert (readyState s1 <> OPEN) as Hr1' by (destruct Hr1 as [->|]; done).
    destruct (IH st1 s1 Hrun Hs1 Hr1') as (Hclosed & more & Hwire & Hmore).
    split; [done|].
    destruct (step_writes_open _ _ _ Hstep) as (more1 & Hwire1 & Hmore1).
    exists (more1 ++ more). split; [by rewrite Hwire, Hwire1, app_assoc|].
    intros a Ha. apply elem_of_app in Ha as [Ha|Ha]; [|by apply Hmore].
    eapply Forall_forall in Hmore1; [|exact Ha]. unfold to_open in Hmore1. simpl in Hmore1.
    assert (is_open st ws = false) as Hno.
    { unfold is_open, ready. rewrite Hs. by destruct (readyState s). }
    destruct a; auto; congruence.
Qed.

Lemma run_late_messages :
  exists st', run silent_peer late_messages = Ok st'.
Proof. eexists. vm_compute. reflexivity. Qed.

Lemma nothing_sent_once_not_open_witness :
  exists st', run silent_peer late_messages = Ok st' /\ ready st' 0%nat <> OPEN.
Proof.
  destruct run_late_messages as [st' Hrun]. exists st'. split; [exact Hrun|].
  exact (proj1 (nothing_sent_once_not_open silent_peer late_messages st' 0%nat
                  {| readyState := CLOSING; isAlive := false |} Hrun eq_refl
                  ltac:(discriminate))).
Defined.

(** ** When a handler throws *)







(** ** Timestamps and file names *)

Lemma append_cons c a r : String c a +:+ r = String c (a +:+ r).
Proof. reflexivity. Qed.

Lemma append_empty_r a : a +:+ EmptyString = a.
Proof. induction a as [|c a IH]; [done | by rewrite append_cons, IH]. Qed.

Lemma take_app a r : take (String.length a) (a +:+ r) = a.
Proof.
  induction a as [|c a IH]; [by destruct r|].
  rewrite append_cons. simpl. by rewrite IH.
Qed.

Lemma drop_app a r : drop (String.length a) (a +:+ r) = r.
Proof.
  induction a as [|c a IH]; [by destruct r|].
  rewrite append_cons. simpl. by rewrite IH.
Qed.

Lemma length_append a r :
  String.length (a +:+ r) = (String.length a + String.length r)%nat.
Proof.
  induction a as [|c a IH]; [done|].
  rewrite append_cons. simpl. by rewrite IH.
Qed.

Lemma spells_spec width n s :
  spells width n s = true -> String.length s = width /\ number s = Some n.
Proof.
  unfold spells. intros H. apply andb_prop in H as [Hl Hn].
  apply Nat.eqb_eq in Hl. split; [done|].
  destruct (number s) as [z|]; [|done]. apply Z.eqb_eq in Hn. by subst.
Qed.

Lemma read_field_app n a r z :
  String.length a = n -> number a = Some z -> read_field n (a +:+ r) = Some (z, r).
Proof.
  intros <- Hz. unfold read_field. rewrite take_app, drop_app, Nat.eqb_refl, Hz. done.
Qed.

Lemma two_digits_spelled :
  forallb (fun k => spells 2 (Z.of_nat k)
                           (padStart 2 "0" (toString (JNum (Z.of_nat k)))))
          (seq 0 (Z.to_nat 100)) = true.
Proof. vm_compute. reflexivity. Qed.

Lemma four_digits_spelled :
  forallb (fun k => spells 4 (1000 + Z.of_nat k)
                           (toString (JNum (1000 + Z.of_nat k))))
          (seq 0 (Z.to_nat 9000)) = true.
Proof. vm_compute. reflexivity. Qed.

Lemma two_digits n :
  0 <= n <= 99 ->
  String.length (padStart 2 "0" (toString (JNum n))) = 2%nat /\
  number (padStart 2 "0" (toString (JNum n))) = Some n.
Proof.
  intros Hn. apply spells_spec.
  replace n with (Z.of_nat (Z.to_nat n)) by lia.
  apply (proj1 (forallb_forall _ _) two_digits_spelled).
  apply (proj2 (in_seq (Z.to_nat 100) 0 (Z.to_nat n))). lia.
Qed.

Lemma four_digits n :
  1000 <= n <= 9999 ->
  String.length (toString (JNum n)) = 4%nat /\ number (toString (JNum n)) = Some n.
Proof.
  intros Hn. apply spells_spec.
  replace n with (1000 + Z.of_nat (Z.to_nat (n - 1000))) by lia.
  apply (proj1 (forallb_forall _ _) four_digits_spelled).
  apply (proj2 (in_seq (Z.to_nat 9000) 0 (Z.to_nat (n - 1000)))). lia.
Qed.

(** X16: For a date of the calendar the timestamp has 15 characters,
    yyyymmdd-HHMMSS with the month counted from 1, and the date can be read
    back from it: two exports get the same timestamp only within the same
    second. *)
Theorem timestamp_round_trip d :
  calendar d ->
  String.length (getTimestampString d) = 15%nat /\
  parse_timestamp (getTimestampString d) = Some d.
Proof.
  intros (Hy & Hmo & Hd & Hh & Hmi & Hs).
  unfold getTimestampString.
  destruct (four_digits (getFullYear d) Hy) as [Ly Ny].
  destruct (two_digits (getMonth d + 1)) as [Lmo Nmo]; [lia|].
  destruct (two_digits (getDate d)) as [Ld Nd]; [lia|].
  destruct (two_digits (getHours d)) as [Lh Nh]; [lia|].
  destruct (two_digits (getMinutes d)) as [Lmi Nmi]; [lia|].
  destruct (two_digits (getSeconds d)) as [Ls Ns]; [lia|].
  split.
  - rewrite !length_append, Ly, Lmo, Ld, Lh, Lmi, Ls. reflexivity.
  - unfold parse_timestamp.
    rewrite (read_field_app 4 _ _ _ Ly Ny). cbn [mbind option_bind].
    rewrite (read_field_app 2 _ _ _ Lmo Nmo). cbn [mbind option_bind].
    rewrite (read_field_app 2 _ _ _ Ld Nd). cbn [mbind option_bind].
    rewrite (append_cons "-" EmptyString). change (EmptyString +:+ ?x) with x.
    cbn [read_dash].
    change (Ascii.eqb "-" "-") with true. cbn [mbind option_bind].
    rewrite (read_field_app 2 _ _ _ Lh Nh). cbn [mbind option_bind].
    rewrite (read_field_app 2 _ _ _ Lmi Nmi). cbn [mbind option_bind].
    rewrite <- (append_empty_r (padStart 2 "0" (toString (JNum (getSeconds d))))).
    rewrite (read_field_app 2 _ _ _ Ls Ns). cbn [mbind option_bind].
    destruct d. simpl. do 2 f_equal. lia.
Qed.

Lemma timestamp_round_trip_witness :
  parse_timestamp (getTimestampString example_date) = Some example_date.
Proof.
  apply timestamp_round_trip. unfold calendar, example_date. simpl. lia.
Defined.

(** ** The export of a quiz nobody joined *)




(** ** Repeating a command *)

Lemma next_explanation_cases s :
  (exists curQ, getCurrentQuestion s = Some curQ /\ qstage curQ = QMCQ /\
                next_explanation s =
                  update_current (set_qstage QEXPLANATION) (set_stage EXPLANATION s)) \/
  ((forall curQ, getCurrentQuestion s = Some curQ -> qstage curQ <> QMCQ) /\
   next_explanation s = set_stage EXPLANATION s).
Proof.
  unfold next_explanation.
  change (getCurrentQuestion (set_stage EXPLANATION s)) with (getCurrentQuestion s).
  destruct (getCurrentQuestion s) as [curQ|]; [destruct (qstage curQ) eqn:Hst|].
  - left. by exists curQ.
  - right. split; [|done]. intros ? [= <-]. by rewrite Hst.
  - right. split; [|done]. intros ? [= <-]. by rewrite Hst.
  - right. by split.
Qed.

Lemma next_explanation_idempotent s :
  next_explanation (next_explanation s) = next_explanation s.
Proof.
  destruct (next_explanation_cases s) as [(curQ & Hq & Hst & ->)|[Hq ->]].
  - set (s1 := update_current (set_qstage QEXPLANATION) (set_stage EXPLANATION s)).
    destruct (next_explanation_cases s1) as [(q1 & Hq1 & Hst1 & _)|[_ ->]]; [|done].
    exfalso. subst s1. rewrite getCurrentQuestion_update_current in Hq1.
    change (getCurrentQuestion (set_stage EXPLANATION s)) with (getCurrentQuestion s) in Hq1.
    rewrite Hq in Hq1. by injection Hq1 as <-.
  - destruct (next_explanation_cases (set_stage EXPLANATION s))
      as [(q1 & Hq1 & Hst1 & _)|[_ ->]]; [|done].
    exfalso. by apply (Hq q1).
Qed.

Lemma lookup_session_sessions st' st c :
  sessions st' = sessions st -> lookup_session st' c = lookup_session st c.
Proof. unfold lookup_session. by intros ->. Qed.

(** X18: Repeating TEACHER_NEXT_EXPLANATION, TEACHER_STOP_QUIZ or
    TEACHER_REJOIN_SESSION (from the same connection) changes the registry
    no further: the second message leaves every session as the first left
    it. *)
Theorem repeated_command_idempotent st ws e e' sessionCode m st1 st2 :
  m = TEACHER_NEXT_EXPLANATION sessionCode \/ m = TEACHER_STOP_QUIZ sessionCode \/
  m = TEACHER_REJOIN_SESSION sessionCode ->
  handle ws e m st = Ok st1 -> handle ws e' m st1 = Ok st2 ->
  sessions st2 = sessions st1.
Proof.
  intros Hm H1 H2.
  assert (forall s', sessions st1 !! sessionCode = Some s' ->
            lookup_session st1 sessionCode = Own s') as Hown1
    by (intros s'; apply lookup_session_Own).
  destruct Hm as [-> | [-> | ->]]; simpl in H1, H2;
    (destruct (lookup_session st sessionCode) as [s| |] eqn:Hl; [|done|]);
    injection H1 as <-;
    try (rewrite ?(lookup_session_sessions _ st) in H2 by registry;
         rewrite Hl in H2; injection H2 as <-; registry; done);
    (erewrite Hown1 in H2 by (registry; apply lookup_insert_eq));
    injection H2 as <-; do 2 registry; rewrite insert_insert_eq; f_equal.
  - apply next_explanation_idempotent.
Qed.

Lemma run_stop_twice :
  exists st1 st2,
    handle 0%nat (with_bytes x00 x00 x00) (TEACHER_STOP_QUIZ "AB12C3")
           (final (sam_joins ++ bob_joins)) = Ok st1 /\
    handle 0%nat (with_bytes x00 x00 x00) (TEACHER_STOP_QUIZ "AB12C3") st1 = Ok st2.
Proof. eexists _, _. split; [vm_compute; reflexivity | vm_compute; reflexivity]. Qed.

Lemma repeated_command_idempotent_witness :
  exists st1 st2,
    handle 0%nat (with_bytes x00 x00 x00) (TEACHER_STOP_QUIZ "AB12C3")
           (final (sam_joins ++ bob_joins)) = Ok st1 /\
    handle 0%nat (with_bytes x00 x00 x00) (TEACHER_STOP_QUIZ "AB12C3") st1 = Ok st2 /\
    sessions st2 = sessions st1.
Proof.
  destruct run_stop_twice as (st1 & st2 & H1 & H2).
  exists st1, st2. split; [exact H1|]. split; [exact H2|].
  exact (repeated_command_idempotent (final (sam_joins ++ bob_joins)) 0%nat
           (with_bytes x00 x00 x00) (with_bytes x00 x00 x00) "AB12C3"
           (TEACHER_STOP_QUIZ "AB12C3") st1 st2 (or_intror (or_introl eq_refl)) H1 H2).
Defined.

(** ** What the handlers send *)

Lemma wire_view st0 st c s :
  sockets st = sockets st0 -> sessions st !! c = Some s ->
  wire (broadcastTeacherView c st) = wire st ++ view_entry st0 c s.
Proof.
  intros Hsock Hs. rewrite (wire_broadcastTeacherView c s) by done.
  unfold view_entry. destruct (teacher s) as [w|]; [|done].
  by rewrite (is_open_sockets st0 st).
Qed.

Lemma wire_broadcast st0 st c s data :
  sockets st = sockets st0 -> sessions st !! c = Some s ->
  wire (broadcastToSession c data st) = wire st ++ broadcast_entries st0 s data.
Proof.
  intros Hsock Hs. rewrite wire_broadcastToSession, Hs. unfold broadcast_entries.
  do 2 f_equal. apply List.filter_ext. intros w. by apply is_open_sockets.
Qed.

Lemma sockets_sendJSON ws data st : sockets (sendJSON ws data st) = sockets st.
Proof. apply sendJSON_only_wire. Qed.
Lemma sockets_broadcastToSession c data st :
  sockets (broadcastToSession c data st) = sockets st.
Proof. apply broadcastToSession_only_wire. Qed.
Lemma sockets_broadcastTeacherView c st :
  sockets (broadcastTeacherView c st) = sockets st.
Proof. apply broadcastTeacherView_only_wire. Qed.

Ltac same_sockets :=
  rewrite ?sockets_broadcastTeacherView, ?sockets_broadcastToSession,
    ?sockets_sendJSON; done.

(** X19: What goes on the wire, and in which order, when a handler finds its
    session. A join: JOINED_SESSION with the new id and the stage for the
    caller, then the teacher view with the student added. A new question:
    MCQ_STARTED for every member, then the teacher view of the new
    question. The explanation stage: SHOW_EXPLANATION_INPUT for every
    member, then the teacher view. A submission that finds its record: the
    teacher view and nothing for the student. Each event only where the
    socket is open; no socket is changed. *)
Theorem handler_notifications st ws e sessionCode session :
  sessions st !! sessionCode = Some session ->
  (forall username,
     exists st',
       handle ws e (STUDENT_JOIN_SESSION sessionCode username) st = Ok st' /\
       sockets st' = sockets st /\
       wire st' =
         wire st ++
         (if is_open st ws
          then [(ws, Send (JOINED_SESSION (generateStudentId e) sessionCode
                                          (stage session)))]
          else []) ++
         view_entry st sessionCode (join (generateStudentId e) username ws session)) /\
  (forall questionText options,
     exists st',
       handle ws e (TEACHER_START_MCQ sessionCode questionText options) st = Ok st' /\
       sockets st' = sockets st /\
       wire st' =
         wire st ++
         broadcast_entries st session
           (MCQ_STARTED (JS.or questionText (JStr EmptyString)) options) ++
         view_entry st sessionCode (start_mcq questionText options session)) /\
  (exists st',
     handle ws e (TEACHER_NEXT_EXPLANATION sessionCode) st = Ok st' /\
     sockets st' = sockets st /\
     wire st' =
       wire st ++ broadcast_entries st session SHOW_EXPLANATION_INPUT ++
       view_entry st sessionCode (next_explanation session)) /\
  (forall studentId answer session',
     submit (set_mcqAnswer answer) studentId session = Ok (Some session') ->
     exists st',
       handle ws e (STUDENT_SUBMIT_MCQ sessionCode studentId answer) st = Ok st' /\
       sockets st' = sockets st /\
       wire st' = wire st ++ view_entry st sessionCode session') /\
  (forall studentId explanation session',
     submit (set_explanation explanation) studentId session = Ok (Some session') ->
     exists st',
       handle ws e (STUDENT_EXPLANATION_UPDATE sessionCode studentId explanation) st
         = Ok st' /\
       sockets st' = sockets st /\
       wire st' = wire st ++ view_entry st sessionCode session').
Proof.
  intros Hs. apply lookup_session_Own in Hs as Hown.
  split; [|split; [|split; [|split]]].
  - intros username. eexists. split; [unfold handle; rewrite Hown; reflexivity|].
    split; [same_sockets|].
    rewrite (wire_view st _ _ (join (generateStudentId e) username ws session)) by (first [same_sockets | registry; apply lookup_insert_eq]).
    rewrite app_assoc. f_equal.
    unfold sendJSON.
    change (is_open (store ?c ?s st) ws) with (is_open st ws).
    by destruct (is_open st ws); simpl; rewrite ?app_nil_r.
  - intros questionText options. eexists.
    split; [unfold handle; rewrite Hown; reflexivity|].
    split; [same_sockets|].
    rewrite (wire_view st _ _ (start_mcq questionText options session)) by (first [same_sockets | registry; apply lookup_insert_eq]).
    rewrite (wire_broadcast st _ _ (start_mcq questionText options session))
      by (first [done | apply lookup_insert_eq]).
    rewrite <- app_assoc. simpl. do 2 f_equal.
    unfold broadcast_entries. by rewrite members_start_mcq.
  - eexists. split; [unfold handle; rewrite Hown; reflexivity|].
    split; [same_sockets|].
    rewrite (wire_view st _ _ (next_explanation session)) by (first [same_sockets | registry; apply lookup_insert_eq]).
    rewrite (wire_broadcast st _ _ (next_explanation session))
      by (first [done | apply lookup_insert_eq]).
    rewrite <- app_assoc. simpl. do 2 f_equal.
    unfold broadcast_entries. by rewrite members_next_explanation.
  - intros studentId answer session' Hsub. eexists.
    split; [unfold handle; rewrite Hown, Hsub; reflexivity|].
    split; [same_sockets|].
    by rewrite (wire_view st _ _ session') by (first [done | apply lookup_insert_eq]).
  - intros studentId explanation session' Hsub. eexists.
    split; [unfold handle; rewrite Hown, Hsub; reflexivity|].
    split; [same_sockets|].
    by rewrite (wire_view st _ _ session') by (first [done | apply lookup_insert_eq]).
Qed.

Lemma handler_notifications_witness :
  exists st',
    handle 0%nat (with_bytes x00 x00 x00) (TEACHER_NEXT_EXPLANATION "AB12C3")
           (final (sam_joins ++ bob_joins)) = Ok st' /\
    sockets st' = sockets (final (sam_joins ++ bob_joins)) /\
    wire st' =
      wire (final (sam_joins ++ bob_joins)) ++
      broadcast_entries (final (sam_joins ++ bob_joins)) sam_and_bob
        SHOW_EXPLANATION_INPUT ++
      view_entry (final (sam_joins ++ bob_joins)) "AB12C3" (next_explanation sam_and_bob).
Proof.
  exact (proj1 (proj2 (proj2
           (handler_notifications (final (sam_joins ++ bob_joins)) 0%nat
              (with_bytes x00 x00 x00) "AB12C3" sam_and_bob (proj2 run_sam_and_bob))))).
Defined.

(** * Properties of the [.env] loader *)

(** ** Trimming *)

Lemma trimStart_blank w s : blank w = true -> trimStart (w +:+ s) = trimStart s.
Proof.
  induction w as [|c w IH]; [done|]. unfold blank. cbn [all_chars]. intros H.
  apply andb_prop in H as [Hc Hw]. rewrite append_cons. cbn [trimStart].
  rewrite Hc. by apply IH.
Qed.

Lemma trimStart_head c r : is_space c = false -> trimStart (String c r) = String c r.
Proof. intros H. simpl. by rewrite H. Qed.

Lemma trimEnd_blank w : blank w = true -> trimEnd w = EmptyString.
Proof.
  induction w as [|c w IH]; [done|]. unfold blank. simpl. intros H.
  apply andb_prop in H as [Hc Hw]. rewrite IH by done. by rewrite Hc.
Qed.

Lemma trimEnd_head c r :
  is_space c = false -> trimEnd (String c r) = String c (trimEnd r).
Proof. intros H. simpl. destruct (trimEnd r); [by rewrite H | done]. Qed.

Lemma trimEnd_app a c b :
  is_space c = false -> trimEnd (a +:+ String c b) = a +:+ String c (trimEnd b).
Proof.
  intros Hc. induction a as [|x a IH]; [by apply trimEnd_head|].
  rewrite !append_cons. cbn [trimEnd]. rewrite IH.
  by destruct a.
Qed.

Lemma trimEnd_idem s : trimEnd (trimEnd s) = trimEnd s.
Proof.
  induction s as [|c s IH]; [done|]. simpl.
  destruct (trimEnd s) as [|c' r'] eqn:Hr.
  - destruct (is_space c) eqn:Hc; simpl; [done | by rewrite Hc].
  - cbn [trimEnd]. cbn [trimEnd] in IH. by rewrite IH.
Qed.

Lemma trimEnd_nonempty_head c r :
  trimEnd (String c r) <> EmptyString -> exists r', trimEnd (String c r) = String c r'.
Proof.
  simpl. destruct (trimEnd r); [destruct (is_space c); [done | by eauto] | by eauto].
Qed.

Lemma trimStart_cases s :
  trimStart s = EmptyString \/
  exists c r, trimStart s = String c r /\ is_space c = false.
Proof.
  induction s as [|c s IH]; [by left|]. simpl.
  destruct (is_space c) eqn:Hc; [done | right; by eauto].
Qed.

Lemma trim_cases s :
  trim s = EmptyString \/
  exists c r, trim s = String c r /\ is_space c = false.
Proof.
  unfold trim. destruct (trimStart_cases s) as [->|(c & r & -> & Hc)]; [by left|].
  right. exists c, (trimEnd r). by rewrite trimEnd_head.
Qed.

Lemma trim_idem s : trim (trim s) = trim s.
Proof.
  destruct (trim_cases s) as [->|(c & r & Hs & Hc)]; [done|].
  unfold trim at 1. rewrite Hs, trimStart_head by done. rewrite <- Hs.
  unfold trim. apply trimEnd_idem.
Qed.

(** A trimmed string that is not empty begins and ends with a character
    that is not white space. *)
Lemma trimEnd_fixed s :
  trimEnd s = s -> s <> EmptyString ->
  exists a c, s = a +:+ String c EmptyString /\ is_space c = false.
Proof.
  induction s as [|c s IH]; [done|]. intros H _. simpl in H.
  destruct (trimEnd s) as [|c' r'] eqn:Hr.
  - destruct (is_space c) eqn:Hc; [done|]. injection H as <-.
    by exists EmptyString, c.
  - injection H as H. destruct IH as (a & c0 & -> & Hc0); [done | by rewrite <- H |].
    by exists (String c a), c0.
Qed.

Lemma trim_fixed s :
  trim s = s -> s <> EmptyString ->
  (exists c r, s = String c r /\ is_space c = false) /\
  (exists a c, s = a +:+ String c EmptyString /\ is_space c = false).
Proof.
  intros Ht Hne.
  assert (exists c r, s = String c r /\ is_space c = false) as Hhead.
  { destruct (trim_cases s) as [H|(c & r & H & Hc)]; rewrite Ht in H; [done | by eauto]. }
  split; [done|]. destruct Hhead as (c & r & -> & Hc).
  apply trimEnd_fixed; [|done].
  unfold trim in Ht. by rewrite trimStart_head in Ht.
Qed.

Lemma append_assoc a b c : (a +:+ b) +:+ c = a +:+ b +:+ c.
Proof. induction a as [|x a IH]; [done|]. by rewrite !append_cons, IH. Qed.

Lemma snoc_app a c r : (a +:+ String c EmptyString) +:+ r = a +:+ String c r.
Proof. by rewrite append_assoc. Qed.

Lemma blank_app w w' : blank w = true -> blank w' = true -> blank (w +:+ w') = true.
Proof.
  intros Hw Hw'. induction w as [|c w IH]; [done|].
  unfold blank in *. rewrite append_cons. cbn [all_chars] in *.
  apply andb_prop in Hw as [-> Hw]. by apply IH.
Qed.

Lemma trimStart_all_blank w : blank w = true -> trimStart w = EmptyString.
Proof.
  induction w as [|c w IH]; [done|]. unfold blank. cbn [all_chars trimStart].
  intros H. apply andb_prop in H as [-> Hw]. by apply IH.
Qed.

(** White space around a trimmed string is what [trim] removes. *)
Lemma trim_padded w v w' :
  blank w = true -> blank w' = true -> trim v = v ->
  trim (trimEnd (w +:+ v +:+ w')) = v /\ trim (w +:+ v +:+ w') = v.
Proof.
  intros Hw Hw' Hv.
  destruct v as [|c0 v0].
  - change (EmptyString +:+ w') with w'.
    pose proof (blank_app _ _ Hw Hw') as Hb.
    rewrite (trimEnd_blank _ Hb). split; [done|].
    unfold trim. by rewrite (trimStart_all_blank _ Hb).
  - destruct (trim_fixed _ Hv) as [(c & r & Hhead & Hc) (a & c' & Hlast & Hc')]; [done|].
    assert (trim (w +:+ String c0 v0) = String c0 v0) as H3.
    { unfold trim. rewrite trimStart_blank by done. exact Hv. }
    assert (trimEnd (w +:+ String c0 v0 +:+ w') = w +:+ String c0 v0) as H1.
    { rewrite Hlast, snoc_app, <- append_assoc, trimEnd_app by done.
      rewrite (trimEnd_blank _ Hw'). by rewrite append_assoc. }
    split; [by rewrite H1|].
    unfold trim. rewrite trimStart_blank by done.
    injection Hhead as -> ->. rewrite append_cons, trimStart_head by done.
    rewrite <- append_cons.
    rewrite Hlast, snoc_app, trimEnd_app by done. by rewrite (trimEnd_blank _ Hw').
Qed.

(** ** Searching and slicing *)

Lemma indexOf_app c a r :
  indexOf c a = None -> indexOf c (a +:+ String c r) = Some (String.length a).
Proof.
  induction a as [|x a IH].
  - intros _. change (EmptyString +:+ String c r) with (String c r).
    cbn [indexOf]. by rewrite Ascii.eqb_refl.
  - rewrite append_cons. cbn [indexOf String.length].
    destruct (Ascii.eqb x c); [done|].
    destruct (indexOf c a); [done|]. intros _. by rewrite IH.
Qed.

Lemma indexOf_no_char c s : indexOf c s = None <-> no_char c s = true.
Proof.
  unfold no_char. induction s as [|x s IH]; simpl; [done|].
  destruct (Ascii.eqb x c); simpl; [done|].
  rewrite <- IH. by destruct (indexOf c s).
Qed.

Lemma no_char_app c a b :
  no_char c (a +:+ b) = no_char c a && no_char c b.
Proof.
  unfold no_char. induction a as [|x a IH]; [done|].
  rewrite append_cons. cbn [all_chars]. by rewrite IH, andb_assoc.
Qed.

Lemma no_char_take c s i : indexOf c s = Some i -> no_char c (take i s) = true.
Proof.
  unfold no_char. revert i. induction s as [|x s IH]; intros i; simpl; [done|].
  destruct (Ascii.eqb x c) eqn:Hx.
  - by intros [= <-].
  - destruct (indexOf c s) as [j|]; [|done]. simpl. intros [= <-]. simpl.
    rewrite Hx. simpl. by apply IH.
Qed.

Lemma no_char_trimStart c s : no_char c s = true -> no_char c (trimStart s) = true.
Proof.
  unfold no_char. induction s as [|x s IH]; simpl; [done|].
  intros H. apply andb_prop in H as [Hx Hs].
  destruct (is_space x); [by apply IH|]. simpl. by rewrite Hx, Hs.
Qed.

Lemma no_char_trimEnd c s : no_char c s = true -> no_char c (trimEnd s) = true.
Proof.
  unfold no_char. induction s as [|x s IH]; simpl; [done|].
  intros H. apply andb_prop in H as [Hx Hs]. specialize (IH Hs).
  destruct (trimEnd s); [destruct (is_space x)|]; simpl in *; rewrite ?Hx; done.
Qed.

Lemma no_char_blank w : blank w = true -> no_char "=" w = true.
Proof.
  unfold blank, no_char. induction w as [|x w IH]; simpl; [done|].
  intros H. apply andb_prop in H as [Hx Hw]. rewrite IH by done.
  rewrite andb_true_r. destruct (Ascii.eqb_spec x "="); [by subst|done].
Qed.

(** ** What a line does *)

Lemma loadEnvLine_subseteq process_env line : process_env ⊆ loadEnvLine process_env line.
Proof.
  unfold loadEnvLine.
  destruct (_ || _); [done|].
  destruct (indexOf "=" (trim line)) as [idx|]; [|done].
  set (key := trim (take idx (trim line))).
  destruct (String.eqb key EmptyString); [done|].
  destruct (read (process_env !! key) key) eqn:Hread; [done | done |].
  apply insert_subseteq. unfold read in Hread. by destruct (process_env !! key).
Qed.

(** X22: Loading a [.env] file only adds variables: every variable that is set
    keeps its value, whatever the file says, and a missing or unreadable
    file changes nothing. *)
Theorem env_file_only_adds file process_env :
  process_env ⊆ loadEnvFile file process_env /\
  loadEnvFile None process_env = process_env.
Proof.
  split; [|done]. destruct file as [raw|]; [|done]. simpl.
  generalize (split_lines raw). intros lines. revert process_env.
  induction lines as [|l lines IH]; intros process_env; simpl; [done|].
  etrans; [apply loadEnvLine_subseteq | apply IH].
Qed.

(** X23: A line either leaves [process.env] as it is or sets one variable that
    was not set: its name is not empty, has no white space at either end,
    contains no equals sign, does not begin a comment, and is not a name
    inherited from [Object.prototype]. *)
Theorem env_line_sets_a_new_name process_env line :
  loadEnvLine process_env line = process_env \/
  exists key value,
    loadEnvLine process_env line = <[key := value]> process_env /\
    process_env !! key = None /\ inherited key = false /\
    key <> EmptyString /\ trim key = key /\
    indexOf "=" key = None /\ startsWith "#" key = false.
Proof.
  unfold loadEnvLine. set (trimmed := trim line).
  destruct (String.eqb_spec trimmed EmptyString) as [He|Hne]; [by left|]. simpl.
  destruct (startsWith "#" trimmed) eqn:Hhash; [by left|].
  destruct (indexOf "=" trimmed) as [idx|] eqn:Hidx; [|by left].
  set (key := trim (take idx trimmed)).
  destruct (String.eqb_spec key EmptyString) as [Hk|Hk]; [by left|].
  destruct (read (process_env !! key) key) eqn:Hread; [by left | by left |].
  right. eexists key, _. split; [reflexivity|].
  unfold read in Hread. destruct (process_env !! key) eqn:Hlook; [done|].
  destruct (inherited key) eqn:Hinh; [done|].
  split; [done|]. split; [done|]. split; [done|].
  split; [apply trim_idem|]. split.
  - apply indexOf_no_char. unfold key, trim.
    by apply no_char_trimEnd, no_char_trimStart, no_char_take.
  - destruct (trim_cases line) as [H|(c & r & H & Hc)]; fold trimmed in H; [done|].
    subst key. rewrite H in *. destruct idx as [|i]; [done|].
    cbn [take]. unfold trim. rewrite trimStart_head, trimEnd_head by done.
    exact Hhash.
Qed.

Lemma drop_app_cons a c r : drop (S (String.length a)) (a +:+ String c r) = r.
Proof.
  induction a as [|x a IH]; [done|]. rewrite append_cons. cbn [String.length drop].
  exact IH.
Qed.

Lemma endsWith_snoc c a : endsWith c (a +:+ String c EmptyString) = true.
Proof.
  induction a as [|x a IH].
  - change (EmptyString +:+ String c EmptyString) with (String c EmptyString).
    cbn [endsWith]. apply Ascii.eqb_refl.
  - rewrite append_cons. cbn [endsWith]. rewrite IH.
    destruct a; [|done].
    by change (EmptyString +:+ String c EmptyString) with (String c EmptyString).
Qed.

Lemma unquote_quoted q u :
  q = dquote \/ q = squote ->
  trim (String q (u +:+ String q EmptyString)) = String q (u +:+ String q EmptyString) /\
  unquote (String q (u +:+ String q EmptyString)) = u.
Proof.
  intros Hq.
  assert (is_space q = false) as Hs by (by destruct Hq as [-> | ->]).
  split.
  - unfold trim. rewrite trimStart_head by done.
    rewrite <- append_cons, trimEnd_app by done. done.
  - unfold unquote.
    assert (endsWith q (String q (u +:+ String q EmptyString)) = true) as He
      by (rewrite <- append_cons; apply endsWith_snoc).
    assert (startsWith dquote (String q (u +:+ String q EmptyString))
              && endsWith dquote (String q (u +:+ String q EmptyString))
            || startsWith squote (String q (u +:+ String q EmptyString))
               && endsWith squote (String q (u +:+ String q EmptyString)) = true) as ->.
    { destruct Hq as [-> | ->].
      - rewrite He. done.
      - rewrite He. cbn [startsWith]. by rewrite orb_true_r. }
    cbn [String.length drop]. rewrite length_append. cbn [String.length].
    replace (S (String.length u + 1) - 2)%nat with (String.length u) by lia.
    apply take_app.
Qed.

(** What an assignment line does, the key being new. *)
Lemma loadEnvLine_assignment process_env w1 key w2 w3 value w4 :
  blank w1 = true -> blank w2 = true -> blank w3 = true -> blank w4 = true ->
  key <> EmptyString -> trim key = key ->
  startsWith "#" key = false -> indexOf "=" key = None ->
  process_env !! key = None -> inherited key = false ->
  trim value = value ->
  loadEnvLine process_env (w1 +:+ key +:+ w2 +:+ "=" +:+ w3 +:+ value +:+ w4)
    = <[key := unquote value]> process_env.
Proof.
  intros H1 H2 H3 H4 Hne Hkey Hhash Heq Hnew Hinh Hval.
  destruct (trim_fixed key Hkey Hne) as [(c & r & Hhead & Hc) _].
  set (t := w3 +:+ value +:+ w4).
  assert (trim (w1 +:+ key +:+ w2 +:+ "=" +:+ t) =
          (key +:+ w2) +:+ String "=" (trimEnd t)) as Htrim.
  { unfold trim. rewrite trimStart_blank by done.
    rewrite Hhead at 1. rewrite append_cons, trimStart_head by done.
    rewrite <- append_cons, <- Hhead.
    rewrite <- append_assoc.
    rewrite (append_cons "=" EmptyString). change (EmptyString +:+ ?x) with x.
    by rewrite trimEnd_app. }
  unfold loadEnvLine. rewrite Htrim.
  assert (indexOf "=" (key +:+ w2) = None) as Hnone.
  { apply indexOf_no_char. rewrite no_char_app.
    apply indexOf_no_char in Heq. by rewrite Heq, no_char_blank. }
  rewrite (indexOf_app _ _ _ Hnone), take_app, drop_app_cons.
  assert (trim (key +:+ w2) = key) as ->.
  { apply (trim_padded EmptyString key w2); done. }
  assert (trim (trimEnd t) = value) as -> by (by apply trim_padded).
  assert (String.eqb ((key +:+ w2) +:+ String "=" (trimEnd t)) EmptyString = false) as ->.
  { rewrite Hhead, !append_cons. done. }
  assert (startsWith "#" ((key +:+ w2) +:+ String "=" (trimEnd t)) = false) as ->.
  { rewrite Hhead, !append_cons. rewrite Hhead in Hhash. exact Hhash. }
  assert (String.eqb key EmptyString = false) as -> by (by apply String.eqb_neq).
  cbn [orb]. unfold read. by rewrite Hnew, Hinh.
Qed.

(** X24: An assignment line for a name that is not yet set. The name is what
    precedes the first equals sign and the value what follows it, both
    without the white space around them, wherever it stands; a value
    between two double quotes or two single quotes is stored without them
    and otherwise verbatim, white space, equals signs and hashes included;
    a value that does not begin with a quote is stored as it is. *)
Theorem env_assignment_line process_env w1 key w2 w3 w4 :
  blank w1 = true -> blank w2 = true -> blank w3 = true -> blank w4 = true ->
  key <> EmptyString -> trim key = key ->
  startsWith "#" key = false -> indexOf "=" key = None ->
  process_env !! key = None -> inherited key = false ->
  (forall value, trim value = value ->
     loadEnvLine process_env (w1 +:+ key +:+ w2 +:+ "=" +:+ w3 +:+ value +:+ w4)
       = <[key := unquote value]> process_env) /\
  (forall q u, q = dquote \/ q = squote ->
     loadEnvLine process_env
       (w1 +:+ key +:+ w2 +:+ "=" +:+ w3 +:+
        String q (u +:+ String q EmptyString) +:+ w4)
       = <[key := u]> process_env) /\
  (forall value, trim value = value ->
     startsWith dquote value = false -> startsWith squote value = false ->
     loadEnvLine process_env (w1 +:+ key +:+ w2 +:+ "=" +:+ w3 +:+ value +:+ w4)
       = <[key := value]> process_env).
Proof.
  intros H1 H2 H3 H4 Hne Hkey Hhash Heq Hnew Hinh.
  split; [|split].
  - intros value Hval. by apply loadEnvLine_assignment.
  - intros q u Hq. destruct (unquote_quoted q u Hq) as [Ht Hu].
    rewrite loadEnvLine_assignment by done. by rewrite Hu.
  - intros value Hval Hd Hs. rewrite loadEnvLine_assignment by done.
    unfold unquote. by rewrite Hd, Hs.
Qed.

Lemma env_assignment_line_witness :
  loadEnvLine example_env " PROJECT_URL = 'https://x.supabase.co' "
    = <["PROJECT_URL" := "https://x.supabase.co"]> example_env.
Proof.
  exact (proj1 (proj2 (env_assignment_line example_env " " "PROJECT_URL" " " " " " "
                         eq_refl eq_refl eq_refl eq_refl ltac:(done) eq_refl eq_refl
                         eq_refl eq_refl eq_refl))
           squote "https://x.supabase.co" (or_intror eq_refl)).
Defined.

(** ** Lines and line ends *)

Lemma trimStart_app a w :
  trimStart (a +:+ w) = if blank a then trimStart w else trimStart a +:+ w.
Proof.
  unfold blank. induction a as [|c a IH]; [done|].
  rewrite append_cons. cbn [trimStart all_chars].
  destruct (is_space c); [exact IH | by rewrite append_cons].
Qed.

Lemma trimEnd_app_blank s w : blank w = true -> trimEnd (s +:+ w) = trimEnd s.
Proof.
  intros Hw. induction s as [|c s IH]; [by apply trimEnd_blank|].
  rewrite append_cons. cbn [trimEnd]. by rewrite IH.
Qed.

Lemma trim_app_blank s w : blank w = true -> trim (s +:+ w) = trim s.
Proof.
  intros Hw. unfold trim. rewrite trimStart_app.
  destruct (blank s) eqn:Hs.
  - by rewrite (trimStart_all_blank _ Hw), (trimStart_all_blank _ Hs).
  - by apply trimEnd_app_blank.
Qed.

Lemma chomp_cases l : chomp l = l \/ l = chomp l +:+ String CR EmptyString.
Proof.
  induction l as [|c l IH]; [by left|]. cbn [chomp].
  destruct l as [|c' l'].
  - destruct (Ascii.eqb_spec c CR) as [->|]; [by right | by left].
  - destruct IH as [IH|IH].
    + left. by rewrite IH.
    + right. rewrite append_cons. by rewrite <- IH.
Qed.

Lemma chomp_snoc l : chomp (l +:+ String CR EmptyString) = l.
Proof.
  induction l as [|c l IH]; [done|].
  rewrite append_cons. cbn [chomp]. rewrite IH.
  destruct l; [|done].
  by change (EmptyString +:+ String CR EmptyString) with (String CR EmptyString).
Qed.

Lemma loadEnvLine_chomp process_env l :
  loadEnvLine process_env (chomp l) = loadEnvLine process_env l.
Proof.
  assert (trim (chomp l) = trim l) as H.
  { destruct (chomp_cases l) as [->|Hl]; [done|].
    rewrite Hl at 2. by rewrite trim_app_blank. }
  unfold loadEnvLine. by rewrite H.
Qed.

Lemma split_lines_cons c r :
  split_lines (String c r) =
    if Ascii.eqb c LF then EmptyString :: split_lines r
    else if Ascii.eqb c CR then
      match r with
      | String c' r' =>
          if Ascii.eqb c' LF then EmptyString :: split_lines r'
          else match split_lines r with
               | line :: lines => String c line :: lines
               | [] => [String c EmptyString]
               end
      | EmptyString =>
          match split_lines r with
          | line :: lines => String c line :: lines
          | [] => [String c EmptyString]
          end
      end
    else match split_lines r with
         | line :: lines => String c line :: lines
         | [] => [String c EmptyString]
         end.
Proof. reflexivity. Qed.

Lemma split_lines_line l rest :
  no_char LF l = true ->
  split_lines (l +:+ String LF rest) = chomp l :: split_lines rest.
Proof.
  unfold no_char. induction l as [|c l IH]; [done|].
  cbn [all_chars]. intros H. apply andb_prop in H as [Hc Hl].
  apply negb_true_iff in Hc. specialize (IH Hl).
  rewrite append_cons, split_lines_cons, Hc.
  destruct l as [|c' l'].
  - change (EmptyString +:+ String LF rest) with (String LF rest) in *.
    rewrite IH. cbn [chomp]. change (Ascii.eqb LF LF) with true. cbn iota.
    by destruct (Ascii.eqb c CR).
  - rewrite append_cons in *. rewrite IH.
    cbn [all_chars] in Hl. apply andb_prop in Hl as [Hc' _].
    apply negb_true_iff in Hc'. rewrite Hc'.
    by destruct (Ascii.eqb c CR).
Qed.

Lemma split_lines_last l : no_char LF l = true -> split_lines l = [l].
Proof.
  unfold no_char. induction l as [|c l IH]; [done|].
  cbn [all_chars]. intros H. apply andb_prop in H as [Hc Hl].
  apply negb_true_iff in Hc. specialize (IH Hl).
  rewrite split_lines_cons, Hc, IH.
  destruct l as [|c' l']; [by destruct (Ascii.eqb c CR)|].
  cbn [all_chars] in Hl. apply andb_prop in Hl as [Hc' _].
  apply negb_true_iff in Hc'. rewrite Hc'. by destruct (Ascii.eqb c CR).
Qed.

Lemma concat_cons sep l l' ls :
  String.concat sep (l :: l' :: ls) = l +:+ sep +:+ String.concat sep (l' :: ls).
Proof. reflexivity. Qed.

Lemma no_char_snoc_cr l :
  no_char LF l = true -> no_char LF (l +:+ String CR EmptyString) = true.
Proof. intros H. by rewrite no_char_app, H. Qed.

(** X25: The file is processed line by line, in order, whether its lines end in
    LF or in CRLF: loading the text that joins the lines is folding the
    line callback over them. *)
Theorem env_file_line_by_line lines process_env :
  Forall (fun l => no_char LF l = true) lines ->
  loadEnvFile (Some (String.concat (String LF EmptyString) lines)) process_env
    = fold_left loadEnvLine lines process_env /\
  loadEnvFile (Some (String.concat (String CR (String LF EmptyString)) lines))
              process_env
    = fold_left loadEnvLine lines process_env.
Proof.
  intros Hlines. unfold loadEnvFile. revert process_env.
  induction Hlines as [|l ls Hl Hls IH]; intros process_env; [by split|].
  destruct ls as [|l' ls].
  - simpl String.concat. by rewrite split_lines_last.
  - rewrite !concat_cons. split.
    + rewrite (append_cons LF EmptyString). change (EmptyString +:+ ?x) with x.
      rewrite split_lines_line by done. cbn [fold_left].
      rewrite loadEnvLine_chomp. apply IH.
    + rewrite (append_cons CR (String LF EmptyString)), (append_cons LF EmptyString).
      change (EmptyString +:+ ?x) with x.
      rewrite <- snoc_app, split_lines_line by (by apply no_char_snoc_cr).
      cbn [fold_left]. rewrite chomp_snoc. apply IH.
Qed.

Lemma env_file_line_by_line_witness :
  loadEnvFile (Some example_file) example_env =
  {[ "PORT" := "8080"; "PROJECT_URL" := "https://x.supabase.co";
     "ANON_KEY" := "a b=c" ]}.
Proof.
  unfold example_file.
  rewrite (proj2 (env_file_line_by_line
                    [ "# Supabase"; "PORT=3000"; " PROJECT_URL = https://x.supabase.co ";
                      "ANON_KEY='a b=c'"; "PROJECT_URL=other" ] example_env
                    ltac:(repeat constructor))).
  by vm_compute.
Defined.
